(** * gitcommit: the commit parser and the compatibility matcher

    A shallow embedding of [src/lib/parser.ts] ([parseCommits]) and
    [src/lib/matcher.ts] ([computeCompatibility]) together with the
    [TRAIT_KEYWORDS] table of [src/types], and the properties of the two
    functions that the specification states.

    Numbers.  A JavaScript [number] is modelled as a real number or [NaN]:
    arithmetic is exact, so binary64 rounding error, overflow, the two
    infinities and the sign of zero are outside this model.  [NaN] is kept
    because the code can produce it (the time value of an invalid [Date], a
    member of [Object.prototype] used as a number) and then carries it to
    its result.  Where a property turns on how binary64 rounds, it is
    settled on a second embedding of [matcher.ts], over the binary64
    numbers of the kernel (module [Binary64]).

    Objects.  A [Record<string, V>] is an association list of the object's
    own properties in insertion order, which is the order in which
    [Object.keys] and [Object.entries] enumerate non-numeric string keys.
    Reading [o[key]] goes on to [Object.prototype] when [o] has no own
    property [key]. *)

From Stdlib Require Import Reals Lra Lia Psatz List String Ascii Bool.
From Stdlib Require Import Permutation Sorted Zfloor Factorial.
From Stdlib Require Floats.
Import ListNotations.

#[local] Open Scope R_scope.

(** ** Numbers *)

Inductive number : Type :=
| NaN
| Num (r : R).

Definition lift1 (f : R -> R) (x : number) : number :=
  match x with
  | Num a => Num (f a)
  | NaN => NaN
  end.

Definition lift2 (f : R -> R -> R) (x y : number) : number :=
  match x, y with
  | Num a, Num b => Num (f a b)
  | _, _ => NaN
  end.

Definition add : number -> number -> number := lift2 Rplus.
Definition sub : number -> number -> number := lift2 Rminus.
Definition mul : number -> number -> number := lift2 Rmult.
Definition neg : number -> number := lift1 Ropp.

(** [x / y].  A zero divisor gives a non-finite quotient in JavaScript; the
    model has no infinities and answers [NaN].  No division in the code
    below has a zero divisor: each is guarded, or divides by a constant or
    by a positive count. *)
Definition div (x y : number) : number :=
  match x, y with
  | Num a, Num b => if Req_dec_T b 0 then NaN else Num (a / b)
  | _, _ => NaN
  end.

(** [x > y] and [x === y]; both are false as soon as one side is [NaN]. *)
Definition gt (x y : number) : bool :=
  match x, y with
  | Num a, Num b => if Rlt_dec b a then true else false
  | _, _ => false
  end.

Definition strict_eq (x y : number) : bool :=
  match x, y with
  | Num a, Num b => if Req_dec_T a b then true else false
  | _, _ => false
  end.

Definition Math_abs : number -> number := lift1 Rabs.
Definition Math_max : number -> number -> number := lift2 Rmax.
Definition Math_min : number -> number -> number := lift2 Rmin.
Definition Math_exp : number -> number := lift1 exp.

Definition Math_sqrt (x : number) : number :=
  match x with
  | Num a => if Rlt_dec a 0 then NaN else Num (sqrt a)
  | NaN => NaN
  end.

(** [Math.round] rounds to the nearest integer, a tie going up. *)
Definition Math_round : number -> number :=
  lift1 (fun a => IZR (Zfloor (a + / 2))).

Declare Scope js_scope.
Delimit Scope js_scope with js.
Bind Scope js_scope with number.
Infix "+" := add : js_scope.
Infix "-" := sub : js_scope.
Infix "*" := mul : js_scope.
Infix "/" := div : js_scope.
Notation "- x" := (neg x) : js_scope.
Infix ">" := gt : js_scope.
Infix "===" := strict_eq (at level 70, no associativity) : js_scope.

(** Both [parser.ts] and [matcher.ts] declare the same [round4]. *)
Definition round4 (n : number) : number :=
  (Math_round (n * Num 10000) / Num 10000)%js.

(** ** Objects used as maps *)

Definition JSRecord (V : Type) : Type := list (string * V).

Fixpoint get {V : Type} (o : JSRecord V) (key : string) : option V :=
  match o with
  | [] => None
  | (k, v) :: o' => if String.eqb k key then Some v else get o' key
  end.

(** [o[key] = v]: an existing key keeps its place, a new key goes last. *)
Fixpoint set {V : Type} (o : JSRecord V) (key : string) (v : V) : JSRecord V :=
  match o with
  | [] => [(key, v)]
  | (k, w) :: o' =>
      if String.eqb k key then (k, v) :: o' else (k, w) :: set o' key v
  end.

Definition Object_keys {V : Type} (o : JSRecord V) : list string := map fst o.
Definition Object_entries {V : Type} (o : JSRecord V) : list (string * V) := o.

Definition mem (x : string) (l : list string) : bool :=
  existsb (String.eqb x) l.

(** [new Set(l)], as the list of its elements in insertion order. *)
Definition new_Set (l : list string) : list string :=
  fold_left (fun s x => if mem x s then s else s ++ [x]) l [].

(** The members that every object literal inherits from [Object.prototype]:
    eleven functions and the accessor [__proto__], which reads as
    [Object.prototype] itself.  None of them is enumerable. *)
Definition Object_prototype : list string :=
  ["constructor"; "__defineGetter__"; "__defineSetter__"; "hasOwnProperty";
   "__lookupGetter__"; "__lookupSetter__"; "isPrototypeOf";
   "propertyIsEnumerable"; "toString"; "valueOf"; "__proto__";
   "toLocaleString"]%string.

Definition inherited (key : string) : bool := mem key Object_prototype.

(** What the code reads from, and writes to, its records: a number; a
    function or object of the host (a member of [Object.prototype]); a
    string obtained by appending to the text of such a member, which is not
    empty and does not read as a number; or [undefined]. *)
Inductive Value : Type :=
| Number (n : number)
| Object_
| Text
| Undefined.

(** [o[key]]: the own property, else the inherited member, else
    [undefined]. *)
Definition member {V : Type} (own : V -> Value) (o : JSRecord V)
  (key : string) : Value :=
  match get o key with
  | Some v => own v
  | None => if inherited key then Object_ else Undefined
  end.

(** [o[key] = v] for a [v] that is a number or a string.  The setter of
    [__proto__] ignores such a value; any other key becomes, or stays, an
    own property. *)
Definition assign {V : Type} (o : JSRecord V) (key : string) (v : V)
  : JSRecord V :=
  if String.eqb key "__proto__" then o else set o key v.

(** [v || d]: [undefined], [0] and [NaN] are falsy; an object and a
    non-empty string are truthy. *)
Definition or_else (v : Value) (d : number) : Value :=
  match v with
  | Number (Num r) => if Req_dec_T r 0 then Number d else v
  | Number NaN => Number d
  | Object_ => Object_
  | Text => Text
  | Undefined => Number d
  end.

(** The conversion that arithmetic applies to an operand.  A function, and
    [Object.prototype], convert through their text, which is not that of a
    number. *)
Definition ToNumber (v : Value) : number :=
  match v with
  | Number n => n
  | Object_ => NaN
  | Text => NaN
  | Undefined => NaN
  end.

(** [v + bytes] for a number [bytes]: addition of numbers, and
    concatenation when [v] is a string or converts to one. *)
Definition plus (v : Value) (bytes : number) : Value :=
  match v with
  | Number n => Number (n + bytes)%js
  | Object_ => Text
  | Text => Text
  | Undefined => Number NaN
  end.

(** ** [types]: the profile summary *)

Record ProfileSummary : Type := {
  languages : JSRecord number;
  commitTraits : JSRecord number;
  activityScore : number;
  highlights : string;
  timezoneOffset : option number
}.

(** ** [matcher.ts] *)

(** [valA] and [valB] are used as factors of products only, which converts
    them to numbers. *)
Definition cosineSimilarity (a b : JSRecord number) : number :=
  let allKeys := new_Set (Object_keys a ++ Object_keys b) in
  let '(dotProduct, normA, normB) :=
    fold_left
      (fun '(dotProduct, normA, normB) key =>
         let valA := ToNumber (or_else (member Number a key) (Num 0)) in
         let valB := ToNumber (or_else (member Number b key) (Num 0)) in
         (dotProduct + valA * valB, normA + valA * valA,
          normB + valB * valB)%js)
      allKeys (Num 0, Num 0, Num 0) in
  let magnitude := (Math_sqrt normA * Math_sqrt normB)%js in
  if (magnitude === Num 0)%js then Num 0 else (dotProduct / magnitude)%js.

(** The value of the local [timezoneScore] of [computeCompatibility]. *)
Definition timezoneScore (a b : ProfileSummary) : number :=
  match timezoneOffset a, timezoneOffset b with
  | Some offA, Some offB =>
      let deltaHours := Math_abs (offA - offB) in
      Math_max (Num 0) (Num 1 - deltaHours / Num 12)
  | _, _ => Num 0.5
  end.

Definition computeCompatibility (a b : ProfileSummary) : number :=
  let techOverlap := cosineSimilarity (languages a) (languages b) in
  let traitSimilarity := cosineSimilarity (commitTraits a) (commitTraits b) in
  let activitySimilarity :=
    (Num 1 - Math_abs (activityScore a - activityScore b))%js in
  let score :=
    (Num 0.4 * techOverlap + Num 0.3 * traitSimilarity
     + Num 0.2 * activitySimilarity + Num 0.1 * timezoneScore a b)%js in
  round4 score.

(** ** [matcher.ts] over binary64

    The same functions, with the [number]s of the code as they are: the
    binary64 numbers of IEEE 754, their operations rounded to nearest, ties
    to even.  A decimal literal denotes the nearest binary64 number, as in
    JavaScript. *)

Module Binary64.
Import Floats.
#[local] Set Warnings "-inexact-float".
#[local] Open Scope float_scope.

Inductive Value : Type :=
| Number (x : float)
| Object_
| Undefined.

Definition member (o : JSRecord float) (key : string) : Value :=
  match get o key with
  | Some x => Number x
  | None => if inherited key then Object_ else Undefined
  end.

(** [v || d]: [0], [-0], [NaN] and [undefined] are falsy. *)
Definition or_else (v : Value) (d : float) : Value :=
  match v with
  | Number x => if (x =? 0) || is_nan x then Number d else v
  | Object_ => Object_
  | Undefined => Number d
  end.

Definition ToNumber (v : Value) : float :=
  match v with
  | Number x => x
  | Object_ => nan
  | Undefined => nan
  end.

(** [Math.floor]: a number from 2^52 on is an integer; below, adding and
    subtracting 2^52 rounds to an integer, which is one too many when it
    lies above [x]. *)
Definition two52 : float := 4503599627370496.

Definition Math_floor (x : float) : float :=
  if abs x <? two52 then
    let t := if x <? 0 then (x - two52) + two52 else (x + two52) - two52 in
    if x <? t then t - 1 else t
  else x.

(** [Math.round]: the nearest integer, a tie going up; a zero result has
    the sign of [x]. *)
Definition Math_round (x : float) : float :=
  let f := Math_floor x in
  let r := if 0.5 <=? x - f then f + 1 else f in
  if r =? 0 then x * 0 else r.

Definition Math_max (x y : float) : float :=
  if is_nan x || is_nan y then nan
  else if x <? y then y
  else if y <? x then x
  else if x =? 0 then x + y
  else x.

Definition round4 (n : float) : float := Math_round (n * 10000) / 10000.

Definition cosineSimilarity (a b : JSRecord float) : float :=
  let allKeys := new_Set (Object_keys a ++ Object_keys b) in
  let '(dotProduct, normA, normB) :=
    fold_left
      (fun '(dotProduct, normA, normB) key =>
         let valA := ToNumber (or_else (member a key) 0) in
         let valB := ToNumber (or_else (member b key) 0) in
         (dotProduct + valA * valB, normA + valA * valA,
          normB + valB * valB))
      allKeys (0, 0, 0) in
  let magnitude := sqrt normA * sqrt normB in
  if magnitude =? 0 then 0 else dotProduct / magnitude.

Record ProfileSummary : Type := {
  languages : JSRecord float;
  commitTraits : JSRecord float;
  activityScore : float;
  highlights : string;
  timezoneOffset : option float
}.

Definition computeCompatibility (a b : ProfileSummary) : float :=
  let techOverlap := cosineSimilarity (languages a) (languages b) in
  let traitSimilarity := cosineSimilarity (commitTraits a) (commitTraits b) in
  let activitySimilarity := 1 - abs (activityScore a - activityScore b) in
  let timezoneScore :=
    match timezoneOffset a, timezoneOffset b with
    | Some offA, Some offB =>
        let deltaHours := abs (offA - offB) in
        Math_max 0 (1 - deltaHours / 12)
    | _, _ => 0.5
    end in
  let score :=
    0.4 * techOverlap + 0.3 * traitSimilarity + 0.2 * activitySimilarity
    + 0.1 * timezoneScore in
  round4 score.




End Binary64.

(** ** Strings and regular expressions

    Strings are byte strings; case mapping acts on the ASCII letters. *)

Definition toLowerCase_char (c : ascii) : ascii :=
  let n := nat_of_ascii c in
  if (65 <=? n)%nat && (n <=? 90)%nat then ascii_of_nat (n + 32) else c.

Definition toUpperCase_char (c : ascii) : ascii :=
  let n := nat_of_ascii c in
  if (97 <=? n)%nat && (n <=? 122)%nat then ascii_of_nat (n - 32) else c.

Fixpoint toLowerCase (s : string) : string :=
  match s with
  | EmptyString => EmptyString
  | String c s' => String (toLowerCase_char c) (toLowerCase s')
  end.

(** The fragment of regular expressions that [TRAIT_KEYWORDS] is written
    in: literals, [r1|r2], concatenation and [r?]. *)
Inductive RegExp : Type :=
| Lit (s : string)
| Alt (r1 r2 : RegExp)
| Cat (r1 r2 : RegExp)
| Opt (r : RegExp).

(** Two characters match under the [i] flag when their canonical (upper
    case) forms agree. *)
Definition char_eq_i (c d : ascii) : bool :=
  Ascii.eqb (toUpperCase_char c) (toUpperCase_char d).

(** [strip_i p s]: what is left of [s] after the literal [p], if [s] starts
    with it. *)
Fixpoint strip_i (p s : string) : option string :=
  match p, s with
  | EmptyString, _ => Some s
  | String c p', String d s' => if char_eq_i c d then strip_i p' s' else None
  | String _ _, EmptyString => None
  end.

(** All the ways [r] matches at the start of [s], each given by the rest of
    [s] behind the match. *)
Fixpoint match_here (r : RegExp) (s : string) : list string :=
  match r with
  | Lit p => match strip_i p s with Some rest => [rest] | None => [] end
  | Alt r1 r2 => match_here r1 s ++ match_here r2 s
  | Cat r1 r2 => flat_map (match_here r2) (match_here r1 s)
  | Opt r1 => match_here r1 s ++ [s]
  end.

Definition matches_here (r : RegExp) (s : string) : bool :=
  match match_here r s with
  | [] => false
  | _ :: _ => true
  end.

(** [pattern.test(s)] for a pattern without anchors and without the [g]
    flag: is there a match starting at some position of [s]? *)
Fixpoint RegExp_test (pattern : RegExp) (s : string) : bool :=
  match s with
  | EmptyString => matches_here pattern s
  | String _ s' => matches_here pattern s || RegExp_test pattern s'
  end.

Infix "<|>" := Alt (at level 51, right associativity).

Definition TRAIT_KEYWORDS : JSRecord RegExp := [
  ("fixer"%string,
   Lit "fix" <|> Lit "bug" <|> Lit "panic" <|> Lit "crash"
   <|> Lit "nullpointer" <|> Lit "error" <|> Lit "bugfix");
  ("tests"%string,
   Lit "test" <|> Lit "spec" <|> Lit "assert" <|> Lit "integration test"
   <|> Lit "unit test");
  ("docs"%string,
   Lit "readme" <|> Cat (Lit "doc") (Opt (Lit "s")) <|> Lit "comment");
  ("wip"%string,
   Lit "wip" <|> Lit "temp" <|> Lit "prototype" <|> Lit "draft");
  ("chores"%string,
   Lit "chore" <|> Lit "bump" <|> Lit "deps" <|> Lit "maintenance");
  ("chaotic"%string,
   Lit "fuck" <|> Lit "shit" <|> Lit "finally" <|> Lit "lol" <|> Lit "omg"
   <|> Lit "whew" <|> Lit "screw")
].

(** ** Arrays *)

(** [xs.sort(cmp)]: a stable sort; [a] stays in front of [b] unless
    [cmp(a, b) > 0]. *)
Fixpoint sort_insert {A : Type} (cmp : A -> A -> number) (x : A)
  (l : list A) : list A :=
  match l with
  | [] => [x]
  | y :: l' =>
      if (cmp x y > Num 0)%js then y :: sort_insert cmp x l' else x :: l
  end.

Definition Array_sort {A : Type} (cmp : A -> A -> number) (l : list A)
  : list A :=
  fold_right (sort_insert cmp) [] l.

(** [a.localeCompare(b)], by code units; on the lower-case ASCII trait names
    every locale orders the same way. *)
Definition localeCompare (a b : string) : number :=
  match String.compare a b with
  | Lt => Num (-1)
  | Eq => Num 0
  | Gt => Num 1
  end.

(** ** [parser.ts] *)

Record Commit : Type := {
  sha : string;
  message : string;
  repo : string;
  date : string
}.

(** A [Date] object, by its time value in milliseconds; [NaN] for an
    invalid date. *)
Definition Date : Type := number.
Definition getTime (d : Date) : number := d.

Definition emptyProfile : ProfileSummary :=
  {| languages := []; commitTraits := []; activityScore := Num 0;
     highlights := ""; timezoneOffset := None |}.

Section parser.

(** The host: [new Date(dateStr)], which yields an invalid date (and does
    not throw) when the string is not recognised, and [new Date()]. *)
Variable Date_parse : string -> Date.
Variable Date_current : Date.

(** [daysSince(dateStr, now)]; its one caller passes both arguments. *)
Definition daysSince (dateStr : string) (now : Date) : number :=
  let date := Date_parse dateStr in
  let diffMs := (getTime now - getTime date)%js in
  (diffMs / Num (1000 * 60 * 60 * 24))%js.

(** [traitCounts[trait]++] (line 67). *)
Definition increment (traitCounts : JSRecord number) (trait : string)
  : JSRecord number :=
  match get traitCounts trait with
  | Some count => set traitCounts trait (count + Num 1)%js
  | None => set traitCounts trait NaN
  end.

(** Lines 53-70: [traitCounts] after the loop over the commits. *)
Definition countTraits (commits : list Commit) : JSRecord number :=
  fold_left
    (fun traitCounts commit =>
       let message := toLowerCase (message commit) in
       fold_left
         (fun traitCounts '(trait, pattern) =>
            if RegExp_test pattern message
            then increment traitCounts trait
            else traitCounts)
         (Object_entries TRAIT_KEYWORDS) traitCounts)
    commits
    [("fixer"%string, Num 0); ("tests"%string, Num 0);
     ("docs"%string, Num 0); ("wip"%string, Num 0);
     ("chores"%string, Num 0); ("chaotic"%string, Num 0)].

(** Lines 73-77: [commitTraits], filled from [traitCounts]. *)
Definition normalizeTraits (traitCounts : JSRecord number)
  (totalCommits : number) : JSRecord number :=
  fold_left
    (fun commitTraits '(trait, count) =>
       set commitTraits trait (round4 (count / totalCommits)))
    (Object_entries traitCounts) [].

(** Lines 90-93: the body of the inner loop, on the pair
    [(langTotals, grandTotal)]. *)
Definition addBytes (state : JSRecord Value * number)
  (entry : string * number) : JSRecord Value * number :=
  let '(langTotals, grandTotal) := state in
  let '(lang, bytes) := entry in
  (assign langTotals lang
     (plus (or_else (member (fun v : Value => v) langTotals lang) (Num 0))
        bytes),
   (grandTotal + bytes)%js).

(** Lines 87-94: the body of the outer loop.  [repoLanguages[repo]] is an
    own property or, for a repository named like a member of
    [Object.prototype], that member, which has no enumerable property of
    its own: then the inner loop has nothing to run over, as when
    [repoLangs] is [undefined]. *)
Definition addRepo (repoLanguages : JSRecord (JSRecord number))
  (state : JSRecord Value * number) (repo : string)
  : JSRecord Value * number :=
  match get repoLanguages repo with
  | Some repoLangs => fold_left addBytes (Object_entries repoLangs) state
  | None => state
  end.

(** Lines 82-95: the aggregation loop over the repositories of the
    commits; the pair [(langTotals, grandTotal)] when the loop ends. *)
Definition aggregateLanguages (commits : list Commit)
  (repoLanguages : JSRecord (JSRecord number))
  : JSRecord Value * number :=
  let userRepos := new_Set (map repo commits) in
  fold_left (addRepo repoLanguages) userRepos ([], Num 0).

(** Lines 80-103: [languages].  The keys of [langTotals] are own
    properties, so [__proto__] is not among them. *)
Definition computeLanguages (commits : list Commit)
  (repoLanguages : option (JSRecord (JSRecord number)))
  : JSRecord number :=
  match repoLanguages with
  | Some repoLanguages =>
      let '(langTotals, grandTotal) :=
        aggregateLanguages commits repoLanguages in
      if (grandTotal > Num 0)%js then
        fold_left
          (fun languages '(lang, bytes) =>
             set languages lang (round4 (ToNumber bytes / grandTotal)))
          (Object_entries langTotals) []
      else []
  | None => []
  end.

(** Lines 109-117: [activityScore]. *)
Definition computeActivity (commits : list Commit) (now : Date) : number :=
  let weightSum :=
    fold_left
      (fun weightSum commit =>
         let days := daysSince (date commit) now in
         let weight := Math_exp (- days / Num 30)%js in
         (weightSum + weight)%js)
      commits (Num 0) in
  let divisor := Math_min (Num 100) (Num (INR (List.length commits))) in
  let rawActivity := (weightSum / divisor)%js in
  round4 (Math_min (Num 1) (Math_max (Num 0) rawActivity)).

(** Lines 123-126: the comparator handed to [sort]. *)
Definition compareTraits (a b : string * number) : number :=
  if negb (snd b === snd a)%js then (snd b - snd a)%js
  else localeCompare (fst a) (fst b).

(** Lines 121-128: [highlights]. *)
Definition computeHighlights (commitTraits : JSRecord number) : string :=
  let traitEntries :=
    Array_sort compareTraits
      (filter (fun '(_, value) => (value > Num 0)%js)
         (Object_entries commitTraits)) in
  String.concat ", " (map fst (firstn 2 traitEntries)).

Definition parseCommits (commits : list Commit)
  (repoLanguages : option (JSRecord (JSRecord number)))
  (referenceDate : option Date) : ProfileSummary :=
  let now :=
    match referenceDate with
    | Some d => d
    | None => Date_current
    end in
  match commits with
  | [] =>
      {| languages := []; commitTraits := []; activityScore := Num 0;
         highlights := ""; timezoneOffset := None |}
  | _ :: _ =>
      let traitCounts := countTraits commits in
      let totalCommits := Num (INR (List.length commits)) in
      let commitTraits := normalizeTraits traitCounts totalCommits in
      let languages := computeLanguages commits repoLanguages in
      let activityScore := computeActivity commits now in
      let highlights := computeHighlights commitTraits in
      {| languages := languages; commitTraits := commitTraits;
         activityScore := activityScore; highlights := highlights;
         timezoneOffset := None |}
  end.

End parser.

(** ** A host date parser

    The properties below hold for every host parser.  To run the parser on
    the commits of the test suite, [Date_parse_iso] reads the UTC date-time
    strings of the GitHub API, [YYYY-MM-DDTHH:mm:ssZ], and yields an invalid
    date on anything else. *)

Definition digit (c : ascii) : option Z :=
  let n := nat_of_ascii c in
  if (48 <=? n)%nat && (n <=? 57)%nat then Some (Z.of_nat (n - 48)) else None.

(** Read exactly [n] decimal digits. *)
Fixpoint digits (n : nat) (acc : Z) (s : string) : option (Z * string) :=
  match n with
  | O => Some (acc, s)
  | S n' =>
      match s with
      | String c s' =>
          match digit c with
          | Some d => digits n' (10 * acc + d) s'
          | None => None
          end
      | EmptyString => None
      end
  end.

Definition expect (c : ascii) (s : string) : option string :=
  match s with
  | String d s' => if Ascii.eqb c d then Some s' else None
  | EmptyString => None
  end.

Definition isLeapYear (y : Z) : bool :=
  ((y mod 4 =? 0) && negb (y mod 100 =? 0) || (y mod 400 =? 0))%Z.

Definition daysInMonth (y m : Z) : Z :=
  (if m =? 2 then (if isLeapYear y then 29 else 28)
   else if (m =? 4) || (m =? 6) || (m =? 9) || (m =? 11) then 30
   else 31)%Z.

(** Days from 1970-01-01 to the given civil date. *)
Definition daysFromCivil (y m d : Z) : Z :=
  (let y' := if m <=? 2 then y - 1 else y in
   let era := y' / 400 in
   let yoe := y' - era * 400 in
   let doy := (153 * (if 2 <? m then m - 3 else m + 9) + 2) / 5 + d - 1 in
   let doe := yoe * 365 + yoe / 4 - yoe / 100 + doy in
   era * 146097 + doe - 719468)%Z.

Definition Date_parse_ms (s : string) : option Z :=
  match digits 4 0 s with
  | Some (y, s) =>
  match expect "-" s with
  | Some s =>
  match digits 2 0 s with
  | Some (mo, s) =>
  match expect "-" s with
  | Some s =>
  match digits 2 0 s with
  | Some (d, s) =>
  match expect "T" s with
  | Some s =>
  match digits 2 0 s with
  | Some (h, s) =>
  match expect ":" s with
  | Some s =>
  match digits 2 0 s with
  | Some (mi, s) =>
  match expect ":" s with
  | Some s =>
  match digits 2 0 s with
  | Some (sec, s) =>
      if (String.eqb s "Z" && (1 <=? mo) && (mo <=? 12) && (1 <=? d)
          && (d <=? daysInMonth y mo) && (h <=? 23) && (mi <=? 59)
          && (sec <=? 59))%Z
      then Some ((((daysFromCivil y mo d * 24 + h) * 60 + mi) * 60 + sec)
                 * 1000)%Z
      else None
  | None => None end
  | None => None end
  | None => None end
  | None => None end
  | None => None end
  | None => None end
  | None => None end
  | None => None end
  | None => None end
  | None => None end
  | None => None end.

Definition Date_parse_iso (s : string) : Date :=
  match Date_parse_ms s with
  | Some ms => Num (IZR ms)
  | None => NaN
  end.

(** ** Notions used to state the properties *)

(** The real number held by the own property [key] of [o]; 0 when [o] has
    no such property, or it holds [NaN]. *)
Definition val (o : JSRecord number) (key : string) : R :=
  match get o key with
  | Some (Num r) => r
  | _ => 0
  end.

(** No own key of the record is the name of a member of
    [Object.prototype]. *)
Definition plain {V : Type} (o : JSRecord V) : Prop :=
  Forall (fun key => inherited key = false) (Object_keys o).

(** Reading the [keys] from [o] never reaches [Object.prototype]. *)
Definition ownOrAbsent {V : Type} (o : JSRecord V) (keys : list string)
  : Prop :=
  forall key, In key keys -> get o key = None -> inherited key = false.

(** [cosineSimilarity a b] reads no member of [Object.prototype]: a key of
    one record that the other has not is not the name of such a member. *)
Definition ownReads (a b : JSRecord number) : Prop :=
  ownOrAbsent a (Object_keys b) /\ ownOrAbsent b (Object_keys a).

Definition ownReadsProfile (a b : ProfileSummary) : Prop :=
  ownReads (languages a) (languages b)
  /\ ownReads (commitTraits a) (commitTraits b).

Definition plainProfile (p : ProfileSummary) : Prop :=
  plain (languages p) /\ plain (commitTraits p).

Definition Rsum {A : Type} (f : A -> R) (l : list A) : R :=
  fold_right (fun x acc => f x + acc) 0 l.

(** The squared norm of [o] over the keys of [a] and [b]: the final value
    of [normA] (for [o = a]) or [normB] (for [o = b]) in
    [cosineSimilarity a b]. *)
Definition norm2 (o a b : JSRecord number) : R :=
  Rsum (fun k => val o k * val o k) (new_Set (Object_keys a ++ Object_keys b)).

Definition dot (a b : JSRecord number) : R :=
  Rsum (fun k => val a k * val b k) (new_Set (Object_keys a ++ Object_keys b)).

Definition isNum (x : number) : Prop :=
  match x with
  | Num _ => True
  | NaN => False
  end.

Definition nonneg (x : number) : Prop :=
  match x with
  | Num r => 0 <= r
  | NaN => False
  end.

Definition inUnit (x : number) : Prop :=
  match x with
  | Num r => 0 <= r <= 1
  | NaN => False
  end.

Definition values {V : Type} (o : JSRecord V) : list V := map snd o.

(** A well-formed profile: fractions are non-negative numbers, the activity
    score lies in [0,1], and a time-zone offset, when there is one, is a
    number of hours. *)
Record wellFormed (p : ProfileSummary) : Prop := {
  wf_languages : Forall nonneg (values (languages p));
  wf_commitTraits : Forall nonneg (values (commitTraits p));
  wf_activityScore : inUnit (activityScore p);
  wf_timezoneOffset :
    match timezoneOffset p with
    | Some off => isNum off
    | None => True
    end
}.

(** The language and trait values are numbers between 0 and 1. *)
Definition fractions (p : ProfileSummary) : Prop :=
  Forall inUnit (values (languages p))
  /\ Forall inUnit (values (commitTraits p)).

(** [x] has the key, named like a member of [Object.prototype], and [y] has
    not. *)
Definition strayKey (x y : JSRecord number) (key : string) : Prop :=
  inherited key = true /\ In key (Object_keys x) /\ get y key = None.

(** The trait vocabulary, in the order of [TRAIT_KEYWORDS]. *)
Definition traitNames : list string :=
  ["fixer"; "tests"; "docs"; "wip"; "chores"; "chaotic"]%string.

(** Does the commit match the pattern of the trait? *)
Definition matchesTrait (trait : string) (c : Commit) : bool :=
  match get TRAIT_KEYWORDS trait with
  | Some pattern => RegExp_test pattern (toLowerCase (message c))
  | None => false
  end.

(** The number of commits that match the trait. *)
Definition traitCount (trait : string) (commits : list Commit) : nat :=
  List.length (filter (matchesTrait trait) commits).

(** The keywords of each trait, spelled out as in the specification; the
    pattern [docs?] stands for the two words [doc] and [docs]. *)
Definition traitWords : JSRecord (list string) := [
  ("fixer", ["fix"; "bug"; "panic"; "crash"; "nullpointer"; "error";
             "bugfix"]);
  ("tests", ["test"; "spec"; "assert"; "integration test"; "unit test"]);
  ("docs", ["readme"; "doc"; "docs"; "comment"]);
  ("wip", ["wip"; "temp"; "prototype"; "draft"]);
  ("chores", ["chore"; "bump"; "deps"; "maintenance"]);
  ("chaotic", ["fuck"; "shit"; "finally"; "lol"; "omg"; "whew"; "screw"])
]%string.

(** [traitCounts] with the given six counts, and the contribution of one
    test to a count. *)
Definition counts6 (a1 a2 a3 a4 a5 a6 : R) : JSRecord number :=
  [("fixer"%string, Num a1); ("tests"%string, Num a2);
   ("docs"%string, Num a3); ("wip"%string, Num a4);
   ("chores"%string, Num a5); ("chaotic"%string, Num a6)].

Definition ind (b : bool) : R := if b then 1 else 0.

(** The real number held by a number ([NaN] counts as 0). *)
Definition toR (x : number) : R :=
  match x with
  | Num r => r
  | NaN => 0
  end.

(** The time value of a valid date. *)
Definition timeValue (d : Date) : R := toR (getTime d).

(** The sum of the values of a record. *)
Definition total (o : JSRecord number) : R := Rsum toR (values o).

(** Byte counts are non-negative numbers. *)
Definition wfBytes (repoLanguages : JSRecord (JSRecord number)) : Prop :=
  forall repo repoLangs,
    get repoLanguages repo = Some repoLangs ->
    Forall nonneg (values repoLangs).

(** The grand total of the specification: the bytes of all languages of all
    repositories that the commits touch. *)
Definition grandTotalBytes (commits : list Commit)
  (repoLanguages : JSRecord (JSRecord number)) : R :=
  Rsum
    (fun repo =>
       match get repoLanguages repo with
       | Some repoLangs => total repoLangs
       | None => 0
       end)
    (new_Set (map repo commits)).

(** The bytes of a language in one byte map, and in the byte maps of the
    repositories that the commits touch. *)
Definition bytesOf (lang : string) (repoLangs : JSRecord number) : R :=
  Rsum (fun '(l, bytes) => if String.eqb l lang then toR bytes else 0)
    repoLangs.

Definition langBytes (lang : string) (commits : list Commit)
  (repoLanguages : JSRecord (JSRecord number)) : R :=
  Rsum
    (fun repo =>
       match get repoLanguages repo with
       | Some repoLangs => bytesOf lang repoLangs
       | None => 0
       end)
    (new_Set (map repo commits)).

(** No language of a byte map is named like a member of
    [Object.prototype]. *)
Definition plainBytes (repoLanguages : JSRecord (JSRecord number)) : Prop :=
  forall repo repoLangs,
    get repoLanguages repo = Some repoLangs -> plain repoLangs.

(** A record of numbers, as a record of values. *)
Definition numbers (o : JSRecord number) : JSRecord Value :=
  map (fun '(key, n) => (key, Number n)) o.

(** What the aggregation loop maintains: [langTotals] has distinct keys and
    non-negative counts that add up to [grandTotal]. *)
Definition aggregated (langTotals : JSRecord number) (grandTotal : R) : Prop :=
  NoDup (Object_keys langTotals)
  /\ Forall nonneg (values langTotals)
  /\ total langTotals = grandTotal.

(** The weight of a commit made at time [t], seen from [now] (both in
    milliseconds): [exp(-age_in_days / 30)]. *)
Definition weight (now t : R) : R :=
  exp (- ((now - t) / (1000 * 60 * 60 * 24)) / 30).

(** How a call ends: with a value, or with a thrown error. *)
Inductive completion (A : Type) : Type :=
| Normal (value : A)
| Throw (error : string).
Arguments Normal {A} value.
Arguments Throw {A} error.

(** A call of [parseCommits].  The function has no [throw] statement and
    nothing it calls throws: [new Date(s)] yields an invalid date for a
    string it cannot read, and arithmetic on its [NaN] time value yields
    [NaN].  So every call completes normally, with the value computed by
    [parseCommits]. *)
Definition call_parseCommits (Date_parse : string -> Date)
  (Date_current : Date) (commits : list Commit)
  (repoLanguages : option (JSRecord (JSRecord number)))
  (reference : option Date) : completion ProfileSummary :=
  Normal (parseCommits Date_parse Date_current commits repoLanguages reference).

(** A record all of whose values are zero. *)
Definition zeroVector (o : JSRecord number) : Prop :=
  Forall (fun x => toR x = 0) (values o).

(** A record with an entry that is a number other than zero. *)
Definition nonzeroVector (o : JSRecord number) : Prop :=
  exists key r, get o key = Some (Num r) /\ r <> 0.

(** ** Inputs of the test suites *)

(** [matcher.test.ts], partial overlap. *)
Definition overlapA : ProfileSummary :=
  {| languages := [("TypeScript"%string, Num 0.7); ("Python"%string, Num 0.3)];
     commitTraits :=
       [("fixer"%string, Num 0.6); ("tests"%string, Num 0.4);
        ("docs"%string, Num 0); ("wip"%string, Num 0);
        ("chores"%string, Num 0); ("chaotic"%string, Num 0)];
     activityScore := Num 0.7;
     highlights := "fixer, tests";
     timezoneOffset := Some (Num 0) |}.

Definition overlapB : ProfileSummary :=
  {| languages := [("TypeScript"%string, Num 0.5); ("Go"%string, Num 0.5)];
     commitTraits :=
       [("fixer"%string, Num 0.4); ("docs"%string, Num 0.6);
        ("tests"%string, Num 0); ("wip"%string, Num 0);
        ("chores"%string, Num 0); ("chaotic"%string, Num 0)];
     activityScore := Num 0.5;
     highlights := "docs, fixer";
     timezoneOffset := Some (Num 3) |}.

(** [matcher.test.ts], large time-zone difference: the same profile at
    two offsets. *)
Definition fixerAt (offset : R) : ProfileSummary :=
  {| languages := [("TypeScript"%string, Num 1)];
     commitTraits := [("fixer"%string, Num 1)];
     activityScore := Num 0.5;
     highlights := "fixer";
     timezoneOffset := Some (Num offset) |}.

(** The empty profile, placed at an offset. *)
Definition emptyAt (offset : R) : ProfileSummary :=
  {| languages := []; commitTraits := []; activityScore := Num 0;
     highlights := ""; timezoneOffset := Some (Num offset) |}.

(** A profile with one language, whatever its name, and no trait. *)
Definition oneLanguage (lang : string) : ProfileSummary :=
  {| languages := [(lang, Num 1)]; commitTraits := [];
     activityScore := Num 0.5; highlights := ""; timezoneOffset := None |}.

Definition mkCommit (sha message repo date : string) : Commit :=
  {| sha := sha; message := message; repo := repo; date := date |}.

(** [parser.test.ts]: the reference date, 2024-01-15T12:00:00Z, and the
    commits of the trait, activity and language tests. *)
Definition referenceDate : Date := Num 1705320000000.

Definition traitCommits : list Commit := [
  mkCommit "a1" "fix: resolve null pointer bug" "test/repo"
    "2024-01-14T10:00:00Z";
  mkCommit "a2" "fix: crash on login" "test/repo" "2024-01-13T10:00:00Z";
  mkCommit "a3" "add unit test for parser" "test/repo"
    "2024-01-12T10:00:00Z";
  mkCommit "a4" "update README docs" "test/repo" "2024-01-11T10:00:00Z";
  mkCommit "a5" "chore: bump dependencies" "test/repo"
    "2024-01-10T10:00:00Z"
]%string.

Definition oldCommits : list Commit := [
  mkCommit "c1" "old commit 1" "test/repo" "2023-12-16T12:00:00Z";
  mkCommit "c2" "old commit 2" "test/repo" "2023-12-16T12:00:00Z";
  mkCommit "c3" "old commit 3" "test/repo" "2023-12-16T12:00:00Z";
  mkCommit "c4" "old commit 4" "test/repo" "2023-12-16T12:00:00Z";
  mkCommit "c5" "old commit 5" "test/repo" "2023-12-16T12:00:00Z"
]%string.

(** A commit whose date is not a date. *)
Definition badCommit : Commit :=
  mkCommit "x1" "fix: typo" "test/repo" "not-a-date".

(** One commit to a repository with one byte in each of three
    languages. *)
Definition thirdsCommits : list Commit :=
  [mkCommit "t1" "commit to repo" "user/repo" "2024-01-15T12:00:00Z"].

Definition thirdsLanguages : JSRecord (JSRecord number) :=
  [("user/repo"%string,
    [("TypeScript"%string, Num 1); ("JavaScript"%string, Num 1);
     ("Python"%string, Num 1)])].

(** ** Notions for the further properties *)

(** A number that has at most 4 decimals: a multiple of 1/10000.  [NaN] is
    let through. *)
Definition onGrid (x : number) : Prop :=
  match x with
  | Num r => exists k : Z, r = IZR k / 10000
  | NaN => True
  end.

(** Two records that have no key with a non-zero value in both. *)
Definition orthogonal (a b : JSRecord number) : Prop :=
  forall key, val a key = 0 \/ val b key = 0.

(** [matcher.test.ts], no overlap. *)
Definition docsProfile : ProfileSummary :=
  {| languages := [("JavaScript"%string, Num 1)];
     commitTraits :=
       [("docs"%string, Num 1); ("fixer"%string, Num 0);
        ("tests"%string, Num 0); ("wip"%string, Num 0);
        ("chores"%string, Num 0); ("chaotic"%string, Num 0)];
     activityScore := Num 0.9;
     highlights := "docs";
     timezoneOffset := None |}.

Definition fixerProfile : ProfileSummary :=
  {| languages := [("Rust"%string, Num 1)];
     commitTraits :=
       [("fixer"%string, Num 1); ("docs"%string, Num 0);
        ("tests"%string, Num 0); ("wip"%string, Num 0);
        ("chores"%string, Num 0); ("chaotic"%string, Num 0)];
     activityScore := Num 0.2;
     highlights := "fixer";
     timezoneOffset := None |}.

(** The local [traitEntries] of [parseCommits] (lines 121-126): the entries
    with a positive value, sorted. *)
Definition traitEntries (commitTraits : JSRecord number)
  : list (string * number) :=
  Array_sort compareTraits
    (filter (fun '(_, value) => (value > Num 0)%js)
       (Object_entries commitTraits)).

(** The order of the highlights: the larger value first, and the name that
    comes first in the alphabet when the values are equal. *)
Definition before (a b : string * number) : Prop :=
  toR (snd b) < toR (snd a)
  \/ (toR (snd a) = toR (snd b) /\ String.leb (fst a) (fst b) = true).

(** An entry with a positive value. *)
Definition positiveEntry (e : string * number) : Prop :=
  exists v, snd e = Num v /\ 0 < v.

(** The age of a commit made at time [t], in days, seen from [now]. *)
Definition ageDays (now t : R) : R := (now - t) / (1000 * 60 * 60 * 24).

(** [parser.test.ts]: five commits made at the reference date. *)
Definition freshCommits : list Commit := [
  mkCommit "b1" "commit 1" "test/repo" "2024-01-15T12:00:00Z";
  mkCommit "b2" "commit 2" "test/repo" "2024-01-15T12:00:00Z";
  mkCommit "b3" "commit 3" "test/repo" "2024-01-15T12:00:00Z";
  mkCommit "b4" "commit 4" "test/repo" "2024-01-15T12:00:00Z";
  mkCommit "b5" "commit 5" "test/repo" "2024-01-15T12:00:00Z"
]%string.

(** ** [ratelimit.ts]

    The rows of [prisma.user], by user id, with the columns that the rate
    limiter reads and writes; a date is given by its time value in
    milliseconds.  A call is modelled as one step on the table, taken at the
    clock reading [now]. *)

Record User : Type := {
  likesCount : Z;
  likesResetAt : Z;
  messagesCount : Z;
  messagesResetAt : Z
}.

Record RateLimitResult : Type := {
  allowed : bool;
  remaining : Z;
  resetAt : Z
}.

(** [RATE_LIMITS] of [types]. *)
Definition LIKES_PER_DAY : Z := 60.
Definition MESSAGES_PER_DAY : Z := 200.

Section ratelimit.

(** The host: [d.setHours(24, 0, 0, 0)] on a copy of [now], the next local
    midnight. *)
Variable nextMidnight : Z -> Z.

Definition checkLikeRateLimit (now : Z) (users : JSRecord User)
  (userId : string) : RateLimitResult * JSRecord User :=
  match get users userId with
  | None => ({| allowed := false; remaining := 0; resetAt := now |}, users)
  | Some user =>
      let resetAt := likesResetAt user in
      if (resetAt <? now)%Z then
        let newResetAt := nextMidnight now in
        ({| allowed := true; remaining := LIKES_PER_DAY - 1;
            resetAt := newResetAt |},
         set users userId
           {| likesCount := 1; likesResetAt := newResetAt;
              messagesCount := messagesCount user;
              messagesResetAt := messagesResetAt user |})
      else if (LIKES_PER_DAY <=? likesCount user)%Z then
        ({| allowed := false; remaining := 0; resetAt := resetAt |}, users)
      else
        ({| allowed := true;
            remaining := LIKES_PER_DAY - likesCount user - 1;
            resetAt := resetAt |},
         set users userId
           {| likesCount := likesCount user + 1;
              likesResetAt := likesResetAt user;
              messagesCount := messagesCount user;
              messagesResetAt := messagesResetAt user |})
  end.

Definition checkMessageRateLimit (now : Z) (users : JSRecord User)
  (userId : string) : RateLimitResult * JSRecord User :=
  match get users userId with
  | None => ({| allowed := false; remaining := 0; resetAt := now |}, users)
  | Some user =>
      let resetAt := messagesResetAt user in
      if (resetAt <? now)%Z then
        let newResetAt := nextMidnight now in
        ({| allowed := true; remaining := MESSAGES_PER_DAY - 1;
            resetAt := newResetAt |},
         set users userId
           {| likesCount := likesCount user;
              likesResetAt := likesResetAt user;
              messagesCount := 1; messagesResetAt := newResetAt |})
      else if (MESSAGES_PER_DAY <=? messagesCount user)%Z then
        ({| allowed := false; remaining := 0; resetAt := resetAt |}, users)
      else
        ({| allowed := true;
            remaining := MESSAGES_PER_DAY - messagesCount user - 1;
            resetAt := resetAt |},
         set users userId
           {| likesCount := likesCount user;
              likesResetAt := likesResetAt user;
              messagesCount := messagesCount user + 1;
              messagesResetAt := messagesResetAt user |})
  end.

(** Calls for one user at the given clock readings, one after the other:
    the answers, and the table in the end. *)
Fixpoint likeCalls (times : list Z) (users : JSRecord User) (userId : string)
  : list RateLimitResult * JSRecord User :=
  match times with
  | [] => ([], users)
  | now :: times' =>
      let '(r, users') := checkLikeRateLimit now users userId in
      let '(rs, users'') := likeCalls times' users' userId in
      (r :: rs, users'')
  end.

Fixpoint messageCalls (times : list Z) (users : JSRecord User)
  (userId : string) : list RateLimitResult * JSRecord User :=
  match times with
  | [] => ([], users)
  | now :: times' =>
      let '(r, users') := checkMessageRateLimit now users userId in
      let '(rs, users'') := messageCalls times' users' userId in
      (r :: rs, users'')
  end.

End ratelimit.

(** Midnight in UTC, for a host whose local time is UTC. *)
Definition nextMidnightUTC (now : Z) : Z :=
  ((now / 86400000 + 1) * 86400000)%Z.

(** How many of the answers allow the action. *)
Definition allowedCount (rs : list RateLimitResult) : Z :=
  Z.of_nat (List.length (filter allowed rs)).

(** A user table for the examples: Alice has used 58 of her likes and 200
    of her messages for the day that ends at 2024-01-16T00:00:00Z. *)
Definition exampleUsers : JSRecord User :=
  [("alice"%string,
    {| likesCount := 58; likesResetAt := 1705363200000;
       messagesCount := 200; messagesResetAt := 1705363200000 |})].

(** ** [isSpamMessage]

    The pattern [/(http|https):\/\/\S+/] has no [i] flag, so it is matched
    letter for letter.  [\S] is taken on bytes: every byte but the ASCII
    white space (tab, line feed, vertical tab, form feed, carriage return
    and space). *)

Inductive Pattern : Type :=
| PLit (s : string)
| PAlt (p q : Pattern)
| PCat (p q : Pattern)
| PNonSpaces.

Definition isSpace (c : ascii) : bool :=
  let n := nat_of_ascii c in
  ((9 <=? n)%nat && (n <=? 13)%nat) || (n =? 32)%nat.

Fixpoint strip (p s : string) : option string :=
  match p, s with
  | EmptyString, _ => Some s
  | String c p', String d s' => if Ascii.eqb c d then strip p' s' else None
  | String _ _, EmptyString => None
  end.

(** [\S+] at the start of [s]: what is left behind one, two, ... characters
    that are not white space. *)
Fixpoint nonSpaces (s : string) : list string :=
  match s with
  | EmptyString => []
  | String c s' => if isSpace c then [] else s' :: nonSpaces s'
  end.

Fixpoint pmatch_here (p : Pattern) (s : string) : list string :=
  match p with
  | PLit k => match strip k s with Some rest => [rest] | None => [] end
  | PAlt p1 p2 => pmatch_here p1 s ++ pmatch_here p2 s
  | PCat p1 p2 => flat_map (pmatch_here p2) (pmatch_here p1 s)
  | PNonSpaces => nonSpaces s
  end.

Definition pmatches_here (p : Pattern) (s : string) : bool :=
  match pmatch_here p s with
  | [] => false
  | _ :: _ => true
  end.

Fixpoint Pattern_test (pattern : Pattern) (s : string) : bool :=
  match s with
  | EmptyString => pmatches_here pattern s
  | String _ s' => pmatches_here pattern s || Pattern_test pattern s'
  end.

Definition spamPattern : Pattern :=
  PCat (PCat (PAlt (PLit "http") (PLit "https")) (PLit "://")) PNonSpaces.

Definition isSpamMessage (body : string) : bool :=
  Pattern_test spamPattern body.

(** ** [discover.ts]: scoring the candidates

    The handler reads the caller's profile and the candidate profiles from
    the database, scores each candidate, and answers with the sorted list.
    The database reads are inputs of the model: the candidates as a list in
    the order of the query ([userId] ascending), and [findLastCommit] for
    the query that gets a user's latest commit message. *)

Definition lt (x y : number) : bool := gt y x.

Definition ge (x y : number) : bool :=
  match x, y with
  | Num a, Num b => if Rle_dec b a then true else false
  | _, _ => false
  end.

Infix "<" := lt : js_scope.
Infix ">=" := ge : js_scope.

(** [s.slice(0, n)], on bytes. *)
Definition slice0 (n : nat) (s : string) : string := substring 0 n s.

(** A profile row with its user, as [findMany] returns it. *)
Record Profile : Type := {
  profile_userId : string;
  profile_languages : JSRecord number;
  profile_commitTraits : JSRecord number;
  profile_activityScore : number;
  profile_highlights : string;
  user_id : string;
  user_username : string;
  user_avatar : option string
}.

Record CandidateProfile : Type := {
  candidate_userId : string;
  candidate_username : string;
  candidate_avatar : option string;
  candidate_score : number;
  candidate_highlights : string;
  candidate_commitTraits : JSRecord number;
  candidate_languages : JSRecord number;
  lastCommitSnippet : option string
}.

(** The summary built from a row: it has no [timezoneOffset]. *)
Definition summaryOf (p : Profile) : ProfileSummary :=
  {| languages := profile_languages p;
     commitTraits := profile_commitTraits p;
     activityScore := profile_activityScore p;
     highlights := profile_highlights p;
     timezoneOffset := None |}.

(** [score_min !== undefined && score < score_min] *)
Definition belowMinimum (score_min : option number) (score : number) : bool :=
  match score_min with
  | Some m => (score < m)%js
  | None => false
  end.

Section discover.

Variable findLastCommit : string -> option string.

Definition candidateResult (candidate : Profile) (score : number)
  : CandidateProfile :=
  let lastCommit := findLastCommit (profile_userId candidate) in
  {| candidate_userId := user_id candidate;
     candidate_username := user_username candidate;
     candidate_avatar := user_avatar candidate;
     candidate_score := score;
     candidate_highlights := profile_highlights candidate;
     candidate_commitTraits := profile_commitTraits candidate;
     candidate_languages := profile_languages candidate;
     lastCommitSnippet := option_map (slice0 100) lastCommit |}.

(** The [for] loop over the candidates, [results] being the array it
    pushes to. *)
Fixpoint scoreCandidates (currentProfileSummary : ProfileSummary)
  (score_min : option number) (limit : number) (candidates : list Profile)
  (results : list CandidateProfile) : list CandidateProfile :=
  match candidates with
  | [] => results
  | candidate :: rest =>
      if (Num (INR (List.length results)) >= limit)%js then results
      else
        let candidateSummary := summaryOf candidate in
        let score :=
          computeCompatibility currentProfileSummary candidateSummary in
        if belowMinimum score_min score
        then scoreCandidates currentProfileSummary score_min limit rest
               results
        else scoreCandidates currentProfileSummary score_min limit rest
               (results ++ [candidateResult candidate score])
  end.

Definition discover (currentProfile : Profile) (score_min : option number)
  (limit : number) (candidates : list Profile) : list CandidateProfile :=
  let currentProfileSummary := summaryOf currentProfile in
  let results :=
    scoreCandidates currentProfileSummary score_min limit candidates [] in
  Array_sort
    (fun a b => (candidate_score b - candidate_score a)%js) results.

End discover.

(** Rows for the examples. *)
Definition profileRow (userId : string) (p : ProfileSummary) : Profile :=
  {| profile_userId := userId;
     profile_languages := languages p;
     profile_commitTraits := commitTraits p;
     profile_activityScore := activityScore p;
     profile_highlights := highlights p;
     user_id := userId;
     user_username := userId;
     user_avatar := None |}.

Definition exampleCandidates : list Profile :=
  [profileRow "bob" overlapB; profileRow "carol" overlapA;
   profileRow "dave" overlapB].

(** ** The like and message endpoints

    The handlers of [POST /api/like], [POST /api/message] and
    [GET /api/messages/:matchId], from the point where the session and the
    request body have been checked.  The tables of the database are lists in
    the order of creation; an id that the database generates for a new row
    is an input of the handler.  A handler runs from start to end before the
    next one starts: interleavings of concurrent requests are outside the
    model. *)

Record Like : Type := {
  like_fromUser : string;
  like_toUser : string
}.

Record Match : Type := {
  match_id : string;
  userA : string;
  userB : string;
  match_score : number
}.

Record Message : Type := {
  message_id : string;
  message_matchId : string;
  message_fromUser : string;
  message_body : string
}.

Record Database : Type := {
  users : JSRecord User;
  profiles : list Profile;
  likes : list Like;
  matches : list Match;
  messages : list Message
}.

Inductive Response : Type :=
| ErrorResponse (status : Z) (error : string)
| RateLimitExceeded (remaining : Z) (resetAt : Z)
| LikeOk (newMatch : option Match)
| MessageOk (messageId : string)
| MessagesOk (conversation : list Message).

Definition withUsers (db : Database) (us : JSRecord User) : Database :=
  {| users := us; profiles := profiles db; likes := likes db;
     matches := matches db; messages := messages db |}.

Definition createLike (db : Database) (l : Like) : Database :=
  {| users := users db; profiles := profiles db; likes := likes db ++ [l];
     matches := matches db; messages := messages db |}.

Definition createMatch (db : Database) (m : Match) : Database :=
  {| users := users db; profiles := profiles db; likes := likes db;
     matches := matches db ++ [m]; messages := messages db |}.

Definition createMessage (db : Database) (m : Message) : Database :=
  {| users := users db; profiles := profiles db; likes := likes db;
     matches := matches db; messages := messages db ++ [m] |}.

Definition isLike (fromUser toUser : string) (l : Like) : bool :=
  String.eqb (like_fromUser l) fromUser && String.eqb (like_toUser l) toUser.

Definition findLike (db : Database) (fromUser toUser : string)
  : option Like :=
  find (isLike fromUser toUser) (likes db).

Definition findProfile (db : Database) (userId : string) : option Profile :=
  find (fun p => String.eqb (profile_userId p) userId) (profiles db).

Definition findMatch (db : Database) (matchId : string) : option Match :=
  find (fun m => String.eqb (match_id m) matchId) (matches db).

Section api.

Variable nextMidnight : Z -> Z.

Definition likeHandler (now : Z) (newId : string) (db : Database)
  (fromUserId toUserId : string) : Response * Database :=
  if String.eqb toUserId fromUserId
  then (ErrorResponse 400 "Cannot like yourself", db)
  else
    let '(rateLimit, users1) :=
      checkLikeRateLimit nextMidnight now (users db) fromUserId in
    let db := withUsers db users1 in
    if negb (allowed rateLimit)
    then (RateLimitExceeded (remaining rateLimit) (resetAt rateLimit), db)
    else
      match get (users db) toUserId with
      | None => (ErrorResponse 404 "User not found", db)
      | Some targetUser =>
          match findLike db fromUserId toUserId with
          | Some existingLike =>
              (ErrorResponse 400 "Already liked this user", db)
          | None =>
              let db :=
                createLike db {| like_fromUser := fromUserId;
                                 like_toUser := toUserId |} in
              match findLike db toUserId fromUserId with
              | Some mutualLike =>
                  let score :=
                    match findProfile db fromUserId,
                          findProfile db toUserId with
                    | Some profileA, Some profileB =>
                        computeCompatibility (summaryOf profileA)
                          (summaryOf profileB)
                    | _, _ => Num 0.5
                    end in
                  let pair :=
                    if String.ltb fromUserId toUserId
                    then (fromUserId, toUserId)
                    else (toUserId, fromUserId) in
                  let newMatch :=
                    {| match_id := newId; userA := fst pair;
                       userB := snd pair; match_score := score |} in
                  (LikeOk (Some newMatch), createMatch db newMatch)
              | None => (LikeOk None, db)
              end
          end
      end.

Definition messageHandler (now : Z) (newId : string) (db : Database)
  (fromUserId matchId body : string) : Response * Database :=
  if isSpamMessage body
  then (ErrorResponse 400 "Links are not allowed in messages", db)
  else
    let '(rateLimit, users1) :=
      checkMessageRateLimit nextMidnight now (users db) fromUserId in
    let db := withUsers db users1 in
    if negb (allowed rateLimit)
    then (RateLimitExceeded (remaining rateLimit) (resetAt rateLimit), db)
    else
      match findMatch db matchId with
      | None => (ErrorResponse 404 "Match not found", db)
      | Some m =>
          if negb (String.eqb (userA m) fromUserId)
             && negb (String.eqb (userB m) fromUserId)
          then (ErrorResponse 403 "Not authorized to message in this match",
                db)
          else
            let message :=
              {| message_id := newId; message_matchId := matchId;
                 message_fromUser := fromUserId; message_body := body |} in
            (MessageOk (message_id message), createMessage db message)
      end.

Definition messagesHandler (db : Database) (currentUserId matchId : string)
  : Response :=
  match findMatch db matchId with
  | None => ErrorResponse 404 "Match not found"
  | Some m =>
      if negb (String.eqb (userA m) currentUserId)
         && negb (String.eqb (userB m) currentUserId)
      then ErrorResponse 403 "Not authorized to view these messages"
      else
        MessagesOk
          (filter (fun msg => String.eqb (message_matchId msg) matchId)
             (messages db))
  end.

(** A request that changes the database, with the time at which it is
    served and the id for the row it may create. *)
Inductive Request : Type :=
| PostLike (now : Z) (newId fromUserId toUserId : string)
| PostMessage (now : Z) (newId fromUserId matchId body : string).

Definition handle (db : Database) (request : Request)
  : Response * Database :=
  match request with
  | PostLike now newId fromUserId toUserId =>
      likeHandler now newId db fromUserId toUserId
  | PostMessage now newId fromUserId matchId body =>
      messageHandler now newId db fromUserId matchId body
  end.

(** The database after a sequence of requests. *)
Definition serve (db : Database) (requests : list Request) : Database :=
  fold_left (fun db request => snd (handle db request)) requests db.

End api.

(** A database with accounts and profiles, before any like. *)
Definition freshDatabase (us : JSRecord User) (ps : list Profile)
  : Database :=
  {| users := us; profiles := ps; likes := []; matches := [];
     messages := [] |}.

(** What holds of the tables after any sequence of requests. *)
Record consistent (db : Database) : Prop := {
  likes_not_self :
    forall l, In l (likes db) -> like_fromUser l <> like_toUser l;
  likes_once : NoDup (likes db);
  matches_mutual :
    forall m, In m (matches db) ->
      String.ltb (userA m) (userB m) = true
      /\ In {| like_fromUser := userA m; like_toUser := userB m |} (likes db)
      /\ In {| like_fromUser := userB m; like_toUser := userA m |} (likes db);
  mutual_matched :
    forall a b,
      In {| like_fromUser := a; like_toUser := b |} (likes db) ->
      In {| like_fromUser := b; like_toUser := a |} (likes db) ->
      exists m, In m (matches db)
                /\ ((userA m = a /\ userB m = b)
                    \/ (userA m = b /\ userB m = a));
  matches_once : NoDup (map (fun m => (userA m, userB m)) (matches db));
  messages_clean :
    forall msg, In msg (messages db) ->
      isSpamMessage (message_body msg) = false
      /\ exists m, findMatch db (message_matchId msg) = Some m
                   /\ (userA m = message_fromUser msg
                       \/ userB m = message_fromUser msg)
}.

Definition twoUsers : JSRecord User :=
  [("alice"%string,
    {| likesCount := 58; likesResetAt := 1705363200000;
       messagesCount := 0; messagesResetAt := 1705363200000 |});
   ("bob"%string,
    {| likesCount := 0; likesResetAt := 0;
       messagesCount := 0; messagesResetAt := 0 |})].

Definition twoProfiles : list Profile :=
  [profileRow "alice" overlapA; profileRow "bob" overlapB].

(** * Properties *)

(** ** Numbers and rounding *)

Lemma ten4_neq_0 : 10000 <> 0.
Proof. lra. Qed.

Lemma div_Num (a b : R) : b <> 0 -> (Num a / Num b)%js = Num (a / b).
Proof.
  intros Hb. unfold div. destruct (Req_dec_T b 0); [contradiction|reflexivity].
Qed.

Lemma round4_Num (r : R) :
  round4 (Num r) = Num (IZR (Zfloor (r * 10000 + / 2)) / 10000).
Proof.
  unfold round4. cbn [mul lift2 Math_round lift1]. apply div_Num, ten4_neq_0.
Qed.

(** [round4] picks the multiple of 1/10000 nearest to its argument. *)
Lemma round4_near (k : Z) (r : R) :
  IZR k - / 2 <= r * 10000 < IZR k + / 2 ->
  round4 (Num r) = Num (IZR k / 10000).
Proof.
  intros H. rewrite round4_Num. do 2 f_equal. f_equal.
  apply Zfloor_eq. lra.
Qed.

Lemma round4_error (r : R) :
  exists q, round4 (Num r) = Num q /\ Rabs (q - r) <= / 20000.
Proof.
  rewrite round4_Num. eexists. split; [reflexivity|].
  pose proof (Zfloor_bound (r * 10000 + / 2)) as [Hl Hu].
  apply Rabs_le. lra.
Qed.

Lemma round4_unit (r : R) :
  0 <= r <= 1 -> inUnit (round4 (Num r)).
Proof.
  intros [H0 H1]. rewrite round4_Num. cbn.
  assert (Hlo : (0 <= Zfloor (r * 10000 + / 2))%Z)
    by (apply Zfloor_lub; cbn; lra).
  assert (Hhi : (Zfloor (r * 10000 + / 2) <= 10000)%Z).
  { apply Z.lt_succ_r, lt_IZR.
    pose proof (Zfloor_bound (r * 10000 + / 2)) as [Hl _].
    eapply Rle_lt_trans; [exact Hl|]. rewrite succ_IZR. lra. }
  apply IZR_le in Hlo, Hhi. lra.
Qed.

Lemma gt_Num_true (a b : R) : b < a -> (Num a > Num b)%js = true.
Proof. intros H. cbn. destruct (Rlt_dec b a); [reflexivity|contradiction]. Qed.

Lemma gt_Num_false (a b : R) : a <= b -> (Num a > Num b)%js = false.
Proof. intros H. cbn. destruct (Rlt_dec b a); [lra|reflexivity]. Qed.

Lemma strict_eq_Num_true (a b : R) : a = b -> (Num a === Num b)%js = true.
Proof.
  intros H. cbn. destruct (Req_dec_T a b); [reflexivity|contradiction].
Qed.

Lemma strict_eq_Num_false (a b : R) : a <> b -> (Num a === Num b)%js = false.
Proof.
  intros H. cbn. destruct (Req_dec_T a b); [contradiction|reflexivity].
Qed.

(** ** Sets of keys and sums over them *)

Lemma mem_In (x : string) (l : list string) : mem x l = true <-> In x l.
Proof.
  unfold mem. rewrite existsb_exists. split.
  - intros [y [Hy Heq]]. apply String.eqb_eq in Heq. now subst.
  - intros H. exists x. split; [assumption|apply String.eqb_refl].
Qed.

Lemma Set_add_spec (l acc : list string) :
  NoDup acc ->
  NoDup (fold_left (fun s x => if mem x s then s else s ++ [x]) l acc)
  /\ forall x,
      In x (fold_left (fun s x => if mem x s then s else s ++ [x]) l acc)
      <-> In x acc \/ In x l.
Proof.
  revert acc. induction l as [|y l IH]; intros acc Hnd; cbn [fold_left].
  - split; [assumption|]. intros x. cbn. tauto.
  - destruct (mem y acc) eqn:Hy.
    + destruct (IH acc Hnd) as [H1 H2]. split; [assumption|].
      intros x. rewrite H2. apply mem_In in Hy. cbn.
      split; [tauto|]. intros [H|[H|H]]; subst; tauto.
    + assert (Hnin : ~ In y acc).
      { intros H. apply mem_In in H. congruence. }
      assert (Hnd' : NoDup (acc ++ [y])).
      { apply NoDup_app; [assumption|repeat constructor; cbn; tauto|].
        intros z Hz [Hz'|[]]. subst. contradiction. }
      destruct (IH _ Hnd') as [H1 H2]. split; [assumption|].
      intros x. rewrite H2, in_app_iff. cbn. tauto.
Qed.

Lemma new_Set_NoDup (l : list string) : NoDup (new_Set l).
Proof. apply (Set_add_spec l []). constructor. Qed.

Lemma new_Set_In (l : list string) (x : string) : In x (new_Set l) <-> In x l.
Proof.
  destruct (Set_add_spec l [] (NoDup_nil _)) as [_ H].
  unfold new_Set. rewrite H. cbn. tauto.
Qed.

Lemma new_Set_app_comm (l1 l2 : list string) :
  Permutation (new_Set (l1 ++ l2)) (new_Set (l2 ++ l1)).
Proof.
  apply NoDup_Permutation; try apply new_Set_NoDup.
  intros x. rewrite !new_Set_In, !in_app_iff. tauto.
Qed.

Lemma Rsum_cons {A : Type} (f : A -> R) (x : A) (l : list A) :
  Rsum f (x :: l) = f x + Rsum f l.
Proof. reflexivity. Qed.

Lemma Rsum_perm {A : Type} (f : A -> R) (l l' : list A) :
  Permutation l l' -> Rsum f l = Rsum f l'.
Proof.
  induction 1; cbn; try lra.
  unfold Rsum in *. congruence.
Qed.

Lemma Rsum_ext {A : Type} (f g : A -> R) (l : list A) :
  (forall x, f x = g x) -> Rsum f l = Rsum g l.
Proof.
  intros H. induction l as [|x l IH]; cbn; [reflexivity|].
  rewrite H. unfold Rsum in IH. now rewrite IH.
Qed.

Lemma Rsum_nonneg {A : Type} (f : A -> R) (l : list A) :
  (forall x, 0 <= f x) -> 0 <= Rsum f l.
Proof.
  intros H. induction l as [|x l IH]; cbn; [lra|].
  specialize (H x). unfold Rsum in IH. lra.
Qed.

Lemma Rsum_zero {A : Type} (f : A -> R) (l : list A) :
  (forall x, In x l -> f x = 0) -> Rsum f l = 0.
Proof.
  induction l as [|x l IH]; intros H; cbn; [reflexivity|].
  rewrite (H x) by now left. unfold Rsum in IH. rewrite IH; [lra|].
  intros y Hy. apply H. now right.
Qed.

(** Cauchy-Schwarz for finite sums. *)
Lemma Rsum_Cauchy_Schwarz {A : Type} (f g : A -> R) (l : list A) :
  Rsum (fun x => f x * g x) l * Rsum (fun x => f x * g x) l
  <= Rsum (fun x => f x * f x) l * Rsum (fun x => g x * g x) l.
Proof.
  induction l as [|x l IH]; cbn; [lra|].
  fold (Rsum (fun x => f x * g x) l) (Rsum (fun x => f x * f x) l)
       (Rsum (fun x => g x * g x) l).
  set (d := Rsum (fun x => f x * g x) l) in *.
  set (p := Rsum (fun x => f x * f x) l) in *.
  set (q := Rsum (fun x => g x * g x) l) in *.
  assert (Hp : 0 <= p) by (apply Rsum_nonneg; intros; nra).
  assert (Hq : 0 <= q) by (apply Rsum_nonneg; intros; nra).
  set (u := f x). set (v := g x).
  (* 2 d u v <= p v^2 + q u^2 *)
  assert (Hmix : 2 * d * (u * v) <= p * (v * v) + q * (u * u)).
  { destruct (Rle_dec (2 * d * (u * v)) 0) as [Hneg|Hpos].
    - nra.
    - apply Rnot_le_lt in Hpos.
      assert (Hr : 0 <= p * (v * v) + q * (u * u)) by nra.
      apply Rsqr_incr_0_var; [|assumption].
      unfold Rsqr.
      assert (Huv : 0 <= u * u * (v * v))
        by (apply Rmult_le_pos; apply Rle_0_sqr).
      assert (4 * (d * d) * (u * u * (v * v))
              <= 4 * (p * q) * (u * u * (v * v)))
        by (apply Rmult_le_compat_r; [assumption|lra]).
      pose proof (Rle_0_sqr (p * (v * v) - q * (u * u))) as Hsq.
      unfold Rsqr in Hsq. lra. }
  nra.
Qed.

(** ** [cosineSimilarity] *)

Lemma or_else_val (o : JSRecord number) (key : string) :
  (get o key = None -> inherited key = false) ->
  ToNumber (or_else (member Number o key) (Num 0)) = Num (val o key).
Proof.
  unfold val, member. destruct (get o key) as [[|r]|]; cbn.
  - reflexivity.
  - intros _. destruct (Req_dec_T r 0); [now subst|reflexivity].
  - intros H. now rewrite H.
Qed.

(** A key that [o] does not own and [Object.prototype] has: [o[key] || 0]
    is the inherited member, and converts to [NaN]. *)
Lemma or_else_inherited (o : JSRecord number) (key : string) :
  get o key = None -> inherited key = true ->
  ToNumber (or_else (member Number o key) (Num 0)) = NaN.
Proof. unfold member. now intros -> ->. Qed.

Lemma val_get (o : JSRecord number) (key : string) :
  val o key = match get o key with Some x => toR x | None => 0 end.
Proof. unfold val. now destruct (get o key) as [[|r]|]. Qed.

Lemma get_In_values {V : Type} (o : JSRecord V) (key : string) (v : V) :
  get o key = Some v -> In v (values o).
Proof.
  induction o as [|[k w] o IH]; cbn; [discriminate|].
  destruct (String.eqb k key).
  - intros [= ->]. now left.
  - intros H. right. now apply IH.
Qed.

Lemma get_None_keys {V : Type} (o : JSRecord V) (key : string) :
  get o key = None <-> ~ In key (Object_keys o).
Proof.
  induction o as [|[k w] o IH]; cbn; [tauto|].
  destruct (String.eqb k key) eqn:E.
  - apply String.eqb_eq in E. split; [discriminate|tauto].
  - apply String.eqb_neq in E. rewrite IH. tauto.
Qed.

Lemma val_nonneg (o : JSRecord number) (key : string) :
  Forall nonneg (values o) -> 0 <= val o key.
Proof.
  intros H. unfold val. destruct (get o key) as [v|] eqn:E; cbn; [|lra].
  apply get_In_values in E. rewrite Forall_forall in H. specialize (H v E).
  destruct v as [|r]; cbn in *; lra.
Qed.

(** ** Own and inherited keys *)

Lemma ownOrAbsent_own {V : Type} (o : JSRecord V) :
  ownOrAbsent o (Object_keys o).
Proof. intros key Hin Hnone. apply get_None_keys in Hnone. contradiction. Qed.

Lemma ownOrAbsent_plain {V W : Type} (o : JSRecord V) (o' : JSRecord W) :
  plain o' -> ownOrAbsent o (Object_keys o').
Proof.
  intros Hp key Hin _. unfold plain in Hp. rewrite Forall_forall in Hp.
  now apply Hp.
Qed.

Lemma ownOrAbsent_app {V : Type} (o : JSRecord V) (l1 l2 : list string) :
  ownOrAbsent o l1 -> ownOrAbsent o l2 -> ownOrAbsent o (l1 ++ l2).
Proof.
  intros H1 H2 key Hin. apply in_app_iff in Hin as [Hin|Hin];
    [now apply H1|now apply H2].
Qed.

Lemma ownReads_allKeys (a b : JSRecord number) :
  ownReads a b ->
  ownOrAbsent a (new_Set (Object_keys a ++ Object_keys b))
  /\ ownOrAbsent b (new_Set (Object_keys a ++ Object_keys b)).
Proof.
  intros [Ha Hb].
  split; intros key Hin Hnone; apply new_Set_In, in_app_iff in Hin;
    destruct Hin as [Hin|Hin];
    solve [ now apply Ha | now apply Hb
          | apply get_None_keys in Hnone; contradiction ].
Qed.

Lemma ownReads_plain (a b : JSRecord number) :
  plain a -> plain b -> ownReads a b.
Proof. intros Ha Hb. split; now apply ownOrAbsent_plain. Qed.

Lemma ownReads_self (a : JSRecord number) : ownReads a a.
Proof. split; apply ownOrAbsent_own. Qed.

Lemma ownReads_same_keys (a b : JSRecord number) :
  Object_keys a = Object_keys b -> ownReads a b.
Proof.
  intros H. split; [rewrite <- H|rewrite H]; apply ownOrAbsent_own.
Qed.

(** ** [cosineSimilarity] *)

(** The loop of [cosineSimilarity] computes the three sums, as long as no
    key is read from [Object.prototype]. *)
Lemma cosine_loop (a b : JSRecord number) (keys : list string) (d p q : R) :
  ownOrAbsent a keys -> ownOrAbsent b keys ->
  fold_left
    (fun '(dotProduct, normA, normB) key =>
       let valA := ToNumber (or_else (member Number a key) (Num 0)) in
       let valB := ToNumber (or_else (member Number b key) (Num 0)) in
       (dotProduct + valA * valB, normA + valA * valA,
        normB + valB * valB)%js)
    keys (Num d, Num p, Num q)
  = (Num (d + Rsum (fun k => val a k * val b k) keys),
     Num (p + Rsum (fun k => val a k * val a k) keys),
     Num (q + Rsum (fun k => val b k * val b k) keys)).
Proof.
  revert d p q. induction keys as [|k keys IH]; intros d p q Ha Hb;
    cbn [fold_left].
  - cbn. now rewrite !Rplus_0_r.
  - cbv zeta.
    rewrite (or_else_val a k) by (apply Ha; now left).
    rewrite (or_else_val b k) by (apply Hb; now left).
    cbn [mul add lift2]. rewrite IH.
    + rewrite !Rsum_cons, !Rplus_assoc. reflexivity.
    + intros key Hin. apply Ha. now right.
    + intros key Hin. apply Hb. now right.
Qed.

Lemma norm2_nonneg (o a b : JSRecord number) : 0 <= norm2 o a b.
Proof. apply Rsum_nonneg. intros k. apply Rle_0_sqr. Qed.

(** [cosineSimilarity] in terms of the sums, when no key is read from
    [Object.prototype]: not [NaN]. *)
Lemma cosineSimilarity_eq (a b : JSRecord number) :
  ownReads a b ->
  cosineSimilarity a b =
  if Req_dec_T (sqrt (norm2 a a b) * sqrt (norm2 b a b)) 0 then Num 0
  else Num (dot a b / (sqrt (norm2 a a b) * sqrt (norm2 b a b))).
Proof.
  intros Hr. destruct (ownReads_allKeys a b Hr) as [Hka Hkb].
  unfold cosineSimilarity. cbv zeta. rewrite cosine_loop by assumption.
  rewrite !Rplus_0_l. fold (dot a b) (norm2 a a b) (norm2 b a b).
  pose proof (norm2_nonneg a a b) as Ha.
  pose proof (norm2_nonneg b a b) as Hb.
  cbn [Math_sqrt].
  destruct (Rlt_dec (norm2 a a b) 0); [lra|].
  destruct (Rlt_dec (norm2 b a b) 0); [lra|].
  cbn [mul lift2 strict_eq].
  destruct (Req_dec_T (sqrt (norm2 a a b) * sqrt (norm2 b a b)) 0) as [E|E].
  - reflexivity.
  - unfold div. destruct (Req_dec_T _ 0); [contradiction|reflexivity].
Qed.

(** Once [NaN], the three sums stay [NaN]. *)
Lemma cosine_loop_NaN (a b : JSRecord number) (keys : list string)
  (d p q : number) :
  let sums :=
    fold_left
      (fun '(dotProduct, normA, normB) key =>
         let valA := ToNumber (or_else (member Number a key) (Num 0)) in
         let valB := ToNumber (or_else (member Number b key) (Num 0)) in
         (dotProduct + valA * valB, normA + valA * valA,
          normB + valB * valB)%js)
      keys (d, p, q) in
  (d = NaN -> fst (fst sums) = NaN)
  /\ (p = NaN -> snd (fst sums) = NaN)
  /\ (q = NaN -> snd sums = NaN).
Proof.
  revert d p q. induction keys as [|k keys IH]; intros d p q;
    cbn [fold_left]; [now cbn|].
  cbv zeta. repeat split; intros ->; apply IH; reflexivity.
Qed.

(** A key read from [Object.prototype] makes the dot product [NaN], and
    the squared norm of the record that lacks the key. *)
Lemma cosine_loop_inherited (a b : JSRecord number) (keys : list string)
  (d p q : number) (key : string) :
  In key keys -> inherited key = true ->
  let sums :=
    fold_left
      (fun '(dotProduct, normA, normB) key =>
         let valA := ToNumber (or_else (member Number a key) (Num 0)) in
         let valB := ToNumber (or_else (member Number b key) (Num 0)) in
         (dotProduct + valA * valB, normA + valA * valA,
          normB + valB * valB)%js)
      keys (d, p, q) in
  (get a key = None -> fst (fst sums) = NaN /\ snd (fst sums) = NaN)
  /\ (get b key = None -> fst (fst sums) = NaN /\ snd sums = NaN).
Proof.
  intros Hin Hinh. revert d p q.
  induction keys as [|k keys IH]; intros d p q; [contradiction|].
  cbn [fold_left]. cbv zeta. destruct Hin as [->|Hin]; [|now apply IH].
  split; intros Hnone; rewrite (or_else_inherited _ key Hnone Hinh);
    cbn [mul lift2 add]; split; apply cosine_loop_NaN;
    repeat match goal with
           | |- context [add ?x ?y] => destruct x; cbn [add lift2]
           | |- context [ToNumber ?x] => destruct (ToNumber x); cbn [lift2]
           end; reflexivity.
Qed.

(** [cosineSimilarity] is [NaN] as soon as one of the two records has a key,
    named like a member of [Object.prototype], that the other has not. *)
Lemma cosineSimilarity_inherited (a b : JSRecord number) (key : string) :
  In key (Object_keys a ++ Object_keys b) ->
  (get a key = None \/ get b key = None) -> inherited key = true ->
  cosineSimilarity a b = NaN.
Proof.
  intros Hin Hnone Hinh. unfold cosineSimilarity. cbv zeta.
  apply new_Set_In in Hin.
  destruct (cosine_loop_inherited a b _ (Num 0) (Num 0) (Num 0) key Hin Hinh)
    as [Ha Hb].
  destruct (fold_left _ _ _) as [[dotProduct normA] normB].
  cbn [fst snd] in Ha, Hb.
  destruct Hnone as [Hnone|Hnone];
    [destruct (Ha Hnone) as [-> ->]|destruct (Hb Hnone) as [-> ->]];
    cbn [Math_sqrt mul lift2]; [reflexivity|].
  now destruct (Math_sqrt normA).
Qed.

Lemma dot_sym (a b : JSRecord number) : dot a b = dot b a.
Proof.
  unfold dot. rewrite (Rsum_perm _ _ _ (new_Set_app_comm _ _)).
  apply Rsum_ext. intros k. apply Rmult_comm.
Qed.

Lemma norm2_swap (o a b : JSRecord number) : norm2 o a b = norm2 o b a.
Proof. unfold norm2. apply Rsum_perm, new_Set_app_comm. Qed.

Lemma dot_le_magnitude (a b : JSRecord number) :
  Forall nonneg (values a) -> Forall nonneg (values b) ->
  0 <= dot a b <= sqrt (norm2 a a b) * sqrt (norm2 b a b).
Proof.
  intros Ha Hb.
  assert (H0 : 0 <= dot a b).
  { apply Rsum_nonneg. intros k.
    apply Rmult_le_pos; now apply val_nonneg. }
  split; [assumption|].
  rewrite <- sqrt_mult by apply norm2_nonneg.
  rewrite <- (sqrt_square (dot a b)) at 1 by assumption.
  apply sqrt_le_1_alt. apply Rsum_Cauchy_Schwarz.
Qed.

Lemma cosineSimilarity_unit (a b : JSRecord number) :
  ownReads a b ->
  Forall nonneg (values a) -> Forall nonneg (values b) ->
  inUnit (cosineSimilarity a b).
Proof.
  intros Hr Ha Hb. rewrite cosineSimilarity_eq by assumption.
  destruct (dot_le_magnitude a b Ha Hb) as [H0 H1].
  destruct (Req_dec_T _ 0) as [E|E]; cbn; [lra|].
  assert (Hm : 0 < sqrt (norm2 a a b) * sqrt (norm2 b a b)).
  { pose proof (sqrt_pos (norm2 a a b)). pose proof (sqrt_pos (norm2 b a b)).
    assert (0 <= sqrt (norm2 a a b) * sqrt (norm2 b a b)) by nra. lra. }
  split.
  - apply Rmult_le_pos; [assumption|]. left. now apply Rinv_0_lt_compat.
  - apply (Rmult_le_reg_r (sqrt (norm2 a a b) * sqrt (norm2 b a b)));
      [assumption|].
    unfold Rdiv. rewrite Rmult_assoc, Rinv_l by assumption. lra.
Qed.

Lemma Rsum_pos {A : Type} (f : A -> R) (l : list A) (x : A) :
  (forall y, 0 <= f y) -> In x l -> 0 < f x -> 0 < Rsum f l.
Proof.
  intros Hf. induction l as [|y l IH]; cbn; [tauto|].
  fold (Rsum f l). pose proof (Rsum_nonneg f l Hf). pose proof (Hf y).
  intros [->|Hin] Hx; [lra|]. specialize (IH Hin Hx). lra.
Qed.

Lemma get_Some_keys {V : Type} (o : JSRecord V) (key : string) (v : V) :
  get o key = Some v -> In key (Object_keys o).
Proof.
  intros H. destruct (in_dec string_dec key (Object_keys o)) as [|Hn];
    [assumption|].
  apply get_None_keys in Hn. congruence.
Qed.

(** A vector with a non-zero entry has cosine similarity 1 with itself. *)
Lemma cosineSimilarity_self (a : JSRecord number) :
  (exists key r, get a key = Some (Num r) /\ r <> 0) ->
  cosineSimilarity a a = Num 1.
Proof.
  intros (key & r & Hget & Hr).
  rewrite cosineSimilarity_eq by apply ownReads_self.
  assert (Hn : 0 < norm2 a a a).
  { apply (Rsum_pos _ _ key).
    - intros k. apply Rle_0_sqr.
    - apply new_Set_In, in_app_iff. left. eapply get_Some_keys, Hget.
    - unfold val. rewrite Hget. nra. }
  rewrite sqrt_sqrt by lra.
  destruct (Req_dec_T (norm2 a a a) 0); [lra|].
  f_equal. unfold dot, norm2 in *. field. lra.
Qed.

Lemma cosineSimilarity_zero_norm (a b : JSRecord number) :
  ownReads a b ->
  norm2 a a b = 0 \/ norm2 b a b = 0 -> cosineSimilarity a b = Num 0.
Proof.
  intros Hr H. rewrite cosineSimilarity_eq by assumption.
  destruct (Req_dec_T _ 0) as [E|E]; [reflexivity|].
  exfalso. apply E. destruct H as [-> | ->]; rewrite sqrt_0; lra.
Qed.

Lemma cosineSimilarity_isNum (a b : JSRecord number) :
  ownReads a b -> isNum (cosineSimilarity a b).
Proof.
  intros Hr. rewrite cosineSimilarity_eq by assumption.
  now destruct (Req_dec_T _ 0).
Qed.

(** ** [computeCompatibility] *)

Lemma timezoneScore_Num (a b : ProfileSummary) (ta tb : R) :
  timezoneOffset a = Some (Num ta) -> timezoneOffset b = Some (Num tb) ->
  timezoneScore a b = Num (Rmax 0 (1 - Rabs (ta - tb) / 12)).
Proof.
  intros Ha Hb. unfold timezoneScore. rewrite Ha, Hb. cbv zeta.
  cbn [sub lift2 Math_abs lift1]. rewrite div_Num by lra. reflexivity.
Qed.

Lemma timezoneScore_unit (a b : ProfileSummary) :
  wellFormed a -> wellFormed b -> inUnit (timezoneScore a b).
Proof.
  intros [_ _ _ Ha] [_ _ _ Hb].
  destruct (timezoneOffset a) as [[|ta]|] eqn:Ea; try contradiction;
    destruct (timezoneOffset b) as [[|tb]|] eqn:Eb; try contradiction;
    try (unfold timezoneScore; rewrite Ea, ?Eb; cbn; lra).
  rewrite (timezoneScore_Num a b ta tb Ea Eb). cbn.
  pose proof (Rabs_pos (ta - tb)).
  apply Rmax_case_strong; intros; lra.
Qed.

(** The score before rounding, when its four terms are numbers. *)
Lemma computeCompatibility_Num (a b : ProfileSummary) (t r x y l : R) :
  cosineSimilarity (languages a) (languages b) = Num t ->
  cosineSimilarity (commitTraits a) (commitTraits b) = Num r ->
  activityScore a = Num x -> activityScore b = Num y ->
  timezoneScore a b = Num l ->
  computeCompatibility a b =
  round4 (Num (0.4 * t + 0.3 * r + 0.2 * (1 - Rabs (x - y)) + 0.1 * l)).
Proof.
  intros Ht Hr Hx Hy Hl. unfold computeCompatibility. cbv zeta.
  rewrite Ht, Hr, Hx, Hy, Hl. reflexivity.
Qed.

(** The score of two well-formed profiles lies between 0 and 1, when no
    key is read from [Object.prototype]. *)
Lemma score_in_unit (a b : ProfileSummary) :
  wellFormed a -> wellFormed b -> ownReadsProfile a b ->
  inUnit (computeCompatibility a b).
Proof.
  intros Ha Hb [Hrl Hrt].
  pose proof (cosineSimilarity_unit _ _ Hrl (wf_languages a Ha)
                (wf_languages b Hb)) as Ht.
  pose proof (cosineSimilarity_unit _ _ Hrt (wf_commitTraits a Ha)
                (wf_commitTraits b Hb)) as Hr.
  pose proof (timezoneScore_unit a b Ha Hb) as Hl.
  pose proof (wf_activityScore a Ha) as Hx.
  pose proof (wf_activityScore b Hb) as Hy.
  destruct (cosineSimilarity (languages a) (languages b)) as [|t] eqn:Et;
    [contradiction|].
  destruct (cosineSimilarity (commitTraits a) (commitTraits b)) as [|r] eqn:Er;
    [contradiction|].
  destruct (timezoneScore a b) as [|l] eqn:El; [contradiction|].
  destruct (activityScore a) as [|x] eqn:Ex; [contradiction|].
  destruct (activityScore b) as [|y] eqn:Ey; [contradiction|].
  cbn in Ht, Hr, Hl, Hx, Hy.
  rewrite (computeCompatibility_Num a b t r x y l Et Er Ex Ey El).
  apply round4_unit.
  assert (0 <= Rabs (x - y) <= 1)
    by (split; [apply Rabs_pos|apply Rabs_le; lra]).
  lra.
Qed.

(** A [NaN] cosine makes the score [NaN]. *)
Lemma computeCompatibility_NaN (a b : ProfileSummary) :
  cosineSimilarity (languages a) (languages b) = NaN ->
  computeCompatibility a b = NaN.
Proof. unfold computeCompatibility. cbv zeta. now intros ->. Qed.

(** C1.  The code at the failing input.  A profile whose one language is
    named [constructor] and a profile whose one language is [TypeScript] are
    well-formed (fractions non-negative, activity score in [0,1]); for the
    key [constructor] the second record has no own property, so
    [b[key] || 0] is the function [Object.prototype.constructor], the sums
    become [NaN], and the score is [NaN], in either order of the two, not a
    number between 0 and 1. *)
Theorem computeCompatibility_inherited_key :
  wellFormed (oneLanguage "constructor")
  /\ wellFormed (oneLanguage "TypeScript")
  /\ computeCompatibility (oneLanguage "constructor")
       (oneLanguage "TypeScript") = NaN
  /\ computeCompatibility (oneLanguage "TypeScript")
       (oneLanguage "constructor") = NaN.
Proof.
  assert (Hwf : forall lang, wellFormed (oneLanguage lang))
    by (intros lang; constructor; cbn; repeat constructor; cbn; lra).
  split; [apply Hwf|]. split; [apply Hwf|].
  split; apply computeCompatibility_NaN;
    apply (cosineSimilarity_inherited _ _ "constructor");
    cbn; tauto.
Qed.

(** *** Symmetry, in binary64 *)

Module Binary64Facts.
Import Floats.
Import Binary64.
#[local] Set Warnings "-inexact-float".










End Binary64Facts.

Lemma zeroVector_norm2 (o a b : JSRecord number) :
  zeroVector o -> norm2 o a b = 0.
Proof.
  intros H. apply Rsum_zero. intros k _. rewrite val_get.
  destruct (get o k) as [x|] eqn:E; [|lra].
  apply get_In_values in E. unfold zeroVector in H.
  rewrite Forall_forall in H. rewrite (H x E). lra.
Qed.

(** C7.  The code at the failing input.  The empty vector has zero norm,
    yet its cosine similarity with a vector whose one key is [constructor]
    is [NaN], not 0: the empty record inherits [constructor] from
    [Object.prototype], so the missing key is not treated as 0.  Two empty
    profiles do score 0.25. *)
Theorem cosine_zero_norm_inherited_key :
  zeroVector []
  /\ cosineSimilarity [] [("constructor"%string, Num 1)] = NaN
  /\ cosineSimilarity [("constructor"%string, Num 1)] [] = NaN
  /\ computeCompatibility emptyProfile emptyProfile = Num 0.25.
Proof.
  split; [constructor|].
  split; [|split].
  - apply (cosineSimilarity_inherited _ _ "constructor"); cbn; tauto.
  - apply (cosineSimilarity_inherited _ _ "constructor"); cbn; tauto.
  - assert (H00 : cosineSimilarity [] [] = Num 0)
      by (apply cosineSimilarity_zero_norm;
          [apply ownReads_self|left; reflexivity]).
    rewrite (computeCompatibility_Num emptyProfile emptyProfile 0 0 0 0 0.5);
      try reflexivity; try exact H00.
    rewrite (round4_near 2500).
    + f_equal. lra.
    + rewrite Rminus_diag, Rabs_R0. lra.
Qed.

(** C8, as amended.  With two offsets that are numbers the time-zone term is
    [max(0, 1 - |delta|/12)]: never negative, and 0 from a 12-hour
    difference on; without one of the offsets it is 0.5.  Two profiles
    with the same languages, traits and activity score, whose language and
    trait vectors are not zero and whose offsets are 12 hours apart, score
    0.9. *)
Theorem timezoneScore_decay (a b : ProfileSummary) :
  (forall ta tb,
      timezoneOffset a = Some (Num ta) -> timezoneOffset b = Some (Num tb) ->
      timezoneScore a b = Num (Rmax 0 (1 - Rabs (ta - tb) / 12))
      /\ 0 <= Rmax 0 (1 - Rabs (ta - tb) / 12)
      /\ (12 <= Rabs (ta - tb) -> timezoneScore a b = Num 0))
  /\ (timezoneOffset a = None \/ timezoneOffset b = None ->
      timezoneScore a b = Num 0.5)
  /\ (forall ta tb x,
        languages a = languages b -> commitTraits a = commitTraits b ->
        activityScore a = Num x -> activityScore b = Num x ->
        nonzeroVector (languages a) -> nonzeroVector (commitTraits a) ->
        timezoneOffset a = Some (Num ta) ->
        timezoneOffset b = Some (Num tb) ->
        Rabs (ta - tb) = 12 ->
        computeCompatibility a b = Num 0.9).
Proof.
  assert (Hzero : forall ta tb,
             timezoneOffset a = Some (Num ta) ->
             timezoneOffset b = Some (Num tb) ->
             12 <= Rabs (ta - tb) -> timezoneScore a b = Num 0).
  { intros ta tb Ha Hb Hd. rewrite (timezoneScore_Num a b ta tb Ha Hb).
    f_equal. apply Rmax_left. lra. }
  split; [|split].
  - intros ta tb Ha Hb. split; [now apply timezoneScore_Num|].
    split; [apply Rmax_l|now apply Hzero].
  - unfold timezoneScore. intros [-> | ->]; [reflexivity|].
    now destruct (timezoneOffset a).
  - intros ta tb x Hl Ht Hx Hy Hnl Hnt Ha Hb Hd.
    rewrite (computeCompatibility_Num a b 1 1 x x 0); try assumption.
    + rewrite (round4_near 9000).
      * f_equal. lra.
      * rewrite Rminus_diag, Rabs_R0. lra.
    + rewrite <- Hl. now apply cosineSimilarity_self.
    + rewrite <- Ht. now apply cosineSimilarity_self.
    + apply (Hzero ta tb Ha Hb). lra.
Qed.

Lemma timezoneScore_decay_witness :
  computeCompatibility (fixerAt (-6)) (fixerAt 6) = Num 0.9.
Proof.
  destruct (timezoneScore_decay (fixerAt (-6)) (fixerAt 6)) as (_ & _ & H).
  apply (H (-6) 6 0.5); try reflexivity.
  - exists "TypeScript"%string, 1. split; [reflexivity|lra].
  - exists "fixer"%string, 1. split; [reflexivity|lra].
  - rewrite Rabs_left; lra.
Defined.

(** C8 as stated fails for profiles whose vectors are zero: two empty
    profiles 12 hours apart are identical in languages, traits and activity
    score and score 0.2. *)
Lemma timezoneScore_decay_empty :
  languages (emptyAt 0) = languages (emptyAt 12)
  /\ commitTraits (emptyAt 0) = commitTraits (emptyAt 12)
  /\ activityScore (emptyAt 0) = activityScore (emptyAt 12)
  /\ computeCompatibility (emptyAt 0) (emptyAt 12) = Num 0.2
  /\ computeCompatibility (emptyAt 0) (emptyAt 12) <> Num 0.9.
Proof.
  assert (H : computeCompatibility (emptyAt 0) (emptyAt 12) = Num 0.2).
  { rewrite (computeCompatibility_Num (emptyAt 0) (emptyAt 12) 0 0 0 0 0);
      try reflexivity.
    - rewrite (round4_near 2000).
      + f_equal. lra.
      + rewrite Rminus_diag, Rabs_R0. lra.
    - apply cosineSimilarity_zero_norm;
        [apply ownReads_self|left; reflexivity].
    - apply cosineSimilarity_zero_norm;
        [apply ownReads_self|left; reflexivity].
    - rewrite (timezoneScore_Num _ _ 0 12); try reflexivity.
      f_equal. apply Rmax_left. rewrite Rabs_left; lra. }
  repeat split; try exact H.
  rewrite H. intros [= E]. lra.
Qed.

(** ** Regular expressions *)

Lemma char_eq_i_refl (c : ascii) : char_eq_i c c = true.
Proof. apply Ascii.eqb_refl. Qed.

Lemma strip_i_app (k post : string) : strip_i k (k ++ post) = Some post.
Proof.
  induction k as [|c k IH]; cbn; [reflexivity|].
  now rewrite char_eq_i_refl.
Qed.

Lemma matches_here_Lit (k post : string) :
  matches_here (Lit k) (k ++ post) = true.
Proof. unfold matches_here. cbn. now rewrite strip_i_app. Qed.

Lemma matches_here_Alt (r1 r2 : RegExp) (s : string) :
  matches_here (r1 <|> r2) s = matches_here r1 s || matches_here r2 s.
Proof.
  unfold matches_here. cbn.
  destruct (match_here r1 s), (match_here r2 s); reflexivity.
Qed.

Lemma matches_here_Alt_l (r1 r2 : RegExp) (s : string) :
  matches_here r1 s = true -> matches_here (r1 <|> r2) s = true.
Proof. intros H. rewrite matches_here_Alt, H. reflexivity. Qed.

Lemma matches_here_Alt_r (r1 r2 : RegExp) (s : string) :
  matches_here r2 s = true -> matches_here (r1 <|> r2) s = true.
Proof. intros H. rewrite matches_here_Alt, H. apply orb_true_r. Qed.

Lemma matches_here_Lit_Opt (k : string) (r : RegExp) (post : string) :
  matches_here (Cat (Lit k) (Opt r)) (k ++ post) = true.
Proof.
  unfold matches_here. cbn. rewrite strip_i_app. cbn.
  now destruct (match_here r post).
Qed.

(** A match at some position is found by [test]. *)
Lemma RegExp_test_at (r : RegExp) (pre s : string) :
  matches_here r s = true -> RegExp_test r (pre ++ s) = true.
Proof.
  intros H. induction pre as [|c pre IH]; cbn.
  - destruct s; cbn; rewrite H; reflexivity.
  - rewrite IH. apply orb_true_r.
Qed.

Lemma append_assoc (a b c : string) : ((a ++ b) ++ c = a ++ (b ++ c))%string.
Proof. induction a as [|x a IH]; cbn; [reflexivity|now rewrite IH]. Qed.

(** ** Trait counting *)

Lemma count_one_commit (p1 p2 p3 p4 p5 p6 : RegExp) (m : string)
  (a1 a2 a3 a4 a5 a6 : R) :
  fold_left
    (fun traitCounts '(trait, pattern) =>
       if RegExp_test pattern m then increment traitCounts trait
       else traitCounts)
    [("fixer"%string, p1); ("tests"%string, p2); ("docs"%string, p3);
     ("wip"%string, p4); ("chores"%string, p5); ("chaotic"%string, p6)]
    (counts6 a1 a2 a3 a4 a5 a6)
  = counts6 (a1 + ind (RegExp_test p1 m)) (a2 + ind (RegExp_test p2 m))
      (a3 + ind (RegExp_test p3 m)) (a4 + ind (RegExp_test p4 m))
      (a5 + ind (RegExp_test p5 m)) (a6 + ind (RegExp_test p6 m)).
Proof.
  cbn [fold_left].
  destruct (RegExp_test p1 m), (RegExp_test p2 m), (RegExp_test p3 m),
    (RegExp_test p4 m), (RegExp_test p5 m), (RegExp_test p6 m);
    unfold counts6, increment, ind; cbn [get set String.eqb Ascii.eqb Bool.eqb
      add lift2]; rewrite ?Rplus_0_r; reflexivity.
Qed.

Lemma counts6_ext (a1 a2 a3 a4 a5 a6 b1 b2 b3 b4 b5 b6 : R) :
  a1 = b1 -> a2 = b2 -> a3 = b3 -> a4 = b4 -> a5 = b5 -> a6 = b6 ->
  counts6 a1 a2 a3 a4 a5 a6 = counts6 b1 b2 b3 b4 b5 b6.
Proof. intros; subst; reflexivity. Qed.

Lemma traitCount_cons (trait : string) (c : Commit) (commits : list Commit) :
  INR (traitCount trait (c :: commits))
  = ind (matchesTrait trait c) + INR (traitCount trait commits).
Proof.
  unfold traitCount. cbn [filter].
  destruct (matchesTrait trait c); cbn [List.length ind]; rewrite ?S_INR; lra.
Qed.

Lemma countTraits_loop (commits : list Commit) (a1 a2 a3 a4 a5 a6 : R) :
  fold_left
    (fun traitCounts commit =>
       let message := toLowerCase (message commit) in
       fold_left
         (fun traitCounts '(trait, pattern) =>
            if RegExp_test pattern message
            then increment traitCounts trait
            else traitCounts)
         (Object_entries TRAIT_KEYWORDS) traitCounts)
    commits (counts6 a1 a2 a3 a4 a5 a6)
  = counts6 (a1 + INR (traitCount "fixer" commits))
      (a2 + INR (traitCount "tests" commits))
      (a3 + INR (traitCount "docs" commits))
      (a4 + INR (traitCount "wip" commits))
      (a5 + INR (traitCount "chores" commits))
      (a6 + INR (traitCount "chaotic" commits)).
Proof.
  revert a1 a2 a3 a4 a5 a6.
  induction commits as [|c commits IH]; intros a1 a2 a3 a4 a5 a6.
  - cbn. now rewrite !Rplus_0_r.
  - cbn [fold_left]. cbv zeta. unfold Object_entries at 2, TRAIT_KEYWORDS at 2.
    rewrite count_one_commit, IH.
    apply counts6_ext; rewrite traitCount_cons, <- Rplus_assoc; reflexivity.
Qed.

Lemma countTraits_eq (commits : list Commit) :
  countTraits commits
  = map (fun trait => (trait, Num (INR (traitCount trait commits))))
      traitNames.
Proof.
  unfold countTraits. fold (counts6 0 0 0 0 0 0). rewrite countTraits_loop.
  rewrite !Rplus_0_l. reflexivity.
Qed.

Lemma traitCount_le (trait : string) (commits : list Commit) :
  (traitCount trait commits <= List.length commits)%nat.
Proof. apply filter_length_le. Qed.

(** The [commitTraits] of a non-empty commit list. *)
Lemma commitTraits_eq (Date_parse : string -> Date) (Date_current : Date)
  (commits : list Commit) (repoLanguages : option (JSRecord (JSRecord number)))
  (reference : option Date) :
  commits <> [] ->
  commitTraits
    (parseCommits Date_parse Date_current commits repoLanguages reference)
  = map (fun trait =>
           (trait,
            round4 (Num (INR (traitCount trait commits)
                         / INR (List.length commits)))))
      traitNames.
Proof.
  intros Hne. destruct commits as [|c commits]; [contradiction|].
  set (cs := c :: commits).
  assert (Hn : INR (List.length cs) <> 0)
    by (apply not_0_INR; discriminate).
  unfold parseCommits. cbv zeta. fold cs. cbn [commitTraits].
  rewrite countTraits_eq. unfold normalizeTraits, Object_entries, traitNames.
  cbn [map fold_left set String.eqb Ascii.eqb Bool.eqb].
  rewrite !div_Num by assumption. reflexivity.
Qed.

(** ** Language aggregation *)

Lemma keys_set {V : Type} (o : JSRecord V) (key : string) (v : V) :
  Object_keys (set o key v)
  = if mem key (Object_keys o) then Object_keys o
    else Object_keys o ++ [key].
Proof.
  induction o as [|[k w] o IH]; cbn; [reflexivity|].
  rewrite (String.eqb_sym key k). destruct (String.eqb k key) eqn:E; cbn.
  - reflexivity.
  - change (map fst (set o key v)) with (Object_keys (set o key v)).
    rewrite IH. unfold mem, Object_keys.
    now destruct (existsb (String.eqb key) (map fst o)).
Qed.

Lemma set_NoDup {V : Type} (o : JSRecord V) (key : string) (v : V) :
  NoDup (Object_keys o) -> NoDup (Object_keys (set o key v)).
Proof.
  intros H. rewrite keys_set. destruct (mem key (Object_keys o)) eqn:E;
    [assumption|].
  apply NoDup_app; [assumption|repeat constructor; cbn; tauto|].
  intros x Hx [<-|[]]. apply mem_In in Hx. congruence.
Qed.

Lemma set_Forall {V : Type} (P : V -> Prop) (o : JSRecord V) (key : string)
  (v : V) :
  Forall P (values o) -> P v -> Forall P (values (set o key v)).
Proof.
  intros H Hv. induction o as [|[k w] o IH]; cbn.
  - repeat constructor. exact Hv.
  - inversion H; subst. destruct (String.eqb k key); cbn.
    + constructor; assumption.
    + constructor; [assumption|]. now apply IH.
Qed.

Lemma total_set (o : JSRecord number) (key : string) (x : number) :
  total (set o key x) = total o - val o key + toR x.
Proof.
  rewrite val_get. unfold total. induction o as [|[k w] o IH].
  - cbn. lra.
  - cbn. destruct (String.eqb k key); cbn.
    + lra.
    + unfold values, Rsum in IH. rewrite IH. lra.
Qed.

Lemma set_fresh {V : Type} (o : JSRecord V) (key : string) (v : V) :
  ~ In key (Object_keys o) -> set o key v = o ++ [(key, v)].
Proof.
  induction o as [|[k w] o IH]; cbn; [reflexivity|]. intros H.
  destruct (String.eqb k key) eqn:E.
  - apply String.eqb_eq in E. tauto.
  - rewrite IH by tauto. reflexivity.
Qed.

(** Copying a record with distinct keys entry by entry, through [f]. *)
Lemma fold_set_map {V W : Type} (f : V -> W) (o : JSRecord V)
  (acc : JSRecord W) :
  NoDup (Object_keys acc ++ Object_keys o) ->
  fold_left (fun acc '(k, v) => set acc k (f v)) o acc
  = acc ++ map (fun '(k, v) => (k, f v)) o.
Proof.
  revert acc. induction o as [|[k v] o IH]; intros acc H; cbn [fold_left map].
  - now rewrite app_nil_r.
  - cbn [Object_keys map fst] in H.
    rewrite set_fresh.
    + rewrite IH.
      * now rewrite <- app_assoc.
      * unfold Object_keys in *. rewrite map_app, <- app_assoc. exact H.
    + apply NoDup_remove_2 in H. intros Hin. apply H.
      apply in_app_iff. now left.
Qed.

Lemma val_set (o : JSRecord number) (key key' : string) (x : number) :
  val (set o key x) key' = if String.eqb key key' then toR x else val o key'.
Proof.
  rewrite !val_get. induction o as [|[k w] o IH]; cbn [set get].
  - destruct (String.eqb key key'); reflexivity.
  - destruct (String.eqb k key) eqn:E; cbn [get].
    + apply String.eqb_eq in E. subst k.
      destruct (String.eqb key key'); reflexivity.
    + destruct (String.eqb k key') eqn:E'; [|exact IH].
      apply String.eqb_eq in E'. subst k. now rewrite String.eqb_sym, E.
Qed.

(** *** Languages that are not named like a member of [Object.prototype] *)

Lemma inherited_proto : inherited "__proto__" = true.
Proof. reflexivity. Qed.

Lemma assign_set {V : Type} (o : JSRecord V) (key : string) (v : V) :
  inherited key = false -> assign o key v = set o key v.
Proof.
  intros H. unfold assign. destruct (String.eqb key "__proto__") eqn:E;
    [|reflexivity].
  apply String.eqb_eq in E. subst key. rewrite inherited_proto in H.
  discriminate.
Qed.

Lemma get_numbers (o : JSRecord number) (key : string) :
  get (numbers o) key = option_map Number (get o key).
Proof.
  induction o as [|[k v] o IH]; cbn; [reflexivity|].
  now destruct (String.eqb k key).
Qed.

Lemma set_numbers (o : JSRecord number) (key : string) (n : number) :
  set (numbers o) key (Number n) = numbers (set o key n).
Proof.
  induction o as [|[k v] o IH]; [reflexivity|].
  cbn [numbers map set]. destruct (String.eqb k key); cbn [map];
    [reflexivity|].
  f_equal. exact IH.
Qed.

Lemma keys_numbers (o : JSRecord number) :
  Object_keys (numbers o) = Object_keys o.
Proof.
  unfold Object_keys, numbers. rewrite map_map. apply map_ext.
  now intros [k v].
Qed.

(** One step of the inner loop, on totals that are numbers. *)
Lemma addBytes_numbers (langTotals : JSRecord number) (grandTotal b : R)
  (lang : string) :
  inherited lang = false ->
  addBytes (numbers langTotals, Num grandTotal) (lang, Num b)
  = (numbers (set langTotals lang (Num (val langTotals lang + b))),
     Num (grandTotal + b)).
Proof.
  intros Hlang. unfold addBytes. rewrite assign_set by assumption.
  unfold member, val. rewrite get_numbers, Hlang.
  destruct (get langTotals lang) as [[|r]|]; cbn [option_map or_else plus];
    try destruct (Req_dec_T r 0) as [->|]; cbn [plus add lift2];
    now rewrite set_numbers.
Qed.

Lemma bytesOf_cons (lang l : string) (bytes : number)
  (entries : JSRecord number) :
  bytesOf lang ((l, bytes) :: entries)
  = (if String.eqb l lang then toR bytes else 0) + bytesOf lang entries.
Proof. reflexivity. Qed.

Lemma aggregate_repo (entries : JSRecord number) (langTotals : JSRecord number)
  (grandTotal : R) :
  Forall nonneg (values entries) -> plain entries ->
  aggregated langTotals grandTotal ->
  exists langTotals',
    fold_left addBytes (Object_entries entries)
      (numbers langTotals, Num grandTotal)
    = (numbers langTotals', Num (grandTotal + total entries))
    /\ aggregated langTotals' (grandTotal + total entries)
    /\ forall lang,
        val langTotals' lang = val langTotals lang + bytesOf lang entries.
Proof.
  unfold Object_entries. revert langTotals grandTotal.
  induction entries as [|[lang bytes] entries IH]; intros lt g Hb Hp Hinv.
  - exists lt. unfold total, bytesOf. cbn. rewrite Rplus_0_r.
    split; [reflexivity|]. split; [exact Hinv|]. intros lang. lra.
  - inversion Hb as [|? ? Hbytes Hrest]; subst.
    inversion Hp as [|? ? Hlang Hprest]; subst. cbn [fold_left].
    destruct bytes as [|b]; [contradiction|]. cbn in Hbytes.
    rewrite addBytes_numbers by exact Hlang.
    destruct Hinv as (Hnd & Hnn & Htot).
    destruct (IH (set lt lang (Num (val lt lang + b))) (g + b) Hrest Hprest)
      as (lt' & Hfold & Hinv' & Hval).
    { split; [now apply set_NoDup|]. split.
      - apply set_Forall; [assumption|]. cbn.
        pose proof (val_nonneg lt lang Hnn). lra.
      - rewrite total_set. cbn. lra. }
    exists lt'. unfold total in *. cbn [values map snd Rsum fold_right toR].
    unfold values, Rsum in *.
    replace (g + (b + fold_right (fun x acc => toR x + acc) 0
                      (map snd entries)))
      with (g + b + fold_right (fun x acc => toR x + acc) 0
                      (map snd entries)) by lra.
    split; [assumption|]. split; [assumption|].
    intros l. rewrite Hval, val_set, bytesOf_cons. cbn [toR].
    destruct (String.eqb lang l) eqn:E; [|lra].
    apply String.eqb_eq in E. subst l. lra.
Qed.

Lemma aggregate_repos (repoLanguages : JSRecord (JSRecord number))
  (repos : list string) (langTotals : JSRecord number) (grandTotal : R) :
  wfBytes repoLanguages -> plainBytes repoLanguages ->
  aggregated langTotals grandTotal ->
  let bytesIn (f : JSRecord number -> R) :=
    Rsum
      (fun repo =>
         match get repoLanguages repo with
         | Some repoLangs => f repoLangs
         | None => 0
         end)
      repos in
  exists langTotals',
    fold_left (addRepo repoLanguages) repos
      (numbers langTotals, Num grandTotal)
    = (numbers langTotals', Num (grandTotal + bytesIn total))
    /\ aggregated langTotals' (grandTotal + bytesIn total)
    /\ forall lang,
        val langTotals' lang = val langTotals lang + bytesIn (bytesOf lang).
Proof.
  intros Hwf Hplain. revert langTotals grandTotal.
  induction repos as [|repo repos IH]; intros lt g Hinv bytesIn;
    subst bytesIn.
  - exists lt. cbn. rewrite Rplus_0_r. split; [reflexivity|].
    split; [exact Hinv|]. intros lang. lra.
  - cbn [fold_left]. rewrite Rsum_cons. unfold addRepo at 2.
    destruct (get repoLanguages repo) as [repoLangs|] eqn:E.
    + destruct (aggregate_repo repoLangs lt g (Hwf _ _ E) (Hplain _ _ E) Hinv)
        as (lt1 & -> & Hinv1 & Hval1).
      destruct (IH lt1 _ Hinv1) as (lt' & Hfold & Hinv' & Hval').
      exists lt'. rewrite <- Rplus_assoc. split; [assumption|].
      split; [assumption|]. intros lang.
      rewrite Hval', Hval1, Rsum_cons, E. lra.
    + destruct (IH lt g Hinv) as (lt' & Hfold & Hinv' & Hval').
      exists lt'. rewrite Rplus_0_l. split; [assumption|].
      split; [assumption|]. intros lang. rewrite Hval', Rsum_cons, E. lra.
Qed.

Lemma aggregateLanguages_spec (commits : list Commit)
  (repoLanguages : JSRecord (JSRecord number)) :
  wfBytes repoLanguages -> plainBytes repoLanguages ->
  exists langTotals,
    aggregateLanguages commits repoLanguages
    = (numbers langTotals, Num (grandTotalBytes commits repoLanguages))
    /\ aggregated langTotals (grandTotalBytes commits repoLanguages)
    /\ forall lang,
        val langTotals lang = langBytes lang commits repoLanguages.
Proof.
  intros Hwf Hplain. unfold aggregateLanguages. cbv zeta.
  destruct (aggregate_repos repoLanguages (new_Set (map repo commits)) [] 0
              Hwf Hplain) as (lt & Hfold & Hinv & Hval).
  { split; [constructor|]. split; [constructor|reflexivity]. }
  rewrite Rplus_0_l in Hfold, Hinv. exists lt.
  split; [exact Hfold|]. split; [exact Hinv|].
  intros lang. rewrite Hval. unfold val, langBytes. cbn [get]. lra.
Qed.

Lemma computeLanguages_spec (commits : list Commit)
  (repoLanguages : JSRecord (JSRecord number)) :
  wfBytes repoLanguages -> plainBytes repoLanguages ->
  exists langTotals,
    aggregated langTotals (grandTotalBytes commits repoLanguages)
    /\ (forall lang,
          val langTotals lang = langBytes lang commits repoLanguages)
    /\ computeLanguages commits (Some repoLanguages)
       = if Rlt_dec 0 (grandTotalBytes commits repoLanguages)
         then map (fun '(lang, bytes) =>
                     (lang,
                      round4
                        (bytes / Num (grandTotalBytes commits repoLanguages))))
                langTotals
         else [].
Proof.
  intros Hwf Hplain.
  destruct (aggregateLanguages_spec commits repoLanguages Hwf Hplain)
    as (lt & Hagg & Hinv & Hval).
  exists lt. split; [exact Hinv|]. split; [exact Hval|].
  unfold computeLanguages. rewrite Hagg. cbn [gt].
  destruct (Rlt_dec 0 _); [|reflexivity].
  unfold Object_entries.
  rewrite (fold_set_map
             (fun bytes =>
                round4 (ToNumber bytes
                        / Num (grandTotalBytes commits repoLanguages))%js)).
  - unfold numbers. rewrite map_map. cbn [app]. apply map_ext.
    now intros [lang bytes].
  - cbn [Object_keys map app]. rewrite keys_numbers. apply Hinv.
Qed.

Lemma Rabs_le_between (a b : R) : Rabs a <= b -> - b <= a <= b.
Proof. unfold Rabs. destruct (Rcase_abs a); lra. Qed.

Lemma round4_nonneg (r : R) :
  0 <= r -> exists q, round4 (Num r) = Num q /\ 0 <= q.
Proof.
  intros H. rewrite round4_Num. eexists. split; [reflexivity|].
  assert (Hlo : (0 <= Zfloor (r * 10000 + / 2))%Z)
    by (apply Zfloor_lub; cbn; lra).
  apply IZR_le in Hlo. lra.
Qed.

(** Rounded shares are non-negative and their sum misses the sum of the
    exact shares by at most 1/20000 for each share. *)
Lemma shares_spec (langTotals : JSRecord number) (grandTotal : R) :
  0 < grandTotal ->
  Forall nonneg (values langTotals) ->
  Forall nonneg
    (values (map (fun '(lang, bytes) =>
                    (lang, round4 (bytes / Num grandTotal))) langTotals))
  /\ Rabs (total (map (fun '(lang, bytes) =>
                         (lang, round4 (bytes / Num grandTotal))) langTotals)
           - total langTotals / grandTotal)
     <= INR (List.length langTotals) / 20000.
Proof.
  intros HG. induction langTotals as [|[lang bytes] lt IH]; intros Hnn.
  - unfold total. cbn. split; [constructor|].
    unfold Rdiv. rewrite !Rmult_0_l, Rminus_diag, Rabs_R0. lra.
  - inversion Hnn as [|? ? Hb Hrest]; subst. destruct (IH Hrest) as [IH1 IH2].
    destruct bytes as [|b]; [contradiction|]. cbn in Hb.
    cbn [map]. rewrite div_Num by lra.
    assert (Hshare : 0 <= b / grandTotal).
    { apply Rmult_le_pos; [assumption|]. left. now apply Rinv_0_lt_compat. }
    destruct (round4_nonneg _ Hshare) as (q & Hq & Hq0).
    destruct (round4_error (b / grandTotal)) as (q' & Hq' & Herr).
    rewrite Hq in Hq'. injection Hq' as <-. rewrite Hq. split.
    + constructor; assumption.
    + unfold total in *. cbn [values map snd List.length] in *.
      rewrite !Rsum_cons, S_INR. cbn [toR].
      apply Rabs_le. apply Rabs_le_between in IH2, Herr.
      unfold values in *.
      replace ((b + Rsum toR (map snd lt)) / grandTotal)
        with (b / grandTotal + Rsum toR (map snd lt) / grandTotal)
        by (field; lra).
      lra.
Qed.

Lemma In_get {V : Type} (o : JSRecord V) (key : string) (v : V) :
  NoDup (Object_keys o) -> In (key, v) o -> get o key = Some v.
Proof.
  induction o as [|[k w] o IH]; cbn; [tauto|]. intros Hnd [[= -> ->]|Hin].
  - now rewrite String.eqb_refl.
  - inversion Hnd as [|? ? Hk Hnd']; subst.
    destruct (String.eqb k key) eqn:E; [|now apply IH].
    apply String.eqb_eq in E. subst k. exfalso. apply Hk.
    change key with (fst (key, v)). now apply in_map.
Qed.

Lemma keys_map_values {V W : Type} (f : string -> V -> W) (o : JSRecord V) :
  Object_keys (map (fun '(k, v) => (k, f k v)) o) = Object_keys o.
Proof.
  unfold Object_keys. rewrite map_map. apply map_ext. now intros [k v].
Qed.

(** C4, as amended.  Without a language map, or when the grand total of the
    bytes is zero, [languages] is empty.  Otherwise, for byte counts that
    are non-negative numbers and languages that are not named like a member
    of [Object.prototype], the grand total is positive, every language
    occurs once, and its value is its share of the grand total (its bytes
    over all repositories of the commits, each repository once) rounded to
    4 decimals: the values are non-negative and their sum is 1 up to the
    rounding, at most 0.00005 for each language. *)
Theorem languages_normalized (Date_parse : string -> Date)
  (Date_current : Date) (commits : list Commit)
  (repoLanguages : option (JSRecord (JSRecord number)))
  (reference : option Date) :
  let p :=
    parseCommits Date_parse Date_current commits repoLanguages reference in
  (repoLanguages = None -> languages p = [])
  /\ forall byRepo,
      repoLanguages = Some byRepo -> wfBytes byRepo -> plainBytes byRepo ->
      (grandTotalBytes commits byRepo = 0 -> languages p = [])
      /\ (languages p <> [] ->
          0 < grandTotalBytes commits byRepo
          /\ NoDup (Object_keys (languages p))
          /\ (forall lang share,
                In (lang, share) (languages p) ->
                share
                = round4 (Num (langBytes lang commits byRepo
                               / grandTotalBytes commits byRepo)))
          /\ Forall nonneg (values (languages p))
          /\ Rabs (total (languages p) - 1)
             <= INR (List.length (languages p)) / 20000).
Proof.
  intros p. split.
  - intros ->. subst p. now destruct commits.
  - intros byRepo -> Hwf Hplain.
    destruct (computeLanguages_spec commits byRepo Hwf Hplain)
      as (lt & Hinv & Hval & Hl).
    assert (Hp : languages p = [] \/
                 languages p = computeLanguages commits (Some byRepo))
      by (subst p; destruct commits; [now left|now right]).
    split.
    + intros H0. destruct Hp as [Hp|Hp]; [exact Hp|].
      rewrite Hp, Hl, H0. destruct (Rlt_dec 0 0); [lra|reflexivity].
    + intros Hne. destruct Hp as [Hp|Hp]; [contradiction|].
      rewrite Hp, Hl in *.
      destruct (Rlt_dec 0 (grandTotalBytes commits byRepo)) as [HG|HG];
        [|contradiction].
      destruct (shares_spec lt _ HG (proj1 (proj2 Hinv))) as [Hnn Hsum].
      destruct Hinv as (Hnd & Hnum & Htot).
      split; [exact HG|]. split; [|split; [|split]].
      * rewrite (keys_map_values (fun _ bytes => round4 (bytes / Num _)%js)).
        exact Hnd.
      * intros lang share Hin.
        apply in_map_iff in Hin as ([l bytes] & [= -> <-] & Hin).
        pose proof (In_get _ _ _ Hnd Hin) as Hget.
        assert (Hb : nonneg bytes).
        { rewrite Forall_forall in Hnum. apply Hnum.
          change bytes with (snd (lang, bytes)). now apply in_map. }
        destruct bytes as [|b]; [contradiction|].
        rewrite div_Num by lra. do 3 f_equal.
        rewrite <- Hval. unfold val. now rewrite Hget.
      * exact Hnn.
      * rewrite length_map.
        replace 1 with (total lt / grandTotalBytes commits byRepo);
          [exact Hsum|].
        rewrite Htot. field. lra.
Qed.

Lemma thirds_languages :
  languages
    (parseCommits Date_parse_iso referenceDate thirdsCommits
       (Some thirdsLanguages) (Some referenceDate))
  = [("TypeScript"%string, Num 0.3333); ("JavaScript"%string, Num 0.3333);
     ("Python"%string, Num 0.3333)].
Proof.
  unfold parseCommits, thirdsCommits. cbv zeta. cbn [languages].
  unfold computeLanguages, aggregateLanguages, thirdsLanguages, new_Set,
    Object_entries, mkCommit.
  cbn [map repo fold_left mem existsb app get set String.eqb Ascii.eqb
         Bool.eqb orb or_else add lift2 addRepo addBytes assign member
         inherited Object_prototype plus ToNumber Object_entries].
  rewrite gt_Num_true by lra. rewrite div_Num by lra.
  rewrite (round4_near 3333) by lra. reflexivity.
Qed.

Lemma thirds_wfBytes : wfBytes thirdsLanguages.
Proof.
  intros repo repoLangs H. unfold thirdsLanguages in H. cbn [get] in H.
  destruct (String.eqb "user/repo" repo); [|discriminate].
  injection H as <-. repeat constructor; cbn; lra.
Qed.

Lemma thirds_plainBytes : plainBytes thirdsLanguages.
Proof.
  intros repo repoLangs H. unfold thirdsLanguages in H. cbn [get] in H.
  destruct (String.eqb "user/repo" repo); [|discriminate].
  injection H as <-. repeat constructor.
Qed.

Lemma languages_normalized_witness :
  0 < grandTotalBytes thirdsCommits thirdsLanguages
  /\ Forall nonneg
       (values
          (languages
             (parseCommits Date_parse_iso referenceDate thirdsCommits
                (Some thirdsLanguages) (Some referenceDate)))).
Proof.
  destruct (languages_normalized Date_parse_iso referenceDate thirdsCommits
              (Some thirdsLanguages) (Some referenceDate)) as [_ H].
  destruct (H thirdsLanguages eq_refl thirds_wfBytes thirds_plainBytes)
    as [_ H'].
  destruct H' as (HG & _ & _ & Hnn & _).
  - rewrite thirds_languages. discriminate.
  - split; assumption.
Defined.

(** C4 as stated fails: three languages with equal byte counts get 0.3333
    each, and the values sum to 0.9999. *)
Lemma languages_sum_not_one :
  languages
    (parseCommits Date_parse_iso referenceDate thirdsCommits
       (Some thirdsLanguages) (Some referenceDate))
  = [("TypeScript"%string, Num 0.3333); ("JavaScript"%string, Num 0.3333);
     ("Python"%string, Num 0.3333)]
  /\ total
       (languages
          (parseCommits Date_parse_iso referenceDate thirdsCommits
             (Some thirdsLanguages) (Some referenceDate)))
     = 0.9999
  /\ total
       (languages
          (parseCommits Date_parse_iso referenceDate thirdsCommits
             (Some thirdsLanguages) (Some referenceDate)))
     <> 1.
Proof.
  rewrite thirds_languages. unfold total. cbn. repeat split; lra.
Qed.

(** What the amended claim leaves out: a language named like a member of
    [Object.prototype].  Its total starts from the text of the inherited
    member, so its share is [NaN]; the other shares are taken of a grand
    total that counts its bytes. *)
Lemma constructor_language :
  languages
    (parseCommits Date_parse_iso referenceDate thirdsCommits
       (Some [("user/repo"%string,
               [("constructor"%string, Num 5); ("Go"%string, Num 5)])])
       (Some referenceDate))
  = [("constructor"%string, NaN); ("Go"%string, Num 0.5)].
Proof.
  unfold parseCommits, thirdsCommits. cbv zeta. cbn [languages].
  unfold computeLanguages, aggregateLanguages, new_Set, Object_entries,
    mkCommit.
  cbn [map repo fold_left mem existsb app get set String.eqb Ascii.eqb
         Bool.eqb orb or_else add lift2 addRepo addBytes assign member
         inherited Object_prototype plus ToNumber Object_entries].
  rewrite gt_Num_true by lra.
  rewrite div_Num by lra. rewrite (round4_near 5000) by lra.
  repeat f_equal. lra.
Qed.

(** Languages come from the byte maps of the repositories of the commits. *)
Lemma In_keys_set {V : Type} (o : JSRecord V) (key x : string) (v : V) :
  In x (Object_keys (set o key v)) -> In x (Object_keys o) \/ x = key.
Proof.
  rewrite keys_set. destruct (mem key (Object_keys o)); [tauto|].
  rewrite in_app_iff. cbn. intuition.
Qed.

Lemma fold_set_keys {V W : Type} (f : V -> W) (o : JSRecord V)
  (acc : JSRecord W) (x : string) :
  In x (Object_keys (fold_left (fun acc '(k, v) => set acc k (f v)) o acc)) ->
  In x (Object_keys acc) \/ In x (Object_keys o).
Proof.
  revert acc. induction o as [|[k v] o IH]; intros acc; cbn [fold_left].
  - tauto.
  - intros H. apply IH in H as [H|H]; [|right; now right].
    apply In_keys_set in H as [H| ->]; [now left|right; now left].
Qed.

Lemma In_keys_assign {V : Type} (o : JSRecord V) (key x : string) (v : V) :
  In x (Object_keys (assign o key v)) -> In x (Object_keys o) \/ x = key.
Proof.
  unfold assign. destruct (String.eqb key "__proto__"); [tauto|].
  apply In_keys_set.
Qed.

Lemma aggregate_repo_keys (entries : JSRecord number)
  (state : JSRecord Value * number) (x : string) :
  In x (Object_keys (fst (fold_left addBytes (Object_entries entries) state)))
  ->
  In x (Object_keys (fst state)) \/ In x (Object_keys entries).
Proof.
  unfold Object_entries. revert state.
  induction entries as [|[lang bytes] entries IH]; intros [lt g];
    cbn [fold_left].
  - tauto.
  - intros H. apply IH in H as [H|H]; [|right; now right].
    cbn [addBytes fst] in H. apply In_keys_assign in H as [H| ->];
      [now left|right; now left].
Qed.

Lemma aggregate_repos_keys (repoLanguages : JSRecord (JSRecord number))
  (repos : list string) (state : JSRecord Value * number) (x : string) :
  In x (Object_keys (fst (fold_left (addRepo repoLanguages) repos state))) ->
  In x (Object_keys (fst state))
  \/ exists r repoLangs,
      In r repos /\ get repoLanguages r = Some repoLangs
      /\ In x (Object_keys repoLangs).
Proof.
  revert state. induction repos as [|r repos IH]; intros [lt g];
    cbn [fold_left].
  - tauto.
  - intros H. apply IH in H as [H|(r' & rl & Hr & Hget & Hx)].
    + unfold addRepo in H.
      destruct (get repoLanguages r) as [repoLangs|] eqn:E.
      * apply aggregate_repo_keys in H as [H|H]; [now left|].
        right. exists r, repoLangs. split; [now left|]. split; assumption.
      * now left.
    + right. exists r', rl. split; [now right|]. split; assumption.
Qed.

Lemma languages_keys (Date_parse : string -> Date) (Date_current : Date)
  (commits : list Commit)
  (repoLanguages : option (JSRecord (JSRecord number)))
  (reference : option Date) (lang : string) :
  In lang
    (Object_keys
       (languages
          (parseCommits Date_parse Date_current commits repoLanguages
             reference))) ->
  exists byRepo c repoLangs,
    repoLanguages = Some byRepo /\ In c commits
    /\ get byRepo (repo c) = Some repoLangs
    /\ In lang (Object_keys repoLangs).
Proof.
  destruct commits as [|c0 commits]; [contradiction|].
  unfold parseCommits. cbv zeta. cbn [languages]. unfold computeLanguages.
  destruct repoLanguages as [byRepo|]; [|contradiction].
  destruct (aggregateLanguages (c0 :: commits) byRepo) as [lt g] eqn:E.
  destruct (g > Num 0)%js; [|contradiction].
  intros H. apply fold_set_keys in H as [[]|H].
  unfold Object_entries in H.
  change lt with (fst (lt, g)) in H. rewrite <- E in H.
  unfold aggregateLanguages in H. cbv zeta in H.
  apply aggregate_repos_keys in H as [[]|(r & rl & Hr & Hget & Hx)].
  apply new_Set_In, in_map_iff in Hr as (c & <- & Hc).
  exists byRepo, c, rl. repeat split; assumption.
Qed.

(** ** The trait mapping *)

Lemma ratio_unit (k n : nat) :
  (k <= n)%nat -> (0 < n)%nat -> 0 <= INR k / INR n <= 1.
Proof.
  intros Hk Hn. apply le_INR in Hk. apply lt_INR in Hn. cbn in Hn.
  pose proof (pos_INR k). split.
  - apply Rmult_le_pos; [assumption|]. left. now apply Rinv_0_lt_compat.
  - apply (Rmult_le_reg_r (INR n)); [assumption|].
    unfold Rdiv. rewrite Rmult_assoc, Rinv_l by lra. lra.
Qed.

Lemma round4_0 : round4 (Num 0) = Num 0.
Proof. rewrite (round4_near 0); [f_equal; lra|lra]. Qed.

Lemma traitValue_spec (trait : string) (commits : list Commit) :
  commits <> [] ->
  exists v,
    round4 (Num (INR (traitCount trait commits) / INR (List.length commits)))
    = Num v
    /\ 0 <= v <= 1
    /\ (traitCount trait commits = 0%nat -> v = 0).
Proof.
  intros Hne.
  assert (Hn : (0 < List.length commits)%nat)
    by (destruct commits; [contradiction|cbn; lia]).
  pose proof (round4_unit _ (ratio_unit _ _ (traitCount_le trait commits) Hn))
    as Hu.
  destruct (round4 _) as [|v] eqn:E; [contradiction|].
  exists v. split; [reflexivity|]. split; [exact Hu|].
  intros H0. rewrite H0 in E. cbn [INR] in E. unfold Rdiv in E.
  rewrite Rmult_0_l, round4_0 in E. congruence.
Qed.

(** C9.  For a non-empty commit list [commitTraits] has exactly the six keys
    fixer, tests, docs, wip, chores, chaotic; each carries a number in
    [0,1], and a trait that no commit matches is present with value 0.
    [languages], in contrast, has a key only for a language that the byte
    map of a repository of the commits lists. *)
Theorem commitTraits_six_keys (Date_parse : string -> Date)
  (Date_current : Date) (commits : list Commit)
  (repoLanguages : option (JSRecord (JSRecord number)))
  (reference : option Date) :
  commits <> [] ->
  let p :=
    parseCommits Date_parse Date_current commits repoLanguages reference in
  Object_keys (commitTraits p) = traitNames
  /\ Forall inUnit (values (commitTraits p))
  /\ (forall trait, In trait traitNames ->
        exists v, get (commitTraits p) trait = Some (Num v)
                  /\ 0 <= v <= 1
                  /\ (traitCount trait commits = 0%nat -> v = 0))
  /\ (forall lang, In lang (Object_keys (languages p)) ->
        exists byRepo c repoLangs,
          repoLanguages = Some byRepo /\ In c commits
          /\ get byRepo (repo c) = Some repoLangs
          /\ In lang (Object_keys repoLangs)).
Proof.
  intros Hne p. subst p.
  split; [|split; [|split; [|apply languages_keys]]];
    rewrite (commitTraits_eq _ _ _ _ _ Hne); [reflexivity| |].
  - unfold values. rewrite map_map. cbn [snd]. apply Forall_forall.
    intros x Hx. apply in_map_iff in Hx as (trait & <- & _).
    destruct (traitValue_spec trait commits Hne) as (v & -> & Hv & _).
    exact Hv.
  - intros trait Hin.
    destruct (traitValue_spec trait commits Hne) as (v & Ev & Hv & H0).
    exists v. split; [|split; assumption].
    rewrite <- Ev. unfold traitNames in *. cbn in Hin.
    repeat (destruct Hin as [<- | Hin]; [reflexivity|]). contradiction.
Qed.

Lemma commitTraits_six_keys_witness :
  Object_keys
    (commitTraits
       (parseCommits Date_parse_iso referenceDate traitCommits None
          (Some referenceDate)))
  = traitNames.
Proof.
  apply (commitTraits_six_keys Date_parse_iso referenceDate traitCommits None
           (Some referenceDate)).
  discriminate.
Defined.

Lemma traitCount_messages (trait : string) (commits : list Commit) :
  traitCount trait commits
  = List.length
      (filter
         (fun m =>
            match get TRAIT_KEYWORDS trait with
            | Some pattern => RegExp_test pattern (toLowerCase m)
            | None => false
            end)
         (map message commits)).
Proof.
  unfold traitCount, matchesTrait.
  induction commits as [|c commits IH]; cbn [map filter]; [reflexivity|].
  destruct (get TRAIT_KEYWORDS trait);
    [destruct (RegExp_test _ _)|]; cbn [List.length]; congruence.
Qed.

(** ** Highlights *)

Ltac js_compare :=
  repeat first
    [ rewrite gt_Num_true by lra
    | rewrite gt_Num_false by lra
    | rewrite strict_eq_Num_true by lra
    | rewrite strict_eq_Num_false by lra ].

Ltac js_locale :=
  repeat
    match goal with
    | |- context [localeCompare ?a ?b] =>
        let c := eval vm_compute in (String.compare a b) in
        change (localeCompare a b)
          with (match c with Lt => Num (-1) | Eq => Num 0 | Gt => Num 1 end);
        cbv iota
    end.

Ltac js_sort :=
  unfold computeHighlights, Array_sort, Object_entries;
  repeat (cbn [filter fold_right sort_insert fst snd negb sub lift2];
          unfold compareTraits; js_locale; js_compare).

(** ** Unanchored matching *)

Ltac find_alternative :=
  first
    [ apply matches_here_Lit
    | apply matches_here_Lit_Opt
    | apply matches_here_Alt_l; find_alternative
    | apply matches_here_Alt_r; find_alternative ].

Lemma keyword_matches (trait : string) (words : list string) (word : string)
  (pattern : RegExp) (pre post : string) :
  get traitWords trait = Some words -> In word words ->
  get TRAIT_KEYWORDS trait = Some pattern ->
  RegExp_test pattern (pre ++ word ++ post) = true.
Proof.
  intros Hw Hin Hp. apply RegExp_test_at.
  unfold traitWords, TRAIT_KEYWORDS in *. cbn [get] in Hw, Hp.
  repeat
    match type of Hw with
    | (if String.eqb ?k trait then _ else _) = _ =>
        destruct (String.eqb k trait)
    end;
    try discriminate; injection Hw as <-; injection Hp as <-;
    cbn [In] in Hin;
    repeat (destruct Hin as [<- | Hin]; [try find_alternative|]);
    try contradiction.
  (* the word [docs]: [doc] followed by the optional [s] *)
  change ("docs" ++ post)%string with ("doc" ++ ("s" ++ post))%string.
  find_alternative.
Qed.

Lemma traitWords_names (trait : string) (words : list string) :
  get traitWords trait = Some words -> In trait traitNames.
Proof.
  intros H. apply get_Some_keys in H. exact H.
Qed.

Lemma matchesTrait_counts (trait : string) (c : Commit)
  (commits : list Commit) :
  matchesTrait trait c = true -> In c commits ->
  (1 <= traitCount trait commits)%nat.
Proof.
  intros Hm Hin. unfold traitCount.
  assert (H : In c (filter (matchesTrait trait) commits))
    by (apply filter_In; split; assumption).
  destruct (filter (matchesTrait trait) commits); [contradiction|cbn; lia].
Qed.

Lemma get_tabulate {V : Type} (f : string -> V) (keys : list string)
  (key : string) :
  In key keys -> get (map (fun k => (k, f k)) keys) key = Some (f key).
Proof.
  induction keys as [|k keys IH]; cbn; [contradiction|].
  destruct (String.eqb k key) eqn:E.
  - apply String.eqb_eq in E. now subst.
  - apply String.eqb_neq in E. intros [H|H]; [contradiction|now apply IH].
Qed.

(** C10.  Trait matching is an unanchored, case-insensitive search in the
    lower-cased message: a commit whose message contains a keyword of a
    trait anywhere, also inside a longer word, matches the trait, is counted
    for it, and the count enters the trait's value.  So [docker] counts for
    docs, [latest] for tests and [template] for wip. *)
Theorem trait_matching_unanchored (c : Commit) (pre post : string) :
  (forall trait words word,
      get traitWords trait = Some words -> In word words ->
      toLowerCase (message c) = (pre ++ word ++ post)%string ->
      matchesTrait trait c = true
      /\ forall Date_parse Date_current commits repoLanguages reference,
          In c commits ->
          (1 <= traitCount trait commits)%nat
          /\ get (commitTraits
                    (parseCommits Date_parse Date_current commits
                       repoLanguages reference)) trait
             = Some (round4 (Num (INR (traitCount trait commits)
                                  / INR (List.length commits)))))
  /\ (toLowerCase (message c) = (pre ++ "docker" ++ post)%string ->
      matchesTrait "docs" c = true)
  /\ (toLowerCase (message c) = (pre ++ "latest" ++ post)%string ->
      matchesTrait "tests" c = true)
  /\ (toLowerCase (message c) = (pre ++ "template" ++ post)%string ->
      matchesTrait "wip" c = true).
Proof.
  assert (Hgen : forall trait words word pre' post',
             get traitWords trait = Some words -> In word words ->
             toLowerCase (message c) = (pre' ++ word ++ post')%string ->
             matchesTrait trait c = true).
  { intros trait words word pre' post' Hw Hin Hm. unfold matchesTrait.
    destruct (get TRAIT_KEYWORDS trait) as [pattern|] eqn:Hp.
    - rewrite Hm. now apply (keyword_matches trait words).
    - apply traitWords_names in Hw. apply get_None_keys in Hp.
      contradiction. }
  split; [|split; [|split]].
  - intros trait words word Hw Hin Hm.
    pose proof (Hgen trait words word pre post Hw Hin Hm) as Hc.
    split; [exact Hc|].
    intros Date_parse Date_current commits repoLanguages reference Hc_in.
    split; [now apply (matchesTrait_counts trait c)|].
    rewrite commitTraits_eq by (intros ->; contradiction).
    apply (get_tabulate
             (fun t => round4 (Num (INR (traitCount t commits)
                                    / INR (List.length commits))))).
    now apply (traitWords_names trait words).
  - intros Hm.
    apply (Hgen "docs"%string _ "doc"%string pre ("ker" ++ post)%string
             eq_refl); [cbn; tauto|exact Hm].
  - intros Hm.
    apply (Hgen "tests"%string _ "test"%string (pre ++ "la")%string post
             eq_refl); [cbn; tauto|].
    rewrite Hm, append_assoc. reflexivity.
  - intros Hm.
    apply (Hgen "wip"%string _ "temp"%string pre ("late" ++ post)%string
             eq_refl); [cbn; tauto|exact Hm].
Qed.

Lemma trait_matching_unanchored_witness :
  matchesTrait "docs"
    (mkCommit "d1" "Add Dockerfile" "test/repo" "2024-01-15T12:00:00Z")
  = true.
Proof.
  destruct (trait_matching_unanchored
              (mkCommit "d1" "Add Dockerfile" "test/repo"
                 "2024-01-15T12:00:00Z") "add " "file") as (_ & H & _).
  apply H. reflexivity.
Defined.

(** C5.  The five commits of the trait test, whatever their dates and
    repositories: fixer 0.4, tests 0.2, docs 0.2, chores 0.2, wip 0,
    chaotic 0, and the highlights are [fixer, chores]. *)
Theorem trait_scenario (Date_parse : string -> Date) (Date_current : Date)
  (commits : list Commit)
  (repoLanguages : option (JSRecord (JSRecord number)))
  (reference : option Date) :
  map message commits
  = ["fix: resolve null pointer bug"; "fix: crash on login";
     "add unit test for parser"; "update README docs";
     "chore: bump dependencies"]%string ->
  let p :=
    parseCommits Date_parse Date_current commits repoLanguages reference in
  commitTraits p
  = [("fixer"%string, Num 0.4); ("tests"%string, Num 0.2);
     ("docs"%string, Num 0.2); ("wip"%string, Num 0);
     ("chores"%string, Num 0.2); ("chaotic"%string, Num 0)]
  /\ highlights p = "fixer, chores"%string.
Proof.
  intros Hm p.
  assert (Hlen : List.length commits = 5%nat)
    by (rewrite <- (length_map message), Hm; reflexivity).
  assert (Hne : commits <> []) by (intros ->; discriminate).
  assert (Hc : forall trait,
             traitCount trait commits
             = List.length
                 (filter
                    (fun m =>
                       match get TRAIT_KEYWORDS trait with
                       | Some pattern => RegExp_test pattern (toLowerCase m)
                       | None => false
                       end)
                    ["fix: resolve null pointer bug"; "fix: crash on login";
                     "add unit test for parser"; "update README docs";
                     "chore: bump dependencies"]%string))
    by (intros trait; rewrite traitCount_messages, Hm; reflexivity).
  assert (Ht : commitTraits p
               = [("fixer"%string, Num 0.4); ("tests"%string, Num 0.2);
                  ("docs"%string, Num 0.2); ("wip"%string, Num 0);
                  ("chores"%string, Num 0.2); ("chaotic"%string, Num 0)]).
  { subst p. rewrite (commitTraits_eq _ _ _ _ _ Hne), Hlen.
    unfold traitNames. cbn [map]. rewrite !Hc.
    replace (List.length _) with 2%nat at 1 by (vm_compute; reflexivity).
    replace (List.length _) with 1%nat at 1 by (vm_compute; reflexivity).
    replace (List.length _) with 1%nat at 1 by (vm_compute; reflexivity).
    replace (List.length _) with 0%nat at 1 by (vm_compute; reflexivity).
    replace (List.length _) with 1%nat at 1 by (vm_compute; reflexivity).
    replace (List.length _) with 0%nat at 1 by (vm_compute; reflexivity).
    rewrite (round4_near 4000), (round4_near 2000), (round4_near 0)
      by (cbn [INR]; lra).
    repeat f_equal; lra. }
  split; [exact Ht|].
  subst p. destruct commits as [|c commits]; [contradiction|].
  unfold parseCommits. cbv zeta. cbn [highlights].
  change (normalizeTraits (countTraits (c :: commits))
            (Num (INR (List.length (c :: commits)))))
    with (commitTraits
            (parseCommits Date_parse Date_current (c :: commits)
               repoLanguages reference)).
  rewrite Ht. js_sort. reflexivity.
Qed.

Lemma trait_scenario_witness :
  highlights
    (parseCommits Date_parse_iso referenceDate traitCommits None
       (Some referenceDate))
  = "fixer, chores"%string.
Proof.
  apply (trait_scenario Date_parse_iso referenceDate traitCommits None
           (Some referenceDate)).
  reflexivity.
Defined.

(** ** The activity score *)

Lemma day_ms_neq_0 : 1000 * 60 * 60 * 24 <> 0.
Proof. lra. Qed.

Lemma weight_of_commit (Date_parse : string -> Date) (dateStr : string)
  (now t : R) :
  Date_parse dateStr = Num t ->
  Math_exp (- daysSince Date_parse dateStr (Num now) / Num 30)%js
  = Num (weight now t).
Proof.
  intros H. unfold daysSince, getTime. cbv zeta. rewrite H.
  cbn [sub lift2]. rewrite div_Num by apply day_ms_neq_0.
  cbn [neg lift1]. rewrite div_Num by lra. reflexivity.
Qed.

Lemma weight_NaN (Date_parse : string -> Date) (dateStr : string)
  (now : Date) :
  Date_parse dateStr = NaN ->
  Math_exp (- daysSince Date_parse dateStr now / Num 30)%js = NaN.
Proof.
  intros H. unfold daysSince, getTime. cbv zeta. rewrite H.
  destruct now; reflexivity.
Qed.

Lemma weightSum_NaN (Date_parse : string -> Date) (now : Date)
  (commits : list Commit) :
  fold_left
    (fun weightSum commit =>
       let days := daysSince Date_parse (date commit) now in
       let weight := Math_exp (- days / Num 30)%js in
       (weightSum + weight)%js)
    commits NaN
  = NaN.
Proof. induction commits as [|c commits IH]; cbn; [reflexivity|exact IH]. Qed.

Lemma weightSum_bad (Date_parse : string -> Date) (now : Date)
  (commits : list Commit) (acc : number) :
  (exists c, In c commits /\ Date_parse (date c) = NaN) ->
  fold_left
    (fun weightSum commit =>
       let days := daysSince Date_parse (date commit) now in
       let weight := Math_exp (- days / Num 30)%js in
       (weightSum + weight)%js)
    commits acc
  = NaN.
Proof.
  revert acc. induction commits as [|c commits IH]; intros acc (b & Hin & Hb).
  - contradiction.
  - cbn [fold_left]. cbv zeta. destruct Hin as [-> | Hin].
    + rewrite (weight_NaN _ _ _ Hb).
      replace (acc + NaN)%js with NaN by (destruct acc; reflexivity).
      apply weightSum_NaN.
    + apply IH. exists b. split; assumption.
Qed.

Lemma weightSum_good (Date_parse : string -> Date) (now : R)
  (commits : list Commit) (acc : R) :
  Forall (fun c => isNum (Date_parse (date c))) commits ->
  fold_left
    (fun weightSum commit =>
       let days := daysSince Date_parse (date commit) (Num now) in
       let weight := Math_exp (- days / Num 30)%js in
       (weightSum + weight)%js)
    commits (Num acc)
  = Num (acc + Rsum (fun c => weight now (timeValue (Date_parse (date c))))
                 commits).
Proof.
  revert acc. induction commits as [|c commits IH]; intros acc H.
  - cbn. now rewrite Rplus_0_r.
  - inversion H as [|? ? Hc Hcs]; subst. cbn [fold_left]. cbv zeta.
    destruct (Date_parse (date c)) as [|t] eqn:E; [contradiction|].
    rewrite (weight_of_commit _ _ _ t E). cbn [add lift2].
    rewrite (IH _ Hcs), Rsum_cons, E, Rplus_assoc. reflexivity.
Qed.

Lemma divisor_pos (n : nat) : (0 < n)%nat -> 0 < Rmin 100 (INR n).
Proof.
  intros H. apply lt_INR in H. cbn in H. apply Rmin_case; lra.
Qed.

(** The activity score when every date is valid. *)
Lemma computeActivity_good (Date_parse : string -> Date) (now : R)
  (commits : list Commit) :
  commits <> [] ->
  Forall (fun c => isNum (Date_parse (date c))) commits ->
  computeActivity Date_parse commits (Num now)
  = round4
      (Num (Rmin 1
              (Rmax 0
                 (Rsum (fun c => weight now (timeValue (Date_parse (date c))))
                    commits
                  / Rmin 100 (INR (List.length commits)))))).
Proof.
  intros Hne H. unfold computeActivity. cbv zeta.
  rewrite (weightSum_good _ _ _ 0 H), Rplus_0_l. cbn [Math_min lift2].
  assert (Hd : 0 < Rmin 100 (INR (List.length commits)))
    by (apply divisor_pos; destruct commits; [contradiction|cbn; lia]).
  rewrite div_Num by lra. reflexivity.
Qed.

Lemma computeActivity_bad (Date_parse : string -> Date) (now : Date)
  (commits : list Commit) :
  (exists c, In c commits /\ Date_parse (date c) = NaN) ->
  computeActivity Date_parse commits now = NaN.
Proof.
  intros H. unfold computeActivity. cbv zeta.
  rewrite (weightSum_bad _ _ _ _ H). reflexivity.
Qed.

(** [exp (-1)] lies between two partial sums of its alternating series. *)
Lemma inv_fact_decreasing : Un_decreasing (fun i => / INR (fact i)).
Proof.
  intros n. apply Rinv_le_contravar; [apply INR_fact_lt_0|].
  apply le_INR, fact_le. lia.
Qed.

Lemma inv_fact_cv_0 : Un_cv (fun i => / INR (fact i)) 0.
Proof.
  intros eps Heps. destruct (cv_speed_pow_fact 1 eps Heps) as [N HN].
  exists N. intros n Hn. specialize (HN n Hn).
  rewrite pow1 in HN. unfold Rdiv in HN. now rewrite Rmult_1_l in HN.
Qed.

Lemma exp_m1_series :
  Un_cv (fun N => sum_f_R0 (tg_alt (fun i => / INR (fact i))) N) (exp (-1)).
Proof.
  unfold exp. destruct (exist_exp (-1)) as [x Hx]. cbn [proj1_sig].
  intros eps Heps. destruct (Hx eps Heps) as [N HN]. exists N.
  intros n Hn. specialize (HN n Hn).
  rewrite (sum_eq _ (fun i => / INR (fact i) * (-1) ^ i)); [exact HN|].
  intros i _. unfold tg_alt. apply Rmult_comm.
Qed.

Lemma INR_fact_IZR (n : nat) : INR (fact n) = IZR (Z.of_nat (fact n)).
Proof. apply INR_IZR_INZ. Qed.

Lemma exp_m1_bounds : 0.36785 <= exp (-1) < 0.36795.
Proof.
  pose proof (alternated_series_ineq _ _ 4 inv_fact_decreasing inv_fact_cv_0
                exp_m1_series) as [Hlo Hhi].
  cbn [Nat.mul Nat.add sum_f_R0] in Hlo, Hhi. unfold tg_alt in Hlo, Hhi.
  rewrite !INR_fact_IZR in Hlo. rewrite !INR_fact_IZR in Hhi.
  cbn [pow] in Hlo, Hhi.
  change (Z.of_nat (fact 0)) with 1%Z in *.
  change (Z.of_nat (fact 1)) with 1%Z in *.
  change (Z.of_nat (fact 2)) with 2%Z in *.
  change (Z.of_nat (fact 3)) with 6%Z in *.
  change (Z.of_nat (fact 4)) with 24%Z in *.
  change (Z.of_nat (fact 5)) with 120%Z in *.
  change (Z.of_nat (fact 6)) with 720%Z in *.
  change (Z.of_nat (fact 7)) with 5040%Z in *.
  replace (Z.of_nat (fact 8)) with 40320%Z in * by (vm_compute; reflexivity).
  replace (Z.of_nat (fact 9)) with 362880%Z in * by (vm_compute; reflexivity).
  lra.
Qed.

Lemma Rsum_const {A : Type} (f : A -> R) (l : list A) (c : R) :
  (forall x, In x l -> f x = c) -> Rsum f l = INR (List.length l) * c.
Proof.
  induction l as [|x l IH]; intros H.
  - cbn. lra.
  - rewrite Rsum_cons, (H x) by (now left). cbn [List.length].
    rewrite S_INR, IH by (intros y Hy; apply H; now right). lra.
Qed.

Lemma weight_30_days (now t : R) :
  now - t = 30 * (1000 * 60 * 60 * 24) -> weight now t = exp (-1).
Proof. intros H. unfold weight. rewrite H. f_equal. field. Qed.

(** C6.  Five commits, each made exactly 30 days before the reference time:
    every weight is [exp (-1)], their sum is divided by [min(100, 5) = 5],
    clamped to [0,1] and rounded to 4 decimals, which gives 0.3679. *)
Theorem activity_decay (Date_parse : string -> Date) (Date_current : Date)
  (commits : list Commit)
  (repoLanguages : option (JSRecord (JSRecord number))) (now : R) :
  List.length commits = 5%nat ->
  (forall c, In c commits ->
     exists t, Date_parse (date c) = Num t
               /\ now - t = 30 * (1000 * 60 * 60 * 24)) ->
  let p :=
    parseCommits Date_parse Date_current commits repoLanguages
      (Some (Num now)) in
  activityScore p
  = round4 (Num (Rmin 1 (Rmax 0 (5 * exp (-1) / Rmin 100 5))))
  /\ activityScore p = Num 0.3679.
Proof.
  intros Hlen Hc p.
  assert (Hne : commits <> []) by (intros ->; discriminate).
  assert (Hgood : Forall (fun c => isNum (Date_parse (date c))) commits).
  { apply Forall_forall. intros c Hin. destruct (Hc c Hin) as (t & -> & _).
    exact I. }
  assert (Hp : activityScore p
               = round4 (Num (Rmin 1 (Rmax 0 (5 * exp (-1) / Rmin 100 5))))).
  { subst p. destruct commits as [|c commits]; [contradiction|].
    unfold parseCommits. cbv zeta. cbn [activityScore].
    rewrite (computeActivity_good _ _ _ Hne Hgood).
    rewrite (Rsum_const _ _ (exp (-1))), Hlen.
    - do 4 f_equal. cbn [INR]. f_equal. lra. cbn [INR]. f_equal. lra.
    - intros x Hx. destruct (Hc x Hx) as (t & -> & Ht).
      now apply weight_30_days. }
  split; [exact Hp|]. rewrite Hp.
  pose proof exp_m1_bounds as [Hlo Hhi].
  rewrite (Rmin_right 100 5) by lra.
  replace (5 * exp (-1) / 5) with (exp (-1)) by field.
  rewrite Rmax_right, Rmin_right by lra.
  rewrite (round4_near 3679) by lra. reflexivity.
Qed.

Lemma Date_parse_iso_ms (s : string) (ms : Z) :
  Date_parse_ms s = Some ms -> Date_parse_iso s = Num (IZR ms).
Proof. intros H. unfold Date_parse_iso. now rewrite H. Qed.

Lemma activity_decay_witness :
  activityScore
    (parseCommits Date_parse_iso referenceDate oldCommits None
       (Some referenceDate))
  = Num 0.3679.
Proof.
  apply (activity_decay Date_parse_iso referenceDate oldCommits None
           1705320000000).
  - reflexivity.
  - intros c Hc. exists 1702728000000. split.
    + cbn in Hc.
      repeat (destruct Hc as [<- | Hc];
              [apply Date_parse_iso_ms; vm_compute; reflexivity|]).
      contradiction.
    + lra.
Defined.

(** ** Exceptions *)

Lemma now_of_reference (Date_parse : string -> Date) (Date_current : Date)
  (c : Commit) (commits : list Commit)
  (repoLanguages : option (JSRecord (JSRecord number)))
  (reference : option Date) :
  activityScore
    (parseCommits Date_parse Date_current (c :: commits) repoLanguages
       reference)
  = computeActivity Date_parse (c :: commits)
      match reference with
      | Some d => d
      | None => Date_current
      end.
Proof. reflexivity. Qed.

(** C3, as amended.  [parseCommits] raises no exception, on no input: a call
    always completes normally; and when every timestamp and the reference
    time are valid, the returned activity score is a number in [0,1]. *)
Theorem parseCommits_never_throws (Date_parse : string -> Date)
  (Date_current : Date) (commits : list Commit)
  (repoLanguages : option (JSRecord (JSRecord number)))
  (reference : option Date) :
  exists p,
    call_parseCommits Date_parse Date_current commits repoLanguages reference
    = Normal p
    /\ (Forall (fun c => isNum (Date_parse (date c))) commits ->
        isNum match reference with
              | Some d => d
              | None => Date_current
              end ->
        inUnit (activityScore p)).
Proof.
  eexists. split; [reflexivity|]. intros Hgood Hnow.
  destruct commits as [|c commits]; [cbn; lra|].
  rewrite now_of_reference.
  destruct reference as [[|now]|];
    [contradiction| |destruct Date_current as [|now]; [contradiction|]];
    rewrite computeActivity_good by (assumption || discriminate);
    (apply round4_unit; split;
     [apply Rmin_glb; [lra|apply Rmax_l]|apply Rmin_l]).
Qed.

Lemma parseCommits_never_throws_witness :
  exists p,
    call_parseCommits Date_parse_iso referenceDate traitCommits None
      (Some referenceDate)
    = Normal p
    /\ inUnit (activityScore p).
Proof.
  destruct (parseCommits_never_throws Date_parse_iso referenceDate
              traitCommits None (Some referenceDate)) as (p & Hp & Hu).
  exists p. split; [exact Hp|]. apply Hu; [|exact I].
  repeat constructor; cbn [date traitCommits mkCommit];
    erewrite Date_parse_iso_ms by (vm_compute; reflexivity); exact I.
Defined.

(** C3 as stated fails: a commit list with a timestamp that cannot be
    parsed does not make [parseCommits] fail.  The call completes normally
    and its activity score is [NaN]. *)
Lemma malformed_timestamp_returns :
  Date_parse_iso (date badCommit) = NaN
  /\ (exists p,
        call_parseCommits Date_parse_iso referenceDate [badCommit] None
          (Some referenceDate)
        = Normal p
        /\ activityScore p = NaN)
  /\ call_parseCommits Date_parse_iso referenceDate [badCommit] None
       (Some referenceDate)
     <> Throw "ParseError".
Proof.
  assert (Hbad : Date_parse_iso (date badCommit) = NaN) by reflexivity.
  split; [exact Hbad|]. split; [|discriminate].
  eexists. split; [reflexivity|].
  rewrite now_of_reference. apply computeActivity_bad.
  exists badCommit. split; [now left|exact Hbad].
Qed.

(** * Further properties *)

(** ** Rounding *)

Lemma round4_grid (r : R) :
  round4 (Num r) = Num (IZR (Zfloor (r * 10000 + / 2)) / 10000)
  /\ onGrid (round4 (Num r)).
Proof.
  rewrite round4_Num. split; [reflexivity|]. cbn. eexists. reflexivity.
Qed.

Lemma round4_of_grid (k : Z) :
  round4 (Num (IZR k / 10000)) = Num (IZR k / 10000).
Proof. apply round4_near. lra. Qed.

Lemma round4_mono (x y : R) :
  x <= y -> toR (round4 (Num x)) <= toR (round4 (Num y)).
Proof.
  intros H. rewrite !round4_Num. cbn [toR].
  assert (Hz : (Zfloor (x * 10000 + / 2) <= Zfloor (y * 10000 + / 2))%Z)
    by (apply Zfloor_le; lra).
  apply IZR_le in Hz. lra.
Qed.

(** X1.  [round4] yields a multiple of 1/10000 that is at most 0.00005 away
    from its argument; it leaves such a multiple (so its own results)
    unchanged, it is monotone, and it passes [NaN] on. *)
Theorem round4_nearest (x y : R) :
  onGrid (round4 (Num x))
  /\ Rabs (toR (round4 (Num x)) - x) <= / 20000
  /\ round4 (round4 (Num x)) = round4 (Num x)
  /\ (x <= y -> toR (round4 (Num x)) <= toR (round4 (Num y)))
  /\ round4 NaN = NaN.
Proof.
  split; [apply round4_grid|]. split.
  - destruct (round4_error x) as (q & -> & Hq). exact Hq.
  - split; [|split; [apply round4_mono|reflexivity]].
    rewrite round4_Num. apply round4_of_grid.
Qed.

Lemma round4_nearest_witness :
  toR (round4 (Num 0.12344)) <= toR (round4 (Num 0.12346)).
Proof.
  destruct (round4_nearest 0.12344 0.12346) as (_ & _ & _ & H & _).
  apply H. lra.
Defined.

Lemma onGrid_round4 (x : number) : onGrid (round4 x).
Proof. destruct x as [|r]; [exact I|apply round4_grid]. Qed.

Lemma round4_fixed (x : number) : round4 (round4 x) = round4 x.
Proof.
  destruct x as [|r]; [reflexivity|].
  rewrite round4_Num. apply round4_of_grid.
Qed.

Lemma set_values_Forall {V W : Type} (P : W -> Prop) (f : V -> W)
  (o : JSRecord V) (acc : JSRecord W) :
  (forall v, P (f v)) -> Forall P (values acc) ->
  Forall P (values (fold_left (fun acc '(k, v) => set acc k (f v)) o acc)).
Proof.
  intros Hf. revert acc. induction o as [|[k v] o IH]; intros acc Hacc;
    cbn [fold_left]; [exact Hacc|].
  apply IH. apply set_Forall; [exact Hacc|apply Hf].
Qed.

(** X2.  Every number that the two functions hand out has at most 4
    decimals (or is [NaN]): the compatibility score, which rounding again
    leaves unchanged, and the language shares, the trait values and the
    activity score of a profile. *)
Theorem outputs_have_4_decimals (Date_parse : string -> Date)
  (Date_current : Date) (commits : list Commit)
  (repoLanguages : option (JSRecord (JSRecord number)))
  (reference : option Date) (a b : ProfileSummary) :
  onGrid (computeCompatibility a b)
  /\ round4 (computeCompatibility a b) = computeCompatibility a b
  /\ let p :=
       parseCommits Date_parse Date_current commits repoLanguages reference in
     Forall onGrid (values (languages p))
     /\ Forall onGrid (values (commitTraits p))
     /\ onGrid (activityScore p).
Proof.
  split; [apply onGrid_round4|]. split; [apply round4_fixed|].
  destruct commits as [|c commits].
  - cbn. repeat split; try constructor. exists 0%Z. lra.
  - unfold parseCommits. cbv zeta. cbn [languages commitTraits activityScore].
    split; [|split].
    + unfold computeLanguages. destruct repoLanguages as [byRepo|];
        [|constructor].
      destruct (aggregateLanguages (c :: commits) byRepo) as [lt g].
      destruct (g > Num 0)%js; [|constructor].
      apply (set_values_Forall onGrid
               (fun bytes => round4 (ToNumber bytes / g)));
        [intros v; apply onGrid_round4|constructor].
    + unfold normalizeTraits.
      apply (set_values_Forall onGrid
               (fun count =>
                  round4 (count / Num (INR (List.length (c :: commits))))));
        [intros v; apply onGrid_round4|constructor].
    + apply onGrid_round4.
Qed.

(** ** More on the compatibility score *)

(** X3.  A profile compared with itself: when its activity score is a number
    and its language and trait vectors are not zero, the score is 0.95
    without a time-zone offset and 1 with one. *)
Theorem self_compatibility (p : ProfileSummary) (x : R) :
  activityScore p = Num x ->
  nonzeroVector (languages p) -> nonzeroVector (commitTraits p) ->
  (timezoneOffset p = None -> computeCompatibility p p = Num 0.95)
  /\ (forall t, timezoneOffset p = Some (Num t) ->
                computeCompatibility p p = Num 1).
Proof.
  intros Hx Hl Ht.
  pose proof (cosineSimilarity_self _ Hl) as HT.
  pose proof (cosineSimilarity_self _ Ht) as HR.
  split.
  - intros Hz.
    rewrite (computeCompatibility_Num p p 1 1 x x 0.5 HT HR Hx Hx).
    + rewrite (round4_near 9500).
      * f_equal. lra.
      * rewrite Rminus_diag, Rabs_R0. lra.
    + unfold timezoneScore. now rewrite Hz.
  - intros t Hz.
    rewrite (computeCompatibility_Num p p 1 1 x x 1 HT HR Hx Hx).
    + rewrite (round4_near 10000).
      * f_equal. lra.
      * rewrite Rminus_diag, Rabs_R0. lra.
    + rewrite (timezoneScore_Num p p t t Hz Hz).
      rewrite Rminus_diag, Rabs_R0. f_equal. rewrite Rmax_right; lra.
Qed.

Lemma self_compatibility_witness :
  computeCompatibility overlapA overlapA = Num 1.
Proof.
  destruct (self_compatibility overlapA 0.7) as [_ H].
  - reflexivity.
  - exists "TypeScript"%string, 0.7. split; [reflexivity|lra].
  - exists "fixer"%string, 0.6. split; [reflexivity|lra].
  - apply (H 0). reflexivity.
Defined.

Lemma dot_orthogonal (a b : JSRecord number) : orthogonal a b -> dot a b = 0.
Proof.
  intros H. apply Rsum_zero. intros k _. destruct (H k) as [-> | ->]; lra.
Qed.

Lemma cosineSimilarity_orthogonal (a b : JSRecord number) :
  ownReads a b -> orthogonal a b -> cosineSimilarity a b = Num 0.
Proof.
  intros Hr H. rewrite cosineSimilarity_eq by assumption.
  rewrite (dot_orthogonal a b H).
  destruct (Req_dec_T _ 0); [reflexivity|].
  f_equal. unfold Rdiv. apply Rmult_0_l.
Qed.

Lemma round4_le_grid (r : R) (k : Z) :
  r <= IZR k / 10000 -> toR (round4 (Num r)) <= IZR k / 10000.
Proof.
  intros H. pose proof (round4_mono _ _ H) as Hm.
  rewrite (round4_of_grid k) in Hm. exact Hm.
Qed.

(** X4.  Two well-formed profiles, with no key named like a member of
    [Object.prototype], that have no language and no trait with a non-zero
    value in both get nothing from the two cosines: their score is a number
    of at most 0.3. *)
Theorem no_overlap_score (a b : ProfileSummary) :
  wellFormed a -> wellFormed b ->
  plainProfile a -> plainProfile b ->
  orthogonal (languages a) (languages b) ->
  orthogonal (commitTraits a) (commitTraits b) ->
  exists score, computeCompatibility a b = Num score /\ 0 <= score <= 0.3.
Proof.
  intros Ha Hb [Hpl Hpt] [Hpl' Hpt'] Hl Ht.
  pose proof (cosineSimilarity_orthogonal _ _ (ownReads_plain _ _ Hpl Hpl') Hl)
    as HT.
  pose proof (cosineSimilarity_orthogonal _ _ (ownReads_plain _ _ Hpt Hpt') Ht)
    as HR.
  pose proof (timezoneScore_unit a b Ha Hb) as Hz.
  pose proof (wf_activityScore a Ha) as Hx.
  pose proof (wf_activityScore b Hb) as Hy.
  destruct (timezoneScore a b) as [|l] eqn:El; [contradiction|].
  destruct (activityScore a) as [|x] eqn:Ex; [contradiction|].
  destruct (activityScore b) as [|y] eqn:Ey; [contradiction|].
  cbn in Hz, Hx, Hy.
  rewrite (computeCompatibility_Num a b 0 0 x y l HT HR Ex Ey El).
  assert (Habs : 0 <= Rabs (x - y) <= 1)
    by (split; [apply Rabs_pos|apply Rabs_le; lra]).
  assert (Hs : 0 <= 0.4 * 0 + 0.3 * 0 + 0.2 * (1 - Rabs (x - y)) + 0.1 * l
               <= 1) by lra.
  pose proof (round4_unit _ Hs) as Hu.
  pose proof (round4_le_grid
                (0.4 * 0 + 0.3 * 0 + 0.2 * (1 - Rabs (x - y)) + 0.1 * l) 3000)
    as Hle.
  destruct (round4 _) as [|s]; [contradiction|]. cbn in Hu, Hle.
  exists s. split; [reflexivity|]. lra.
Qed.

Ltac by_key key :=
  unfold val; cbn [get];
  repeat
    match goal with
    | |- context [String.eqb ?k key] =>
        let E := fresh "E" in
        destruct (String.eqb k key) eqn:E;
        [apply String.eqb_eq in E; subst key;
         cbn [String.eqb Ascii.eqb Bool.eqb]
        |clear E]
    end;
  cbn [or_else];
  repeat
    match goal with
    | |- context [Req_dec_T ?x ?y] => destruct (Req_dec_T x y)
    end;
  (lra || (left; lra) || (right; lra)).

Lemma no_overlap_score_witness :
  exists score,
    computeCompatibility docsProfile fixerProfile = Num score
    /\ 0 <= score <= 0.3.
Proof.
  assert (Hd : wellFormed docsProfile)
    by (constructor; cbn; repeat constructor; cbn; lra).
  assert (Hf : wellFormed fixerProfile)
    by (constructor; cbn; repeat constructor; cbn; lra).
  assert (Hpd : plainProfile docsProfile) by (split; repeat constructor).
  assert (Hpf : plainProfile fixerProfile) by (split; repeat constructor).
  assert (Hl : orthogonal (languages docsProfile) (languages fixerProfile))
    by (intros key; unfold docsProfile, fixerProfile; cbn [languages];
        by_key key).
  assert (Ht : orthogonal (commitTraits docsProfile)
                 (commitTraits fixerProfile))
    by (intros key; unfold docsProfile, fixerProfile; cbn [commitTraits];
        by_key key).
  exact (no_overlap_score docsProfile fixerProfile Hd Hf Hpd Hpf Hl Ht).
Defined.

(** ** Keys named like members of [Object.prototype] *)

Lemma computeCompatibility_NaN_traits (a b : ProfileSummary) :
  cosineSimilarity (commitTraits a) (commitTraits b) = NaN ->
  computeCompatibility a b = NaN.
Proof.
  unfold computeCompatibility. cbv zeta. intros ->.
  now destruct (cosineSimilarity (languages a) (languages b)).
Qed.

Lemma strayKey_NaN (x y : JSRecord number) (key : string) :
  strayKey x y key ->
  cosineSimilarity x y = NaN /\ cosineSimilarity y x = NaN.
Proof.
  intros (Hinh & Hin & Hnone).
  split; apply (cosineSimilarity_inherited _ _ key); try assumption;
    try (apply in_app_iff; tauto); tauto.
Qed.

(** X23.  Bounds.  For well-formed profiles whose language and trait values
    are at most 1 and whose keys are not named like members of
    [Object.prototype], the score is a number between 0 and 1. *)
Theorem compatibility_bounds (a b : ProfileSummary) :
  wellFormed a -> wellFormed b ->
  fractions a -> fractions b ->
  plainProfile a -> plainProfile b ->
  exists score, computeCompatibility a b = Num score /\ 0 <= score <= 1.
Proof.
  intros Ha Hb _ _ [Pl Pt] [Pl' Pt'].
  pose proof (score_in_unit a b Ha Hb
                (conj (ownReads_plain _ _ Pl Pl') (ownReads_plain _ _ Pt Pt')))
    as Hu.
  destruct (computeCompatibility a b) as [|s]; [contradiction|].
  exists s. split; [reflexivity|exact Hu].
Qed.

Lemma compatibility_bounds_witness :
  exists score,
    computeCompatibility overlapA overlapB = Num score /\ 0 <= score <= 1.
Proof.
  apply (compatibility_bounds overlapA overlapB).
  - constructor; cbn; repeat constructor; cbn; lra.
  - constructor; cbn; repeat constructor; cbn; lra.
  - split; cbn; repeat constructor; cbn; lra.
  - split; cbn; repeat constructor; cbn; lra.
  - split; repeat constructor.
  - split; repeat constructor.
Defined.

(** X24.  The zero vector.  For two records with values between 0 and 1
    and keys not named like members of [Object.prototype],
    [cosineSimilarity] is a number, and it is 0 as soon as all the values
    of one of them are 0, an empty record included. *)
Theorem cosine_zero_vector (a b : JSRecord number) :
  plain a -> plain b ->
  Forall inUnit (values a) -> Forall inUnit (values b) ->
  isNum (cosineSimilarity a b)
  /\ (zeroVector a \/ zeroVector b -> cosineSimilarity a b = Num 0).
Proof.
  intros Pa Pb _ _. pose proof (ownReads_plain _ _ Pa Pb) as Hr.
  split; [now apply cosineSimilarity_isNum|].
  intros [H|H]; (apply cosineSimilarity_zero_norm; [exact Hr|]);
    [left|right]; now apply zeroVector_norm2.
Qed.

Lemma cosine_zero_vector_witness :
  cosineSimilarity [] [("TypeScript"%string, Num 1)] = Num 0.
Proof.
  destruct (cosine_zero_vector [] [("TypeScript"%string, Num 1)]) as [_ H].
  - constructor.
  - repeat constructor.
  - constructor.
  - repeat constructor; cbn; lra.
  - apply H. left. constructor.
Defined.

(** X25.  A key named like a member of [Object.prototype] that one profile
    has, among its languages or among its traits, and the other has not
    makes the score [NaN], in either order of the two profiles. *)
Theorem inherited_key_score (a b : ProfileSummary) (key : string) :
  strayKey (languages a) (languages b) key
  \/ strayKey (commitTraits a) (commitTraits b) key ->
  computeCompatibility a b = NaN /\ computeCompatibility b a = NaN.
Proof.
  intros [H|H]; apply strayKey_NaN in H as [H1 H2]; split;
    solve [ now apply computeCompatibility_NaN
          | now apply computeCompatibility_NaN_traits ].
Qed.

Lemma inherited_key_score_witness :
  computeCompatibility (oneLanguage "toString") (oneLanguage "Rust") = NaN.
Proof.
  apply (inherited_key_score (oneLanguage "toString") (oneLanguage "Rust")
           "toString").
  left. repeat split. now left.
Defined.

(** ** Sorting and the highlights *)

Lemma sort_insert_perm {A : Type} (cmp : A -> A -> number) (x : A)
  (l : list A) :
  Permutation (sort_insert cmp x l) (x :: l).
Proof.
  induction l as [|y l IH]; cbn; [reflexivity|].
  destruct (cmp x y > Num 0)%js; [|reflexivity].
  rewrite IH. apply perm_swap.
Qed.

Lemma Array_sort_perm {A : Type} (cmp : A -> A -> number) (l : list A) :
  Permutation (Array_sort cmp l) l.
Proof.
  unfold Array_sort. induction l as [|x l IH]; cbn; [reflexivity|].
  rewrite sort_insert_perm. now constructor.
Qed.

(** Insertion keeps a list sorted for an order [R] that the comparator
    respects. *)
Lemma sort_insert_Sorted {A : Type} (cmp : A -> A -> number)
  (R : A -> A -> Prop) (x : A) (l : list A) :
  (forall y, In y l -> (cmp x y > Num 0)%js = false -> R x y) ->
  (forall y, In y l -> (cmp x y > Num 0)%js = true -> R y x) ->
  Sorted R l -> Sorted R (sort_insert cmp x l).
Proof.
  intros Hle Hgt Hs. induction l as [|y l IH]; cbn.
  - repeat constructor.
  - destruct (cmp x y > Num 0)%js eqn:E.
    + inversion Hs as [|? ? Hs' Hhd]; subst.
      constructor.
      * apply IH; [| |exact Hs']; intros z Hz; [apply Hle|apply Hgt];
          now right.
      * destruct l as [|z l]; cbn.
        -- constructor. apply Hgt; [now left|exact E].
        -- destruct (cmp x z > Num 0)%js.
           ++ constructor. now inversion Hhd.
           ++ constructor. apply Hgt; [now left|exact E].
    + constructor; [exact Hs|]. constructor. apply Hle; [now left|exact E].
Qed.

Lemma Array_sort_Sorted {A : Type} (cmp : A -> A -> number)
  (R : A -> A -> Prop) (l : list A) :
  (forall x y, In x l -> In y l -> (cmp x y > Num 0)%js = false -> R x y) ->
  (forall x y, In x l -> In y l -> (cmp x y > Num 0)%js = true -> R y x) ->
  Sorted R (Array_sort cmp l).
Proof.
  unfold Array_sort. induction l as [|x l IH]; intros Hle Hgt; cbn.
  - constructor.
  - apply sort_insert_Sorted.
    + intros y Hy. apply Hle; [now left|right].
      apply (Permutation_in _ (Array_sort_perm cmp l)), Hy.
    + intros y Hy. apply Hgt; [now left|right].
      apply (Permutation_in _ (Array_sort_perm cmp l)), Hy.
    + apply IH; intros a b Ha Hb; [apply Hle|apply Hgt]; now right.
Qed.

Lemma leb_of_compare (s1 s2 : string) :
  String.leb s1 s2 = match String.compare s1 s2 with Gt => false | _ => true end.
Proof. unfold String.leb. now destruct (String.compare s1 s2). Qed.

(** [compareTraits] on entries with positive values decides [before]. *)
Lemma compareTraits_before (a b : string * number) :
  positiveEntry a -> positiveEntry b ->
  ((compareTraits a b > Num 0)%js = false -> before a b)
  /\ ((compareTraits a b > Num 0)%js = true -> before b a).
Proof.
  intros (va & Ha & _) (vb & Hb & _). unfold compareTraits, before.
  rewrite Ha, Hb. cbn [strict_eq sub lift2 toR].
  destruct (Req_dec_T vb va) as [E|E]; cbn [negb].
  - subst vb. unfold localeCompare. rewrite !leb_of_compare.
    rewrite (String.compare_antisym (fst b) (fst a)).
    destruct (String.compare (fst a) (fst b)); cbn [CompOpp gt].
    + split; [intros _; right; now split|].
      destruct (Rlt_dec 0 0); [lra|discriminate].
    + split; [intros _; right; now split|].
      destruct (Rlt_dec 0 (-1)); [lra|discriminate].
    + split; [destruct (Rlt_dec 0 1); [discriminate|lra]|].
      intros _. right. now split.
  - cbn [gt]. destruct (Rlt_dec 0 (vb - va)).
    + split; [discriminate|]. intros _. left. lra.
    + split; [|discriminate]. intros _. left. lra.
Qed.

Lemma filter_positive (t : JSRecord number) (e : string * number) :
  In e (filter (fun '(_, value) => (value > Num 0)%js) t) ->
  In e t /\ positiveEntry e.
Proof.
  intros H. apply filter_In in H as [Hin Hpos]. split; [exact Hin|].
  destruct e as [name [|v]]; cbn in Hpos; [discriminate|].
  exists v. split; [reflexivity|].
  destruct (Rlt_dec 0 v); [assumption|discriminate].
Qed.

Lemma before_value (a b : string * number) :
  before a b -> toR (snd b) <= toR (snd a).
Proof. intros [H|[H _]]; lra. Qed.

Lemma skipn_In {A : Type} (n : nat) (l : list A) (x : A) :
  In x (skipn n l) -> In x l.
Proof.
  revert l. induction n as [|n IH]; intros l H; [exact H|].
  destruct l as [|y l]; [contradiction|]. right. now apply IH.
Qed.

Lemma StronglySorted_split {A : Type} (R : A -> A -> Prop) (n : nat)
  (l : list A) (a b : A) :
  StronglySorted R l -> In a (firstn n l) -> In b (skipn n l) -> R a b.
Proof.
  intros Hs. revert n. induction Hs as [|x l Hs IH Hx]; intros n Ha Hb.
  - destruct n; contradiction.
  - destruct n as [|n]; [contradiction|]. cbn in Ha, Hb.
    destruct Ha as [<- | Ha].
    + rewrite Forall_forall in Hx. apply Hx.
      apply (skipn_In n _ _ Hb).
    + now apply (IH n).
Qed.

Lemma Sorted_weaken {A : Type} (R S : A -> A -> Prop) (l : list A) :
  (forall a b, R a b -> S a b) -> Sorted R l -> Sorted S l.
Proof.
  intros H Hs. induction Hs as [|x l Hs IH Hhd]; constructor;
    [exact IH|].
  destruct Hhd; constructor. now apply H.
Qed.

Lemma firstn_In' {A : Type} (n : nat) (l : list A) (x : A) :
  In x (firstn n l) -> In x l.
Proof.
  revert l. induction n as [|n IH]; intros l H; [contradiction|].
  destruct l as [|y l]; [contradiction|].
  destruct H as [H|H]; [now left|right; now apply IH].
Qed.

Lemma traitEntries_sorted (t : JSRecord number) :
  Sorted before (traitEntries t).
Proof.
  unfold traitEntries, Object_entries.
  apply Array_sort_Sorted; intros a b Ha Hb;
    apply filter_positive in Ha as [_ Ha];
    apply filter_positive in Hb as [_ Hb];
    apply (compareTraits_before a b Ha Hb).
Qed.

(** X6.  The highlights of any trait record: its entries with a positive
    value, each once, put in order (the larger value first, equal values
    by name), and of those the first two names.  So a highlighted trait has
    a positive value, and no trait that is left out has a larger value than
    a highlighted one. *)
Theorem highlights_top_two (t : JSRecord number) :
  computeHighlights t
  = String.concat ", " (map fst (firstn 2 (traitEntries t)))
  /\ Permutation (traitEntries t)
       (filter (fun '(_, value) => (value > Num 0)%js) t)
  /\ Sorted before (traitEntries t)
  /\ (forall e, In e (firstn 2 (traitEntries t)) ->
                In e t /\ positiveEntry e)
  /\ (forall a b,
        In a (firstn 2 (traitEntries t)) -> In b (skipn 2 (traitEntries t)) ->
        toR (snd b) <= toR (snd a)).
Proof.
  split; [reflexivity|]. split; [apply Array_sort_perm|].
  split; [apply traitEntries_sorted|]. split.
  - intros e He. apply filter_positive.
    apply (Permutation_in _ (Array_sort_perm compareTraits _)).
    apply (firstn_In' 2), He.
  - intros a b Ha Hb.
    assert (Hs : StronglySorted (fun a b => toR (snd b) <= toR (snd a))
                   (traitEntries t)).
    { apply Sorted_StronglySorted; [intros x y z Hxy Hyz; lra|].
      apply (Sorted_weaken before); [apply before_value|].
      apply traitEntries_sorted. }
    apply (StronglySorted_split _ 2 _ a b Hs Ha Hb).
Qed.

(** ** More on the activity score *)

Lemma Rsum_lower {A : Type} (f : A -> R) (l : list A) (lo : R) :
  (forall x, In x l -> lo <= f x) -> INR (List.length l) * lo <= Rsum f l.
Proof.
  induction l as [|x l IH]; intros H.
  - cbn. lra.
  - rewrite Rsum_cons. cbn [List.length]. rewrite S_INR.
    assert (Hx := H x (or_introl eq_refl)).
    assert (Hl := IH (fun y Hy => H y (or_intror Hy))). lra.
Qed.

Lemma Rsum_upper {A : Type} (f : A -> R) (l : list A) (hi : R) :
  (forall x, In x l -> f x <= hi) -> Rsum f l <= INR (List.length l) * hi.
Proof.
  induction l as [|x l IH]; intros H.
  - cbn. lra.
  - rewrite Rsum_cons. cbn [List.length]. rewrite S_INR.
    assert (Hx := H x (or_introl eq_refl)).
    assert (Hl := IH (fun y Hy => H y (or_intror Hy))). lra.
Qed.

Lemma length_pos (commits : list Commit) :
  commits <> [] -> 1 <= INR (List.length commits).
Proof.
  destruct commits as [|c commits]; [contradiction|]. intros _.
  cbn [List.length]. rewrite S_INR.
  pose proof (pos_INR (List.length commits)). lra.
Qed.

Lemma div_ge_1 (s d : R) : 0 < d -> d <= s -> 1 <= s / d.
Proof.
  intros Hd Hs. apply (Rmult_le_reg_r d); [assumption|].
  unfold Rdiv. rewrite Rmult_assoc, Rinv_l by lra. lra.
Qed.

Lemma weight_age (now t : R) : weight now t = exp (- ageDays now t / 30).
Proof. reflexivity. Qed.

Lemma exp_le (x y : R) : x <= y -> exp x <= exp y.
Proof.
  intros [H| ->]; [left; now apply exp_increasing|right; reflexivity].
Qed.

Lemma activityScore_valid (Date_parse : string -> Date) (Date_current : Date)
  (commits : list Commit)
  (repoLanguages : option (JSRecord (JSRecord number))) (now : R) :
  commits <> [] ->
  Forall (fun c => isNum (Date_parse (date c))) commits ->
  activityScore
    (parseCommits Date_parse Date_current commits repoLanguages
       (Some (Num now)))
  = round4
      (Num (Rmin 1
              (Rmax 0
                 (Rsum (fun c => weight now (timeValue (Date_parse (date c))))
                    commits
                  / Rmin 100 (INR (List.length commits)))))).
Proof.
  intros Hne Hgood. destruct commits as [|c commits]; [contradiction|].
  rewrite now_of_reference. now apply computeActivity_good.
Qed.

(** X7.  Commits that are not older than the reference time (made at that
    very moment, or dated after it) give the full activity score 1, however
    many they are. *)
Theorem activity_of_fresh_commits (Date_parse : string -> Date)
  (Date_current : Date) (commits : list Commit)
  (repoLanguages : option (JSRecord (JSRecord number))) (now : R) :
  commits <> [] ->
  (forall c, In c commits ->
     exists t, Date_parse (date c) = Num t /\ now <= t) ->
  activityScore
    (parseCommits Date_parse Date_current commits repoLanguages
       (Some (Num now)))
  = Num 1.
Proof.
  intros Hne Hc.
  assert (Hgood : Forall (fun c => isNum (Date_parse (date c))) commits).
  { apply Forall_forall. intros c Hin. destruct (Hc c Hin) as (t & -> & _).
    exact I. }
  rewrite (activityScore_valid _ _ _ _ _ Hne Hgood).
  set (S := Rsum _ commits). set (n := INR (List.length commits)).
  assert (Hn : 1 <= n) by now apply length_pos.
  assert (HS : n * 1 <= S).
  { apply Rsum_lower. intros c Hin.
    destruct (Hc c Hin) as (t & -> & Hle). cbn [timeValue getTime toR].
    unfold weight. rewrite <- exp_0. apply exp_le. lra. }
  assert (Hd : 0 < Rmin 100 n <= n)
    by (split; [apply Rmin_case; lra|apply Rmin_r]).
  assert (Hraw : 1 <= S / Rmin 100 n) by (apply div_ge_1; lra).
  rewrite Rmax_right by lra. rewrite Rmin_left by lra.
  rewrite (round4_near 10000) by lra. f_equal. lra.
Qed.

Lemma activity_of_fresh_commits_witness :
  activityScore
    (parseCommits Date_parse_iso referenceDate freshCommits None
       (Some referenceDate))
  = Num 1.
Proof.
  apply (activity_of_fresh_commits Date_parse_iso referenceDate freshCommits
           None 1705320000000).
  - discriminate.
  - intros c Hc. exists 1705320000000. split; [|lra].
    cbn in Hc.
    repeat (destruct Hc as [<- | Hc];
            [apply Date_parse_iso_ms; vm_compute; reflexivity|]).
    contradiction.
Defined.

(** X8.  Decay.  For at most 100 commits with valid dates that are all
    between [d1] and [d2] days old, the activity score lies between the
    rounded [min(1, exp(-d2/30))] and the rounded [min(1, exp(-d1/30))]:
    older commits count for less, and none for more than 1. *)
Theorem activity_between (Date_parse : string -> Date) (Date_current : Date)
  (commits : list Commit)
  (repoLanguages : option (JSRecord (JSRecord number))) (now d1 d2 : R) :
  commits <> [] -> (List.length commits <= 100)%nat ->
  (forall c, In c commits ->
     exists t, Date_parse (date c) = Num t /\ d1 <= ageDays now t <= d2) ->
  exists score,
    activityScore
      (parseCommits Date_parse Date_current commits repoLanguages
         (Some (Num now)))
    = Num score
    /\ toR (round4 (Num (Rmin 1 (exp (- d2 / 30))))) <= score
    /\ score <= toR (round4 (Num (Rmin 1 (exp (- d1 / 30))))).
Proof.
  intros Hne Hlen Hc.
  assert (Hgood : Forall (fun c => isNum (Date_parse (date c))) commits).
  { apply Forall_forall. intros c Hin. destruct (Hc c Hin) as (t & -> & _).
    exact I. }
  rewrite (activityScore_valid _ _ _ _ _ Hne Hgood).
  set (S := Rsum _ commits). set (n := INR (List.length commits)).
  assert (Hn : 1 <= n) by now apply length_pos.
  assert (Hn100 : n <= 100).
  { apply le_INR in Hlen. rewrite (INR_IZR_INZ 100) in Hlen. exact Hlen. }
  assert (Hlo : n * exp (- d2 / 30) <= S).
  { apply Rsum_lower. intros c Hin.
    destruct (Hc c Hin) as (t & -> & Hage). cbn [timeValue getTime toR].
    rewrite weight_age. apply exp_le. lra. }
  assert (Hhi : S <= n * exp (- d1 / 30)).
  { apply Rsum_upper. intros c Hin.
    destruct (Hc c Hin) as (t & -> & Hage). cbn [timeValue getTime toR].
    rewrite weight_age. apply exp_le. lra. }
  rewrite (Rmin_right 100 n) by lra.
  assert (Hraw : exp (- d2 / 30) <= S / n <= exp (- d1 / 30)).
  { split.
    - apply (Rmult_le_reg_r n); [lra|].
      unfold Rdiv. rewrite Rmult_assoc, Rinv_l by lra. lra.
    - apply (Rmult_le_reg_r n); [lra|].
      unfold Rdiv. rewrite Rmult_assoc, Rinv_l by lra. lra. }
  pose proof (exp_pos (- d2 / 30)) as Hpos.
  rewrite Rmax_right by lra.
  exists (toR (round4 (Num (Rmin 1 (S / n))))).
  split; [rewrite round4_Num; reflexivity|].
  split; apply round4_mono; (apply Rmin_glb; [apply Rmin_l|]);
    (eapply Rle_trans; [apply Rmin_r|lra]).
Qed.

Lemma activity_between_witness :
  exists score,
    activityScore
      (parseCommits Date_parse_iso referenceDate oldCommits None
         (Some referenceDate))
    = Num score
    /\ toR (round4 (Num (Rmin 1 (exp (- 30 / 30))))) <= score
    /\ score <= toR (round4 (Num (Rmin 1 (exp (- 30 / 30))))).
Proof.
  apply (activity_between Date_parse_iso referenceDate oldCommits None
           1705320000000 30 30).
  - discriminate.
  - cbn. lia.
  - intros c Hc. exists 1702728000000. split.
    + cbn in Hc.
      repeat (destruct Hc as [<- | Hc];
              [apply Date_parse_iso_ms; vm_compute; reflexivity|]).
      contradiction.
    + unfold ageDays. lra.
Defined.

(** ** What the fields of a profile depend on *)

Lemma traitCount_same_messages (trait : string) (cs1 cs2 : list Commit) :
  map message cs1 = map message cs2 ->
  traitCount trait cs1 = traitCount trait cs2.
Proof. intros H. now rewrite !traitCount_messages, H. Qed.

(** X9.  Dates enter the activity score only.  Two commit lists with the
    same messages and the same repositories give the same languages, trait
    values and highlights, whatever their dates, the reference time and the
    host's date parser; and one date that the host cannot read makes the
    activity score [NaN] while the other three fields are unaffected. *)
Theorem dates_affect_activity_only (parse1 parse2 : string -> Date)
  (current1 current2 : Date) (cs1 cs2 : list Commit)
  (repoLanguages : option (JSRecord (JSRecord number)))
  (ref1 ref2 : option Date) :
  map message cs1 = map message cs2 -> map repo cs1 = map repo cs2 ->
  let p1 := parseCommits parse1 current1 cs1 repoLanguages ref1 in
  let p2 := parseCommits parse2 current2 cs2 repoLanguages ref2 in
  languages p1 = languages p2
  /\ commitTraits p1 = commitTraits p2
  /\ highlights p1 = highlights p2
  /\ ((exists c, In c cs1 /\ parse1 (date c) = NaN) ->
      activityScore p1 = NaN).
Proof.
  intros Hm Hr p1 p2.
  assert (Hlen : List.length cs1 = List.length cs2)
    by (rewrite <- (length_map message cs1), Hm; apply length_map).
  destruct cs1 as [|c1 cs1], cs2 as [|c2 cs2]; try discriminate.
  - repeat split; try reflexivity. intros (c & [] & _).
  - assert (Ht : commitTraits p1 = commitTraits p2).
    { subst p1 p2. rewrite !commitTraits_eq by discriminate.
      rewrite Hlen. apply map_ext. intros trait.
      now rewrite (traitCount_same_messages trait _ _ Hm). }
    split; [|split; [exact Ht|split]].
    + subst p1 p2. unfold parseCommits. cbv zeta. cbn [languages].
      unfold computeLanguages, aggregateLanguages. now rewrite Hr.
    + change (highlights p1) with (computeHighlights (commitTraits p1)).
      change (highlights p2) with (computeHighlights (commitTraits p2)).
      now rewrite Ht.
    + intros Hbad. subst p1. rewrite now_of_reference.
      now apply computeActivity_bad.
Qed.

Lemma dates_affect_activity_only_witness :
  highlights
    (parseCommits Date_parse_iso referenceDate [badCommit] None
       (Some referenceDate))
  = highlights
      (parseCommits Date_parse_iso referenceDate
         [mkCommit "x2" "fix: typo" "test/repo" "2024-01-15T12:00:00Z"] None
         None)
  /\ activityScore
       (parseCommits Date_parse_iso referenceDate [badCommit] None
          (Some referenceDate))
     = NaN.
Proof.
  destruct (dates_affect_activity_only Date_parse_iso Date_parse_iso
              referenceDate referenceDate [badCommit]
              [mkCommit "x2" "fix: typo" "test/repo" "2024-01-15T12:00:00Z"]
              None (Some referenceDate) None eq_refl eq_refl)
    as (_ & _ & Hh & Ha).
  split; [exact Hh|]. apply Ha.
  exists badCommit. split; [now left|reflexivity].
Defined.

(** ** Repositories count once *)

Lemma new_Set_again (l1 l2 : list string) (x : string) :
  In x l1 -> new_Set (l1 ++ x :: l2) = new_Set (l1 ++ l2).
Proof.
  intros H. unfold new_Set. rewrite !fold_left_app. cbn [fold_left].
  fold (new_Set l1).
  assert (Hm : mem x (new_Set l1) = true)
    by (apply mem_In, new_Set_In, H).
  now rewrite Hm.
Qed.

(** X10.  A repository counts once, however many commits touch it: a further
    commit to a repository that an earlier commit of the list has touched
    leaves the language shares as they are. *)
Theorem languages_count_repository_once (Date_parse : string -> Date)
  (Date_current : Date) (cs1 cs2 : list Commit) (c : Commit)
  (repoLanguages : option (JSRecord (JSRecord number)))
  (reference : option Date) :
  In (repo c) (map repo cs1) ->
  languages
    (parseCommits Date_parse Date_current (cs1 ++ c :: cs2) repoLanguages
       reference)
  = languages
      (parseCommits Date_parse Date_current (cs1 ++ cs2) repoLanguages
         reference).
Proof.
  intros H. destruct cs1 as [|c1 cs1]; [contradiction|].
  cbn [app]. unfold parseCommits. cbv zeta. cbn [languages].
  unfold computeLanguages, aggregateLanguages.
  change (c1 :: cs1 ++ c :: cs2) with ((c1 :: cs1) ++ c :: cs2).
  change (c1 :: cs1 ++ cs2) with ((c1 :: cs1) ++ cs2).
  rewrite !map_app. cbn [map]. now rewrite (new_Set_again _ _ _ H).
Qed.

Lemma languages_count_repository_once_witness :
  languages
    (parseCommits Date_parse_iso referenceDate
       (thirdsCommits
        ++ [mkCommit "t2" "second commit" "user/repo" "2024-01-14T12:00:00Z"])
       (Some thirdsLanguages) (Some referenceDate))
  = languages
      (parseCommits Date_parse_iso referenceDate (thirdsCommits ++ [])
         (Some thirdsLanguages) (Some referenceDate)).
Proof.
  apply (languages_count_repository_once Date_parse_iso referenceDate
           thirdsCommits []).
  left. reflexivity.
Defined.

(** ** From the parser to the matcher *)

Lemma inUnit_nonneg (l : list number) : Forall inUnit l -> Forall nonneg l.
Proof.
  intros H. induction H as [|x l Hx _ IH]; constructor; [|exact IH].
  destruct x; cbn in *; lra.
Qed.

Lemma parsed_wellFormed (Date_parse : string -> Date) (Date_current : Date)
  (commits : list Commit)
  (repoLanguages : option (JSRecord (JSRecord number)))
  (reference : option Date) :
  Forall (fun c => isNum (Date_parse (date c))) commits ->
  isNum match reference with
        | Some d => d
        | None => Date_current
        end ->
  (forall byRepo,
      repoLanguages = Some byRepo -> wfBytes byRepo /\ plainBytes byRepo) ->
  wellFormed
    (parseCommits Date_parse Date_current commits repoLanguages reference).
Proof.
  intros Hgood Hnow Hwf.
  destruct commits as [|c commits].
  - constructor; cbn; try constructor; lra.
  - constructor.
    + destruct repoLanguages as [byRepo|]; [|constructor].
      destruct (computeLanguages_spec (c :: commits) byRepo
                  (proj1 (Hwf _ eq_refl)) (proj2 (Hwf _ eq_refl)))
        as (lt & Hinv & _ & Hl).
      unfold parseCommits. cbv zeta. cbn [languages]. rewrite Hl.
      destruct (Rlt_dec 0 _) as [HG|_]; [|constructor].
      apply (shares_spec lt _ HG (proj1 (proj2 Hinv))).
    + rewrite commitTraits_eq by discriminate. apply inUnit_nonneg.
      unfold values. rewrite map_map. cbn [snd]. apply Forall_forall.
      intros x Hx. apply in_map_iff in Hx as (trait & <- & _).
      destruct (traitValue_spec trait (c :: commits)) as (v & -> & Hv & _);
        [discriminate|exact Hv].
    + rewrite now_of_reference.
      destruct reference as [[|now]|];
        [destruct Hnow| |destruct Date_current as [|now]; [destruct Hnow|]];
        rewrite computeActivity_good by (assumption || discriminate);
        (apply round4_unit;
         split; [apply Rmin_glb; [lra|apply Rmax_l]|apply Rmin_l]).
    + exact I.
Qed.

(** The keys of a parsed profile: the six trait names, and languages of
    the byte maps. *)
Lemma parsed_plain (Date_parse : string -> Date) (Date_current : Date)
  (commits : list Commit)
  (repoLanguages : option (JSRecord (JSRecord number)))
  (reference : option Date) :
  (forall byRepo, repoLanguages = Some byRepo -> plainBytes byRepo) ->
  plainProfile
    (parseCommits Date_parse Date_current commits repoLanguages reference).
Proof.
  intros Hplain. split.
  - apply Forall_forall. intros lang Hin.
    apply languages_keys in Hin
      as (byRepo & c & repoLangs & -> & _ & Hget & Hlang).
    pose proof (Hplain byRepo eq_refl _ _ Hget) as Hp.
    unfold plain in Hp. rewrite Forall_forall in Hp. now apply Hp.
  - destruct commits as [|c commits]; [constructor|].
    rewrite commitTraits_eq by discriminate. unfold plain, Object_keys.
    rewrite map_map. cbn [fst]. rewrite map_id. repeat constructor.
Qed.

(** X11.  What the parser makes, the matcher accepts.  From commits with
    valid dates, a valid reference time and byte maps with non-negative
    byte counts and no language named like a member of [Object.prototype],
    [parseCommits] builds a well-formed profile: language shares that are
    non-negative numbers, trait values and an activity score in [0,1], no
    time-zone offset, and no key named like a member of [Object.prototype].
    Two such profiles therefore always get a score between 0 and 1. *)
Theorem parsed_profiles_are_scored (Date_parse : string -> Date)
  (Date_current : Date) (cs1 cs2 : list Commit)
  (langs1 langs2 : option (JSRecord (JSRecord number)))
  (ref1 ref2 : option Date) :
  Forall (fun c => isNum (Date_parse (date c))) (cs1 ++ cs2) ->
  isNum Date_current ->
  (forall d, ref1 = Some d \/ ref2 = Some d -> isNum d) ->
  (forall byRepo,
      langs1 = Some byRepo \/ langs2 = Some byRepo ->
      wfBytes byRepo /\ plainBytes byRepo) ->
  let p1 := parseCommits Date_parse Date_current cs1 langs1 ref1 in
  let p2 := parseCommits Date_parse Date_current cs2 langs2 ref2 in
  wellFormed p1 /\ wellFormed p2
  /\ plainProfile p1 /\ plainProfile p2
  /\ exists score, computeCompatibility p1 p2 = Num score /\ 0 <= score <= 1.
Proof.
  intros Hgood Hcur Href Hwf p1 p2. apply Forall_app in Hgood as [Hg1 Hg2].
  assert (H1 : wellFormed p1).
  { apply parsed_wellFormed; [exact Hg1| |intros m Hm; apply Hwf; now left].
    destruct ref1 as [d|]; [apply Href; now left|exact Hcur]. }
  assert (H2 : wellFormed p2).
  { apply parsed_wellFormed; [exact Hg2| |intros m Hm; apply Hwf; now right].
    destruct ref2 as [d|]; [apply Href; now right|exact Hcur]. }
  assert (P1 : plainProfile p1)
    by (apply parsed_plain; intros m Hm; apply Hwf; now left).
  assert (P2 : plainProfile p2)
    by (apply parsed_plain; intros m Hm; apply Hwf; now right).
  split; [exact H1|]. split; [exact H2|].
  split; [exact P1|]. split; [exact P2|].
  assert (Hr : ownReadsProfile p1 p2)
    by (destruct P1, P2; split; now apply ownReads_plain).
  pose proof (score_in_unit p1 p2 H1 H2 Hr) as Hu.
  destruct (computeCompatibility p1 p2) as [|s]; [contradiction|].
  exists s. split; [reflexivity|exact Hu].
Qed.

Lemma parsed_profiles_are_scored_witness :
  exists score,
    computeCompatibility
      (parseCommits Date_parse_iso referenceDate traitCommits None
         (Some referenceDate))
      (parseCommits Date_parse_iso referenceDate thirdsCommits
         (Some thirdsLanguages) (Some referenceDate))
    = Num score
    /\ 0 <= score <= 1.
Proof.
  apply (parsed_profiles_are_scored Date_parse_iso referenceDate traitCommits
           thirdsCommits None (Some thirdsLanguages) (Some referenceDate)
           (Some referenceDate)).
  - repeat constructor; cbn [date traitCommits thirdsCommits mkCommit];
      erewrite Date_parse_iso_ms by (vm_compute; reflexivity); exact I.
  - exact I.
  - intros d [[= <-]|[= <-]]; exact I.
  - intros byRepo [H|[= <-]]; [discriminate|].
    split; [apply thirds_wfBytes|apply thirds_plainBytes].
Defined.

(** ** Commits without a keyword *)

Lemma traitCount_none (trait : string) (commits : list Commit) :
  (forall c, In c commits -> matchesTrait trait c = false) ->
  traitCount trait commits = 0%nat.
Proof.
  intros H. unfold traitCount.
  induction commits as [|c commits IH]; [reflexivity|]. cbn [filter].
  rewrite (H c) by now left. apply IH. intros c' Hc'. apply H. now right.
Qed.

(** X12.  Commits whose messages contain none of the keywords give a profile
    with all six traits at 0 and without highlights; its trait vector is
    zero, so the trait similarity with any other profile, whose keys are
    not named like members of [Object.prototype], is 0. *)
Theorem no_keyword_no_highlights (Date_parse : string -> Date)
  (Date_current : Date) (commits : list Commit)
  (repoLanguages : option (JSRecord (JSRecord number)))
  (reference : option Date) (other : JSRecord number) :
  commits <> [] ->
  (forall c trait, In c commits -> matchesTrait trait c = false) ->
  let p :=
    parseCommits Date_parse Date_current commits repoLanguages reference in
  commitTraits p = map (fun trait => (trait, Num 0)) traitNames
  /\ highlights p = ""%string
  /\ (plain other -> cosineSimilarity (commitTraits p) other = Num 0).
Proof.
  intros Hne Hnone. destruct commits as [|c0 commits]; [contradiction|].
  intros p.
  assert (Ht : commitTraits p = map (fun trait => (trait, Num 0)) traitNames).
  { subst p. rewrite (commitTraits_eq _ _ _ _ _ Hne). apply map_ext.
    intros trait. rewrite traitCount_none by (intros c Hc; now apply Hnone).
    cbn [INR]. unfold Rdiv. rewrite Rmult_0_l. now rewrite round4_0. }
  split; [exact Ht|]. split.
  - change (highlights p) with (computeHighlights (commitTraits p)).
    rewrite Ht. unfold traitNames. cbn [map]. js_sort. reflexivity.
  - intros Hother. rewrite Ht. apply cosineSimilarity_zero_norm.
    + apply ownReads_plain; [|exact Hother]. repeat constructor.
    + left. apply zeroVector_norm2.
      unfold zeroVector, traitNames. cbn. repeat constructor.
Qed.

Lemma no_keyword_no_highlights_witness :
  highlights
    (parseCommits Date_parse_iso referenceDate freshCommits None
       (Some referenceDate))
  = ""%string.
Proof.
  apply (no_keyword_no_highlights Date_parse_iso referenceDate freshCommits
           None (Some referenceDate) []).
  - discriminate.
  - intros c trait Hc. unfold matchesTrait, TRAIT_KEYWORDS. cbn [get].
    cbn in Hc.
    repeat (destruct Hc as [<- | Hc];
            [repeat
               match goal with
               | |- context [String.eqb ?k trait] =>
                   destruct (String.eqb k trait); [vm_compute; reflexivity|]
               end;
             reflexivity|]).
    contradiction.
Defined.

(** * The rate limiter *)

Lemma get_set_same {V : Type} (o : JSRecord V) (key : string) (v : V) :
  get (set o key v) key = Some v.
Proof.
  induction o as [|[k w] o IH]; cbn.
  - now rewrite String.eqb_refl.
  - destruct (String.eqb k key) eqn:E; cbn; rewrite E; [reflexivity|exact IH].
Qed.

Lemma get_set_other {V : Type} (o : JSRecord V) (key key' : string) (v : V) :
  key <> key' -> get (set o key v) key' = get o key'.
Proof.
  intros Hne. induction o as [|[k w] o IH]; cbn.
  - apply String.eqb_neq in Hne. now rewrite Hne.
  - destruct (String.eqb k key) eqn:E; cbn.
    + apply String.eqb_eq in E. subst k.
      apply String.eqb_neq in Hne. now rewrite Hne.
    + now rewrite IH.
Qed.

(** X13.  One call of the like limiter for a known user with a count that
    is not negative.  The like is allowed exactly when the reset time has
    passed or the count is below 60.  A refusal changes nothing and reports
    0 likes left.  An allowed like is counted: the new count is between 1
    and 60 and the number reported as remaining is 60 minus the new count,
    so never negative.  The reset time reported is never in the past, and
    the rows of other users stay as they are. *)
Theorem like_limit_step (nextMidnight : Z -> Z) (now : Z)
  (users : JSRecord User) (userId : string) (user : User) :
  (forall t, (t < nextMidnight t)%Z) ->
  get users userId = Some user -> (0 <= likesCount user)%Z ->
  let '(r, users') := checkLikeRateLimit nextMidnight now users userId in
  (allowed r = true
   <-> (likesResetAt user < now \/ likesCount user < LIKES_PER_DAY)%Z)
  /\ (allowed r = false -> users' = users /\ remaining r = 0%Z)
  /\ (allowed r = true ->
      exists user',
        get users' userId = Some user'
        /\ (1 <= likesCount user' <= LIKES_PER_DAY)%Z
        /\ remaining r = (LIKES_PER_DAY - likesCount user')%Z
        /\ (0 <= remaining r)%Z
        /\ resetAt r = likesResetAt user')
  /\ (now <= resetAt r)%Z
  /\ (forall other, other <> userId -> get users' other = get users other).
Proof.
  intros Hmid Hget Hc. unfold checkLikeRateLimit, LIKES_PER_DAY.
  rewrite Hget. cbv zeta.
  destruct (likesResetAt user <? now)%Z eqn:Er.
  - apply Z.ltb_lt in Er. specialize (Hmid now). cbn [allowed remaining resetAt].
    repeat split; try discriminate; try lia; try tauto.
    + intros _. eexists. rewrite get_set_same. split; [reflexivity|].
      cbn [likesCount likesResetAt]. lia.
    + intros other Ho. now apply get_set_other.
  - apply Z.ltb_ge in Er.
    destruct (60 <=? likesCount user)%Z eqn:Ec.
    + apply Z.leb_le in Ec. cbn [allowed remaining resetAt].
      repeat split; try discriminate; try lia; try tauto.
    + apply Z.leb_gt in Ec. cbn [allowed remaining resetAt].
      repeat split; try discriminate; try lia; try tauto.
      * intros _. eexists. rewrite get_set_same. split; [reflexivity|].
        cbn [likesCount likesResetAt]. lia.
      * intros other Ho. now apply get_set_other.
Qed.

Lemma nextMidnightUTC_later (t : Z) : (t < nextMidnightUTC t)%Z.
Proof.
  unfold nextMidnightUTC.
  pose proof (Z.mul_succ_div_gt t 86400000 ltac:(lia)). lia.
Qed.

Lemma like_limit_step_witness :
  allowed
    (fst (checkLikeRateLimit nextMidnightUTC 1705320000000 exampleUsers
            "alice"))
  = true.
Proof.
  pose proof (like_limit_step nextMidnightUTC 1705320000000 exampleUsers
                "alice" _ nextMidnightUTC_later eq_refl ltac:(cbn; lia)) as H.
  destruct (checkLikeRateLimit nextMidnightUTC 1705320000000 exampleUsers
              "alice") as [r users'].
  destruct H as ([_ H] & _). apply H. right. unfold LIKES_PER_DAY. cbn. lia.
Defined.

Lemma repeat_false_filter (n : nat) (rs : list RateLimitResult) :
  map allowed rs = repeat false n -> filter allowed rs = [].
Proof.
  revert n. induction rs as [|r rs IH]; intros n H; [reflexivity|].
  destruct n as [|n]; [discriminate|]. cbn in H. injection H as Hr Hrs.
  cbn. rewrite Hr. now apply (IH n).
Qed.

(** Within one window, that is at clock readings that are not later than
    the reset time, the limiter allows likes until the count reaches 60 and
    refuses from then on. *)
Lemma like_window (nextMidnight : Z -> Z) (userId : string)
  (times : list Z) :
  forall (users : JSRecord User) (user : User),
    get users userId = Some user -> (0 <= likesCount user)%Z ->
    Forall (fun t => (t <= likesResetAt user)%Z) times ->
    let m :=
      Nat.min (List.length times)
        (Z.to_nat (LIKES_PER_DAY - likesCount user)) in
    let '(rs, users') := likeCalls nextMidnight times users userId in
    map allowed rs = repeat true m ++ repeat false (List.length times - m)
    /\ exists user',
        get users' userId = Some user'
        /\ likesCount user' = (likesCount user + Z.of_nat m)%Z
        /\ likesResetAt user' = likesResetAt user.
Proof.
  unfold LIKES_PER_DAY.
  induction times as [|t times IH]; intros users user Hget Hc Ht.
  - cbn. split; [reflexivity|]. exists user. split; [exact Hget|]. lia.
  - inversion Ht as [|? ? Hle Hrest]; subst. cbn [likeCalls].
    unfold checkLikeRateLimit at 1. rewrite Hget. cbv zeta.
    assert (Er : (likesResetAt user <? t)%Z = false) by (apply Z.ltb_ge; lia).
    rewrite Er. unfold LIKES_PER_DAY.
    destruct (60 <=? likesCount user)%Z eqn:Ec.
    + apply Z.leb_le in Ec.
      specialize (IH users user Hget Hc Hrest). cbv zeta in IH.
      destruct (likeCalls nextMidnight times users userId) as [rs users'].
      replace (Z.to_nat (60 - likesCount user)) with 0%nat in * by lia.
      rewrite Nat.min_0_r in *. cbn [repeat app] in *.
      rewrite Nat.sub_0_r in *. destruct IH as [IH1 IH2].
      split; [cbn; now rewrite IH1|exact IH2].
    + apply Z.leb_gt in Ec.
      set (user1 := {| likesCount := likesCount user + 1;
                       likesResetAt := likesResetAt user;
                       messagesCount := messagesCount user;
                       messagesResetAt := messagesResetAt user |}).
      specialize (IH (set users userId user1) user1
                    (get_set_same _ _ _) ltac:(cbn; lia) Hrest).
      cbv zeta in IH.
      destruct (likeCalls nextMidnight times (set users userId user1) userId)
        as [rs users'].
      cbn [likesCount likesResetAt user1] in IH.
      destruct IH as (IH1 & user' & Hg' & Hc' & Hr').
      replace (Z.to_nat (60 - likesCount user))
        with (S (Z.to_nat (60 - (likesCount user + 1)))) by lia.
      cbn [List.length]. rewrite <- Nat.succ_min_distr. cbn [repeat app map].
      cbn [Nat.sub]. split; [cbn; now rewrite IH1|].
      exists user'. split; [exact Hg'|]. split; [lia|exact Hr'].
Qed.

(** X14.  The daily quota of likes.  When the reset time of a known user
    has passed, the next like is allowed whatever the old count was, and it
    opens a window that ends at the next midnight: of the likes asked for
    from then until that midnight, the first 60 are allowed and all the
    later ones refused. *)
Theorem like_daily_quota (nextMidnight : Z -> Z) (now : Z) (times : list Z)
  (users : JSRecord User) (userId : string) (user : User) :
  get users userId = Some user ->
  (likesResetAt user < now)%Z ->
  Forall (fun t => (t <= nextMidnight now)%Z) times ->
  let n := S (List.length times) in
  let rs := fst (likeCalls nextMidnight (now :: times) users userId) in
  map allowed rs = repeat true (Nat.min n 60) ++ repeat false (n - 60)
  /\ allowedCount rs = Z.min (Z.of_nat n) LIKES_PER_DAY.
Proof.
  intros Hget Hreset Ht n rs.
  assert (Hmap : map allowed rs
                 = repeat true (Nat.min n 60) ++ repeat false (n - 60)).
  { subst rs n. cbn [likeCalls]. unfold checkLikeRateLimit at 1.
    rewrite Hget. cbv zeta.
    assert (Er : (likesResetAt user <? now)%Z = true) by (apply Z.ltb_lt; lia).
    rewrite Er.
    set (user1 := {| likesCount := 1; likesResetAt := nextMidnight now;
                     messagesCount := messagesCount user;
                     messagesResetAt := messagesResetAt user |}).
    pose proof (like_window nextMidnight userId times
                  (set users userId user1) user1 (get_set_same _ _ _)
                  ltac:(cbn; lia) Ht) as H.
    cbv zeta in H.
    destruct (likeCalls nextMidnight times (set users userId user1) userId)
      as [rs users'].
    destruct H as [H _]. cbn [fst map allowed].
    cbn [likesCount user1] in H. unfold LIKES_PER_DAY in H.
    change (Z.to_nat (60 - 1)) with 59%nat in H. rewrite H.
    change 60%nat with (S 59). rewrite <- Nat.succ_min_distr.
    cbn [repeat app Nat.sub]. do 2 f_equal.
    destruct (Nat.le_ge_cases (List.length times) 59) as [Hl|Hl].
    - rewrite Nat.min_l by exact Hl.
      replace (List.length times - 59)%nat with 0%nat by lia.
      now replace (List.length times - List.length times)%nat with 0%nat
        by lia.
    - now rewrite Nat.min_r by exact Hl. }
  split; [exact Hmap|].
  unfold allowedCount, LIKES_PER_DAY.
  assert (Hlen : List.length (filter allowed rs) = Nat.min n 60).
  { clear - Hmap. revert Hmap. generalize (Nat.min n 60) (n - 60)%nat.
    induction rs as [|r rs IH]; intros a b H.
    - destruct a; [reflexivity|discriminate].
    - destruct a as [|a]; cbn in H.
      + rewrite (repeat_false_filter b (r :: rs)); [reflexivity|exact H].
      + injection H as Hr Hrs. cbn. rewrite Hr. cbn. f_equal.
        now apply (IH a b). }
  rewrite Hlen. lia.
Qed.

Lemma like_daily_quota_witness :
  map allowed
    (fst (likeCalls nextMidnightUTC [1705400000000; 1705400001000]%Z
            exampleUsers "alice"))
  = [true; true].
Proof.
  apply (like_daily_quota nextMidnightUTC 1705400000000 [1705400001000%Z]
           exampleUsers "alice" _ eq_refl).
  - cbn. lia.
  - repeat constructor. apply Z.leb_le. vm_compute. reflexivity.
Defined.

Lemma message_window (nextMidnight : Z -> Z) (userId : string)
  (times : list Z) :
  forall (users : JSRecord User) (user : User),
    get users userId = Some user -> (0 <= messagesCount user)%Z ->
    Forall (fun t => (t <= messagesResetAt user)%Z) times ->
    let m :=
      Nat.min (List.length times)
        (Z.to_nat (MESSAGES_PER_DAY - messagesCount user)) in
    let '(rs, users') := messageCalls nextMidnight times users userId in
    map allowed rs = repeat true m ++ repeat false (List.length times - m)
    /\ exists user',
        get users' userId = Some user'
        /\ messagesCount user' = (messagesCount user + Z.of_nat m)%Z
        /\ messagesResetAt user' = messagesResetAt user.
Proof.
  unfold MESSAGES_PER_DAY.
  induction times as [|t times IH]; intros users user Hget Hc Ht.
  - cbn. split; [reflexivity|]. exists user. split; [exact Hget|]. lia.
  - inversion Ht as [|? ? Hle Hrest]; subst. cbn [messageCalls].
    unfold checkMessageRateLimit at 1. rewrite Hget. cbv zeta.
    assert (Er : (messagesResetAt user <? t)%Z = false)
      by (apply Z.ltb_ge; lia).
    rewrite Er. unfold MESSAGES_PER_DAY.
    destruct (200 <=? messagesCount user)%Z eqn:Ec.
    + apply Z.leb_le in Ec.
      specialize (IH users user Hget Hc Hrest). cbv zeta in IH.
      destruct (messageCalls nextMidnight times users userId) as [rs users'].
      replace (Z.to_nat (200 - messagesCount user)) with 0%nat in * by lia.
      rewrite Nat.min_0_r in *. cbn [repeat app] in *.
      rewrite Nat.sub_0_r in *. destruct IH as [IH1 IH2].
      split; [cbn; now rewrite IH1|exact IH2].
    + apply Z.leb_gt in Ec.
      set (user1 := {| likesCount := likesCount user;
                       likesResetAt := likesResetAt user;
                       messagesCount := messagesCount user + 1;
                       messagesResetAt := messagesResetAt user |}).
      specialize (IH (set users userId user1) user1
                    (get_set_same _ _ _) ltac:(cbn; lia) Hrest).
      cbv zeta in IH.
      destruct (messageCalls nextMidnight times (set users userId user1)
                  userId) as [rs users'].
      cbn [messagesCount messagesResetAt user1] in IH.
      destruct IH as (IH1 & user' & Hg' & Hc' & Hr').
      replace (Z.to_nat (200 - messagesCount user))
        with (S (Z.to_nat (200 - (messagesCount user + 1)))) by lia.
      cbn [List.length]. rewrite <- Nat.succ_min_distr. cbn [repeat app map].
      cbn [Nat.sub]. split; [cbn; now rewrite IH1|].
      exists user'. split; [exact Hg'|]. split; [lia|exact Hr'].
Qed.

(** X15.  The daily quota of messages, in the same way: from the first
    message after the reset time until the next midnight the first 200 are
    allowed and all the later ones refused. *)
Theorem message_daily_quota (nextMidnight : Z -> Z) (now : Z)
  (times : list Z) (users : JSRecord User) (userId : string) (user : User) :
  get users userId = Some user ->
  (messagesResetAt user < now)%Z ->
  Forall (fun t => (t <= nextMidnight now)%Z) times ->
  let n := S (List.length times) in
  let rs := fst (messageCalls nextMidnight (now :: times) users userId) in
  map allowed rs = repeat true (Nat.min n 200) ++ repeat false (n - 200).
Proof.
  intros Hget Hreset Ht n rs.
  subst rs n. cbn [messageCalls]. unfold checkMessageRateLimit at 1.
  rewrite Hget. cbv zeta.
  assert (Er : (messagesResetAt user <? now)%Z = true)
    by (apply Z.ltb_lt; lia).
  rewrite Er.
  set (user1 := {| likesCount := likesCount user;
                   likesResetAt := likesResetAt user;
                   messagesCount := 1;
                   messagesResetAt := nextMidnight now |}).
  pose proof (message_window nextMidnight userId times
                (set users userId user1) user1 (get_set_same _ _ _)
                ltac:(cbn; lia) Ht) as H.
  cbv zeta in H.
  destruct (messageCalls nextMidnight times (set users userId user1) userId)
    as [rs users'].
  destruct H as [H _]. cbn [fst map allowed].
  cbn [messagesCount user1] in H. unfold MESSAGES_PER_DAY in H.
  change (Z.to_nat (200 - 1)) with 199%nat in H. rewrite H.
  change 200%nat with (S 199). rewrite <- Nat.succ_min_distr.
  cbn [repeat app Nat.sub]. do 2 f_equal.
  destruct (Nat.le_ge_cases (List.length times) 199) as [Hl|Hl].
  - rewrite Nat.min_l by exact Hl.
    replace (List.length times - 199)%nat with 0%nat by lia.
    now replace (List.length times - List.length times)%nat with 0%nat by lia.
  - now rewrite Nat.min_r by exact Hl.
Qed.

Lemma message_daily_quota_witness :
  map allowed
    (fst (messageCalls nextMidnightUTC [1705400000000; 1705400001000]%Z
            exampleUsers "alice"))
  = [true; true].
Proof.
  apply (message_daily_quota nextMidnightUTC 1705400000000
           [1705400001000%Z] exampleUsers "alice" _ eq_refl).
  - cbn. lia.
  - repeat constructor. apply Z.leb_le. vm_compute. reflexivity.
Defined.

Lemma like_keeps_messages (nextMidnight : Z -> Z) (now : Z)
  (users : JSRecord User) (userId id : string) :
  option_map (fun u => (messagesCount u, messagesResetAt u))
    (get (snd (checkLikeRateLimit nextMidnight now users userId)) id)
  = option_map (fun u => (messagesCount u, messagesResetAt u))
      (get users id).
Proof.
  unfold checkLikeRateLimit.
  destruct (get users userId) as [user|] eqn:E; [|reflexivity]. cbv zeta.
  destruct (string_dec userId id) as [<- | Hne].
  - destruct (_ <? _)%Z; [|destruct (_ <=? _)%Z]; cbn [snd];
      rewrite ?get_set_same, ?E; reflexivity.
  - destruct (_ <? _)%Z; [|destruct (_ <=? _)%Z]; cbn [snd];
      rewrite ?get_set_other by exact Hne; reflexivity.
Qed.

Lemma message_keeps_likes (nextMidnight : Z -> Z) (now : Z)
  (users : JSRecord User) (userId id : string) :
  option_map (fun u => (likesCount u, likesResetAt u))
    (get (snd (checkMessageRateLimit nextMidnight now users userId)) id)
  = option_map (fun u => (likesCount u, likesResetAt u)) (get users id).
Proof.
  unfold checkMessageRateLimit.
  destruct (get users userId) as [user|] eqn:E; [|reflexivity]. cbv zeta.
  destruct (string_dec userId id) as [<- | Hne].
  - destruct (_ <? _)%Z; [|destruct (_ <=? _)%Z]; cbn [snd];
      rewrite ?get_set_same, ?E; reflexivity.
  - destruct (_ <? _)%Z; [|destruct (_ <=? _)%Z]; cbn [snd];
      rewrite ?get_set_other by exact Hne; reflexivity.
Qed.

(** X16.  The two quotas are separate.  A call of the like limiter leaves
    the message count and the message reset time of every user as they are,
    so the answer of the message limiter is the same before and after it;
    and the other way round. *)
Theorem quotas_are_separate (nextMidnight : Z -> Z) (now now' : Z)
  (users : JSRecord User) (userId id : string) :
  fst (checkMessageRateLimit nextMidnight now'
         (snd (checkLikeRateLimit nextMidnight now users userId)) id)
  = fst (checkMessageRateLimit nextMidnight now' users id)
  /\ fst (checkLikeRateLimit nextMidnight now'
            (snd (checkMessageRateLimit nextMidnight now users userId)) id)
     = fst (checkLikeRateLimit nextMidnight now' users id).
Proof.
  split.
  - pose proof (like_keeps_messages nextMidnight now users userId id) as H.
    unfold checkMessageRateLimit.
    destruct (get (snd (checkLikeRateLimit nextMidnight now users userId)) id)
      as [u1|], (get users id) as [u|]; try discriminate; [|reflexivity].
    cbn in H. injection H as Hc Hr. cbv zeta. rewrite Hc, Hr.
    destruct (_ <? _)%Z; [|destruct (_ <=? _)%Z]; reflexivity.
  - pose proof (message_keeps_likes nextMidnight now users userId id) as H.
    unfold checkLikeRateLimit at 1 3 || unfold checkLikeRateLimit at 1 2.
    destruct (get (snd (checkMessageRateLimit nextMidnight now users userId))
                id) as [u1|], (get users id) as [u|];
      try discriminate; [|reflexivity].
    cbn in H. injection H as Hc Hr. cbv zeta. rewrite Hc, Hr.
    destruct (_ <? _)%Z; [|destruct (_ <=? _)%Z]; reflexivity.
Qed.

(** * Spam *)

Lemma strip_spec (k s r : string) :
  strip k s = Some r <-> s = (k ++ r)%string.
Proof.
  revert s. induction k as [|c k IH]; intros s; cbn.
  - split; [now intros [= ->]|now intros ->].
  - destruct s as [|d s]; [split; discriminate|].
    destruct (Ascii.eqb c d) eqn:E.
    + apply Ascii.eqb_eq in E. subst d. rewrite IH.
      split; [now intros ->|now intros [= ->]].
    + apply Ascii.eqb_neq in E. split; [discriminate|].
      intros [= Hd _]. congruence.
Qed.

Lemma pmatches_here_In (p : Pattern) (s : string) :
  pmatches_here p s = true <-> exists r, In r (pmatch_here p s).
Proof.
  unfold pmatches_here. destruct (pmatch_here p s) as [|r l].
  - split; [discriminate|intros [r []]].
  - split; [intros _; exists r; now left|reflexivity].
Qed.

Lemma nonSpaces_In (s : string) :
  (exists r, In r (nonSpaces s))
  <-> exists c s', s = String c s' /\ isSpace c = false.
Proof.
  destruct s as [|c s]; cbn.
  - split; [intros [r []]|intros (c & s' & H & _); discriminate].
  - destruct (isSpace c) eqn:E.
    + split; [intros [r []]|]. intros (c' & s' & [= -> ->] & H). congruence.
    + split; [intros _; now exists c, s|]. intros _. exists s. now left.
Qed.

Lemma Pattern_test_spec (p : Pattern) (s : string) :
  Pattern_test p s = true
  <-> exists pre rest, s = (pre ++ rest)%string /\ pmatches_here p rest = true.
Proof.
  induction s as [|c s IH]; cbn.
  - split.
    + intros H. now exists ""%string, ""%string.
    + intros (pre & rest & H & Hm).
      destruct pre; [|discriminate]. cbn in H. now subst rest.
  - rewrite orb_true_iff, IH. split.
    + intros [H|(pre & rest & -> & Hm)].
      * now exists ""%string, (String c s).
      * now exists (String c pre), rest.
    + intros (pre & rest & H & Hm). destruct pre as [|d pre]; cbn in H.
      * left. now subst rest.
      * right. injection H as _ ->. now exists pre, rest.
Qed.

Lemma spam_here (s : string) :
  pmatches_here spamPattern s = true
  <-> exists scheme c post,
      (scheme = "http" \/ scheme = "https")%string
      /\ isSpace c = false
      /\ s = (scheme ++ "://" ++ String c post)%string.
Proof.
  rewrite pmatches_here_In. unfold spamPattern. cbn [pmatch_here]. split.
  - intros (r & Hr). apply in_flat_map in Hr as (m & Hm & Hr).
    apply in_flat_map in Hm as (m0 & Hm0 & Hm).
    destruct (nonSpaces_In m) as [Hns _].
    destruct (Hns (ex_intro _ r Hr)) as (c & post & -> & Hc).
    destruct (strip "://" m0) as [x|] eqn:E3; [|contradiction].
    destruct Hm as [Hx|[]]. subst x. apply strip_spec in E3. subst m0.
    apply in_app_iff in Hm0 as [H|H].
    + destruct (strip "http" s) as [x|] eqn:E; [|contradiction].
      destruct H as [Hx|[]]. subst x. apply strip_spec in E.
      exists "http"%string, c, post. now repeat split; [left| |].
    + destruct (strip "https" s) as [x|] eqn:E; [|contradiction].
      destruct H as [Hx|[]]. subst x. apply strip_spec in E.
      exists "https"%string, c, post. now repeat split; [right| |].
  - intros (scheme & c & post & Hs & Hc & ->).
    destruct (nonSpaces_In (String c post)) as [_ Hns].
    destruct (Hns (ex_intro _ c (ex_intro _ post (conj eq_refl Hc))))
      as (r & Hr).
    exists r. apply in_flat_map. exists (String c post). split; [|exact Hr].
    apply in_flat_map. exists ("://" ++ String c post)%string. split.
    + apply in_app_iff.
      destruct Hs as [-> | ->]; [left|right];
        (erewrite (proj2 (strip_spec _ _ _)) by reflexivity; now left).
    + erewrite (proj2 (strip_spec _ _ _)) by reflexivity. now left.
Qed.

(** X17.  [isSpamMessage] flags a message exactly when it contains
    [http://] or [https://], in lower case, directly followed by a
    character that is not white space.  So a link in capitals, or the bare
    [http://] at the end of a message or before a blank, is let through. *)
Theorem isSpamMessage_spec (body : string) :
  isSpamMessage body = true
  <-> exists pre scheme c post,
      (scheme = "http" \/ scheme = "https")%string
      /\ isSpace c = false
      /\ body = (pre ++ scheme ++ "://" ++ String c post)%string.
Proof.
  unfold isSpamMessage. rewrite Pattern_test_spec. split.
  - intros (pre & rest & -> & H). apply spam_here in H
      as (scheme & c & post & Hs & Hc & ->).
    now exists pre, scheme, c, post.
  - intros (pre & scheme & c & post & Hs & Hc & ->).
    exists pre, (scheme ++ "://" ++ String c post)%string.
    split; [reflexivity|]. apply spam_here. now exists scheme, c, post.
Qed.

Lemma isSpamMessage_spec_witness :
  isSpamMessage "see https://example.com now" = true
  /\ isSpamMessage "see HTTPS://EXAMPLE.COM now" = false
  /\ isSpamMessage "write http:// in front" = false.
Proof.
  split; [|split; reflexivity].
  apply (isSpamMessage_spec "see https://example.com now").
  exists "see "%string, "https"%string, "e"%char, "xample.com now"%string.
  repeat split. now right.
Defined.

(** * The discover endpoint *)

(** Without time-zone offsets the location term is the neutral 0.5, so the
    score of two well-formed profiles lies between 0.05 and 0.95, when no
    key is read from [Object.prototype]. *)
Lemma stored_score_bounds (a b : ProfileSummary) :
  wellFormed a -> wellFormed b -> ownReadsProfile a b ->
  timezoneOffset a = None ->
  exists s, computeCompatibility a b = Num s /\ 0.05 <= s <= 0.95.
Proof.
  intros Ha Hb [Hrl Hrt] Hz.
  pose proof (cosineSimilarity_unit _ _ Hrl (wf_languages a Ha)
                (wf_languages b Hb)) as Ht.
  pose proof (cosineSimilarity_unit _ _ Hrt (wf_commitTraits a Ha)
                (wf_commitTraits b Hb)) as Hr.
  pose proof (wf_activityScore a Ha) as Hx.
  pose proof (wf_activityScore b Hb) as Hy.
  destruct (cosineSimilarity (languages a) (languages b)) as [|t] eqn:Et;
    [contradiction|].
  destruct (cosineSimilarity (commitTraits a) (commitTraits b)) as [|r] eqn:Er;
    [contradiction|].
  destruct (activityScore a) as [|x] eqn:Ex; [contradiction|].
  destruct (activityScore b) as [|y] eqn:Ey; [contradiction|].
  cbn in Ht, Hr, Hx, Hy.
  assert (Hl : timezoneScore a b = Num 0.5)
    by (unfold timezoneScore; now rewrite Hz).
  rewrite (computeCompatibility_Num a b t r x y 0.5 Et Er Ex Ey Hl).
  set (raw := 0.4 * t + 0.3 * r + 0.2 * (1 - Rabs (x - y)) + 0.1 * 0.5).
  assert (Habs : 0 <= Rabs (x - y) <= 1).
  { unfold Rabs. destruct (Rcase_abs (x - y)); lra. }
  assert (Hraw : 0.05 <= raw <= 0.95) by (unfold raw; lra).
  pose proof (round4_mono 0.05 raw (proj1 Hraw)) as Hlo.
  pose proof (round4_mono raw 0.95 (proj2 Hraw)) as Hhi.
  replace 0.05 with (IZR 500 / 10000) in Hlo by lra.
  replace 0.95 with (IZR 9500 / 10000) in Hhi by lra.
  rewrite round4_of_grid in Hlo, Hhi.
  rewrite round4_Num in *. cbn [toR] in Hlo, Hhi.
  eexists. split; [reflexivity|]. lra.
Qed.

Lemma ge_length (len n : nat) :
  (Num (INR len) >= Num (INR n))%js = true <-> (n <= len)%nat.
Proof.
  unfold ge. destruct (Rle_dec (INR n) (INR len)) as [H|H].
  - split; [intros _; now apply INR_le|reflexivity].
  - split; [discriminate|]. intros Hle. apply le_INR in Hle. contradiction.
Qed.

(** What the loop leaves in [results]: the first candidates, in the order
    of the query, that are not below the minimum, until there are [n]. *)
Lemma scoreCandidates_eq (findLastCommit : string -> option string)
  (cur : ProfileSummary) (score_min : option number) (n : nat)
  (candidates : list Profile) (results : list CandidateProfile) :
  scoreCandidates findLastCommit cur score_min (Num (INR n)) candidates
    results
  = results
    ++ map (fun c => candidateResult findLastCommit c
                       (computeCompatibility cur (summaryOf c)))
         (firstn (n - List.length results)
            (filter (fun c => negb (belowMinimum score_min
                                      (computeCompatibility cur
                                         (summaryOf c))))
               candidates)).
Proof.
  revert results. induction candidates as [|c rest IH]; intros results.
  - cbn. now rewrite firstn_nil, app_nil_r.
  - cbn [scoreCandidates filter].
    destruct (Num (INR (List.length results)) >= Num (INR n))%js eqn:E.
    + apply ge_length in E.
      replace (n - List.length results)%nat with 0%nat by lia.
      cbn. now rewrite app_nil_r.
    + assert (Hlt : (List.length results < n)%nat).
      { destruct (Nat.le_gt_cases n (List.length results)) as [H|H];
          [|exact H].
        apply ge_length in H. congruence. }
      cbv zeta.
      destruct (belowMinimum score_min _) eqn:Eb; cbn [negb].
      * apply IH.
      * rewrite IH, length_app. cbn [List.length].
        replace (n - List.length results)%nat
          with (S (n - (List.length results + 1)))%nat by lia.
        cbn [firstn map]. now rewrite <- app_assoc.
Qed.

Lemma lt_false (s m : R) : (Num s < Num m)%js = false -> m <= s.
Proof.
  unfold lt, gt. destruct (Rlt_dec s m); [discriminate|]. intros _. lra.
Qed.

(** X18.  The discover endpoint, for well-formed stored profiles, with no
    key named like a member of [Object.prototype], and a whole number [n]
    as limit.  The answer holds the first [n] candidates of the
    query (not the best [n]) whose score is not below [score_min], each with
    its score against the caller; it has at most [n] entries and is sorted
    by score, highest first.  Stored profiles carry no time-zone offset, so
    every score lies between 0.05 and 0.95. *)
Theorem discover_results (findLastCommit : string -> option string)
  (currentProfile : Profile) (score_min : option number) (n : nat)
  (candidates : list Profile) :
  wellFormed (summaryOf currentProfile) ->
  plainProfile (summaryOf currentProfile) ->
  Forall (fun c => wellFormed (summaryOf c) /\ plainProfile (summaryOf c))
    candidates ->
  let score c :=
    computeCompatibility (summaryOf currentProfile) (summaryOf c) in
  let results :=
    discover findLastCommit currentProfile score_min (Num (INR n))
      candidates in
  Permutation results
    (map (fun c => candidateResult findLastCommit c (score c))
       (firstn n
          (filter (fun c => negb (belowMinimum score_min (score c)))
             candidates)))
  /\ (List.length results <= n)%nat
  /\ Sorted (fun a b => toR (candidate_score b) <= toR (candidate_score a))
       results
  /\ Forall (fun r =>
       exists s, candidate_score r = Num s /\ 0.05 <= s <= 0.95
                 /\ match score_min with
                    | Some (Num m) => m <= s
                    | _ => True
                    end) results.
Proof.
  intros Hcur Pcur Hcands score results.
  set (cmp := fun a b : CandidateProfile =>
                (candidate_score b - candidate_score a)%js).
  set (chosen := firstn n
                   (filter (fun c => negb (belowMinimum score_min (score c)))
                      candidates)).
  assert (Hres : results
                 = Array_sort cmp
                     (map (fun c => candidateResult findLastCommit c (score c))
                        chosen)).
  { unfold results, discover. cbv zeta. rewrite scoreCandidates_eq.
    cbn [List.length app]. now rewrite Nat.sub_0_r. }
  assert (Hperm : Permutation results
                    (map (fun c => candidateResult findLastCommit c (score c))
                       chosen))
    by (rewrite Hres; apply Array_sort_perm).
  assert (Hscores : Forall (fun r =>
            exists s, candidate_score r = Num s /\ 0.05 <= s <= 0.95
                      /\ match score_min with
                         | Some (Num m) => m <= s
                         | _ => True
                         end)
            (map (fun c => candidateResult findLastCommit c (score c))
               chosen)).
  { apply Forall_forall. intros r Hr. apply in_map_iff in Hr as (c & <- & Hc).
    unfold chosen in Hc. apply firstn_In' in Hc.
    apply filter_In in Hc as [Hin Hq].
    rewrite Forall_forall in Hcands.
    destruct (Hcands c Hin) as [Hc_wf [Pl Pt]]. destruct Pcur as [Pl' Pt'].
    destruct (stored_score_bounds _ _ Hcur Hc_wf
                (conj (ownReads_plain _ _ Pl' Pl) (ownReads_plain _ _ Pt' Pt))
                eq_refl)
      as (s & Hs & Hb).
    exists s. cbn [candidateResult candidate_score]. fold (score c) in Hs.
    split; [exact Hs|]. split; [exact Hb|].
    destruct score_min as [[|m]|]; try exact I.
    rewrite Hs in Hq. cbn [belowMinimum] in Hq.
    apply negb_true_iff in Hq. now apply lt_false. }
  split; [exact Hperm|]. split; [|split].
  - rewrite (Permutation_length Hperm), length_map. apply firstn_le_length.
  - rewrite Hres. rewrite Forall_forall in Hscores.
    apply Array_sort_Sorted; intros x y Hx Hy Hc;
      destruct (Hscores x Hx) as (sx & Ex & _);
      destruct (Hscores y Hy) as (sy & Ey & _);
      unfold cmp in Hc; rewrite Ex, Ey in *; cbn [sub lift2 gt toR] in *;
      destruct (Rlt_dec 0 (sy - sx)); try discriminate; lra.
  - rewrite Forall_forall in *. intros r Hr. apply Hscores.
    apply (Permutation_in _ Hperm), Hr.
Qed.

Lemma discover_results_witness :
  let results :=
    discover (fun _ => Some "fix: handle empty input"%string)
      (profileRow "alice" overlapA) (Some (Num 0.5)) (Num (INR 2))
      exampleCandidates in
  (List.length results <= 2)%nat
  /\ Forall (fun r => exists s, candidate_score r = Num s /\ 0.5 <= s <= 0.95)
       results.
Proof.
  assert (Ha : wellFormed (summaryOf (profileRow "alice" overlapA)))
    by (constructor; cbn; repeat constructor; cbn; lra).
  assert (Pa : plainProfile (summaryOf (profileRow "alice" overlapA)))
    by (split; repeat constructor).
  assert (Hb : wellFormed (summaryOf (profileRow "bob" overlapB)))
    by (constructor; cbn; repeat constructor; cbn; lra).
  assert (Pb : plainProfile (summaryOf (profileRow "bob" overlapB)))
    by (split; repeat constructor).
  assert (Hc : Forall (fun c => wellFormed (summaryOf c)
                              /\ plainProfile (summaryOf c))
                 exampleCandidates)
    by (repeat apply Forall_cons;
        [exact (conj Hb Pb)|exact (conj Ha Pa)|exact (conj Hb Pb)
        |apply Forall_nil]).
  destruct (discover_results (fun _ => Some "fix: handle empty input"%string)
              (profileRow "alice" overlapA) (Some (Num 0.5)) 2
              exampleCandidates Ha Pa Hc) as (_ & Hlen & _ & Hs).
  split; [exact Hlen|].
  eapply Forall_impl; [|exact Hs].
  intros r (s & E & Hs' & Hm). exists s. split; [exact E|]. lra.
Defined.

(** * Likes, matches and messages *)

Lemma isLike_true (a b : string) (l : Like) :
  isLike a b l = true <-> l = {| like_fromUser := a; like_toUser := b |}.
Proof.
  unfold isLike. destruct l as [f t]. cbn.
  rewrite andb_true_iff, !String.eqb_eq. split.
  - now intros [-> ->].
  - now intros [= -> ->].
Qed.

Lemma findLike_None (db : Database) (a b : string) :
  findLike db a b = None
  <-> ~ In {| like_fromUser := a; like_toUser := b |} (likes db).
Proof.
  unfold findLike. split.
  - intros H Hin. pose proof (find_none _ _ H _ Hin) as Hf.
    assert (Ht : isLike a b {| like_fromUser := a; like_toUser := b |} = true)
      by now apply isLike_true.
    congruence.
  - intros H. destruct (find _ _) as [l|] eqn:E; [|reflexivity].
    apply find_some in E as [Hin Hl]. apply isLike_true in Hl. now subst l.
Qed.

Lemma findLike_Some (db : Database) (a b : string) (l : Like) :
  findLike db a b = Some l ->
  In {| like_fromUser := a; like_toUser := b |} (likes db).
Proof.
  unfold findLike. intros E. apply find_some in E as [Hin Hl].
  apply isLike_true in Hl. now subst l.
Qed.

Lemma NoDup_snoc {A : Type} (l : list A) (x : A) :
  NoDup l -> ~ In x l -> NoDup (l ++ [x]).
Proof.
  intros Hl Hx. induction Hl as [|y l Hy Hl IH]; cbn.
  - constructor; [intros []|constructor].
  - constructor.
    + rewrite in_app_iff. intros [H|[H|[]]]; [contradiction|].
      subst y. apply Hx. now left.
    + apply IH. intros H. apply Hx. now right.
Qed.

Lemma find_app_Some {A : Type} (f : A -> bool) (l l' : list A) (x : A) :
  find f l = Some x -> find f (l ++ l') = Some x.
Proof.
  induction l as [|y l IH]; cbn; [discriminate|].
  destruct (f y); [trivial|exact IH].
Qed.

Lemma ltb_other (a b : string) :
  a <> b -> String.ltb a b = false -> String.ltb b a = true.
Proof.
  unfold String.ltb. intros Hne. rewrite (String.compare_antisym b a).
  destruct (String.compare a b) eqn:E; cbn; try easy.
  apply String.compare_eq_iff in E. congruence.
Qed.

Lemma consistent_fresh (us : JSRecord User) (ps : list Profile) :
  consistent (freshDatabase us ps).
Proof.
  constructor; cbn; try constructor; intros; contradiction.
Qed.

Lemma consistent_withUsers (db : Database) (us : JSRecord User) :
  consistent db -> consistent (withUsers db us).
Proof. intros [H1 H2 H3 H4 H5 H6]. constructor; assumption. Qed.

Lemma consistent_createLike (db : Database) (a b : string) :
  consistent db -> a <> b -> findLike db a b = None ->
  findLike (createLike db {| like_fromUser := a; like_toUser := b |}) b a
  = None ->
  consistent (createLike db {| like_fromUser := a; like_toUser := b |}).
Proof.
  intros [H1 H2 H3 H4 H5 H6] Hne Hnew Hmut.
  apply findLike_None in Hnew. apply findLike_None in Hmut.
  cbn [createLike likes] in Hmut.
  constructor; cbn [createLike likes matches messages].
  - intros l Hl. apply in_app_iff in Hl as [Hl|[<- |[]]]; [now apply H1|].
    exact Hne.
  - now apply NoDup_snoc.
  - intros m Hm. destruct (H3 m Hm) as (Ho & Hab & Hba).
    repeat split; [exact Ho| |]; apply in_app_iff; now left.
  - intros x y Hxy Hyx.
    apply in_app_iff in Hxy as [Hxy|[[= -> ->]|[]]].
    + apply in_app_iff in Hyx as [Hyx|[[= -> ->]|[]]].
      * now apply H4.
      * exfalso. apply Hmut, in_app_iff. now left.
    + contradiction.
  - exact H5.
  - exact H6.
Qed.

Lemma consistent_createMatch (db : Database) (a b newId : string)
  (score : number) :
  consistent db -> a <> b -> findLike db a b = None ->
  In {| like_fromUser := b; like_toUser := a |} (likes db) ->
  let pair := if String.ltb a b then (a, b) else (b, a) in
  consistent
    (createMatch (createLike db {| like_fromUser := a; like_toUser := b |})
       {| match_id := newId; userA := fst pair; userB := snd pair;
          match_score := score |}).
Proof.
  intros [H1 H2 H3 H4 H5 H6] Hne Hnew Hmut pair.
  apply findLike_None in Hnew.
  assert (Hpair : (fst pair = a /\ snd pair = b)
                  \/ (fst pair = b /\ snd pair = a))
    by (unfold pair; destruct (String.ltb a b); cbn; tauto).
  assert (Hord : String.ltb (fst pair) (snd pair) = true).
  { unfold pair. destruct (String.ltb a b) eqn:E; cbn; [exact E|].
    now apply ltb_other. }
  constructor; cbn [createMatch createLike likes matches messages].
  - intros l Hl. apply in_app_iff in Hl as [Hl|[<- |[]]]; [now apply H1|].
    exact Hne.
  - now apply NoDup_snoc.
  - intros m Hm. apply in_app_iff in Hm as [Hm|[<- |[]]].
    + destruct (H3 m Hm) as (Ho & Hab & Hba).
      repeat split; [exact Ho| |]; apply in_app_iff; now left.
    + cbn [userA userB]. split; [exact Hord|].
      destruct Hpair as [[-> ->]|[-> ->]]; split; apply in_app_iff;
        ((now left) || (right; now left)).
  - intros x y Hxy Hyx.
    assert (Hcase : (In {| like_fromUser := x; like_toUser := y |} (likes db)
                     /\ In {| like_fromUser := y; like_toUser := x |}
                          (likes db))
                    \/ (x = a /\ y = b) \/ (x = b /\ y = a)).
    { apply in_app_iff in Hxy as [Hxy|[[= -> ->]|[]]]; [|tauto].
      apply in_app_iff in Hyx as [Hyx|[[= -> ->]|[]]]; tauto. }
    destruct Hcase as [[Hxy' Hyx']|Hcase].
    + destruct (H4 x y Hxy' Hyx') as (m & Hm & Hp).
      exists m. split; [apply in_app_iff; now left|exact Hp].
    + eexists. split; [apply in_app_iff; right; now left|].
      cbn [userA userB]. destruct Hcase as [[-> ->]|[-> ->]]; tauto.
  - rewrite map_app. cbn [map userA userB]. apply NoDup_snoc; [exact H5|].
    intros Hin. apply in_map_iff in Hin as (m & Hm & Hin).
    destruct (H3 m Hin) as (_ & Hab & Hba). injection Hm as Ea Eb.
    rewrite Ea, Eb in Hab, Hba.
    destruct Hpair as [[Ha Hb]|[Ha Hb]]; rewrite Ha, Hb in Hab, Hba;
      contradiction.
  - intros msg Hmsg. destruct (H6 msg Hmsg) as (Hs & m & Hf & Hp).
    split; [exact Hs|]. exists m. split; [|exact Hp].
    unfold findMatch in *. cbn [createMatch matches].
    now apply find_app_Some.
Qed.

Lemma consistent_createMessage (db : Database) (m : Match) (msg : Message) :
  consistent db -> isSpamMessage (message_body msg) = false ->
  findMatch db (message_matchId msg) = Some m ->
  userA m = message_fromUser msg \/ userB m = message_fromUser msg ->
  consistent (createMessage db msg).
Proof.
  intros [H1 H2 H3 H4 H5 H6] Hs Hf Hp.
  constructor; cbn [createMessage likes matches messages]; try assumption.
  intros msg' Hin. apply in_app_iff in Hin as [Hin|[<- |[]]].
  - exact (H6 msg' Hin).
  - split; [exact Hs|]. now exists m.
Qed.

Lemma likeHandler_consistent (nextMidnight : Z -> Z) (now : Z)
  (newId : string) (db : Database) (fromUserId toUserId : string) :
  consistent db ->
  consistent (snd (likeHandler nextMidnight now newId db fromUserId toUserId)).
Proof.
  intros Hdb. unfold likeHandler.
  destruct (String.eqb toUserId fromUserId) eqn:Eself; [exact Hdb|].
  apply String.eqb_neq in Eself.
  destruct (checkLikeRateLimit nextMidnight now (users db) fromUserId)
    as [rateLimit users1].
  pose proof (consistent_withUsers db users1 Hdb) as Hdb1.
  destruct (negb (allowed rateLimit)); [exact Hdb1|].
  destruct (get (users (withUsers db users1)) toUserId); [|exact Hdb1].
  destruct (findLike (withUsers db users1) fromUserId toUserId) eqn:Enew;
    [exact Hdb1|].
  destruct (findLike (createLike _ _) toUserId fromUserId) eqn:Emut.
  - cbn [snd]. apply consistent_createMatch; try assumption; [congruence|].
    apply findLike_Some in Emut. cbn [createLike likes] in Emut.
    apply in_app_iff in Emut as [H|[[= E1 E2]|[]]]; [exact H|].
    congruence.
  - cbn [snd]. apply consistent_createLike; try assumption. congruence.
Qed.

Lemma eqb_participant (m : Match) (u : string) :
  negb (String.eqb (userA m) u) && negb (String.eqb (userB m) u) = false
  <-> userA m = u \/ userB m = u.
Proof.
  rewrite <- negb_orb, negb_false_iff, orb_true_iff, !String.eqb_eq.
  reflexivity.
Qed.

Lemma messageHandler_consistent (nextMidnight : Z -> Z) (now : Z)
  (newId : string) (db : Database) (fromUserId matchId body : string) :
  consistent db ->
  consistent
    (snd (messageHandler nextMidnight now newId db fromUserId matchId body)).
Proof.
  intros Hdb. unfold messageHandler.
  destruct (isSpamMessage body) eqn:Espam; [exact Hdb|].
  destruct (checkMessageRateLimit nextMidnight now (users db) fromUserId)
    as [rateLimit users1].
  pose proof (consistent_withUsers db users1 Hdb) as Hdb1.
  destruct (negb (allowed rateLimit)); [exact Hdb1|].
  destruct (findMatch (withUsers db users1) matchId) as [m|] eqn:Em;
    [|exact Hdb1].
  destruct (negb _ && negb _) eqn:Ep; [exact Hdb1|].
  apply eqb_participant in Ep.
  cbn [snd]. now apply (consistent_createMessage _ m).
Qed.

Lemma serve_consistent (nextMidnight : Z -> Z) (requests : list Request)
  (db : Database) :
  consistent db -> consistent (serve nextMidnight db requests).
Proof.
  revert db. induction requests as [|r requests IH]; intros db Hdb;
    [exact Hdb|].
  cbn [serve fold_left]. apply IH. destruct r; cbn [handle].
  - now apply likeHandler_consistent.
  - now apply messageHandler_consistent.
Qed.

(** X19.  Whatever like and message requests are served, one after the
    other, on a database that starts without likes: nobody likes themselves
    or the same user twice; every match joins two users who like each other,
    the one with the smaller id as [userA]; every pair of users who like
    each other has a match, and only one; and no stored message holds a
    link or comes from someone outside its match. *)
Theorem served_database_consistent (nextMidnight : Z -> Z)
  (us : JSRecord User) (ps : list Profile) (requests : list Request) :
  consistent (serve nextMidnight (freshDatabase us ps) requests).
Proof. apply serve_consistent, consistent_fresh. Qed.

Lemma ltb_asym (a b : string) :
  String.ltb a b = true -> String.ltb b a = false.
Proof.
  unfold String.ltb. rewrite (String.compare_antisym a b).
  now destruct (String.compare b a).
Qed.

(** What a like that completes a pair stores as the match. *)
Lemma likeHandler_match (nextMidnight : Z -> Z) (now : Z) (newId : string)
  (db db' : Database) (a b : string) (m : Match) :
  likeHandler nextMidnight now newId db a b = (LikeOk (Some m), db') ->
  a <> b
  /\ (userA m, userB m) = (if String.ltb a b then (a, b) else (b, a))
  /\ match_score m
     = match findProfile db a, findProfile db b with
       | Some profileA, Some profileB =>
           computeCompatibility (summaryOf profileA) (summaryOf profileB)
       | _, _ => Num 0.5
       end.
Proof.
  unfold likeHandler.
  destruct (String.eqb b a) eqn:Eself; [discriminate|].
  apply String.eqb_neq in Eself.
  destruct (checkLikeRateLimit nextMidnight now (users db) a)
    as [rateLimit users1].
  destruct (negb (allowed rateLimit)); [discriminate|].
  destruct (get _ b); [|discriminate].
  destruct (findLike (withUsers db users1) a b); [discriminate|].
  destruct (findLike (createLike _ _) b a); [|discriminate].
  intros [= <- _]. cbn [userA userB match_score].
  split; [congruence|]. split; [now destruct (String.ltb a b)|reflexivity].
Qed.

(** X20.  The two users of a match are stored the same way whoever liked
    last: the like from [a] to [b] that completes the pair and the like from
    [b] to [a] that completes it store the same [userA] and the same
    [userB], the smaller id as [userA]. *)
Theorem match_pair_either_way (nextMidnight : Z -> Z) (now1 now2 : Z)
  (id1 id2 : string) (db1 db2 db1' db2' : Database) (a b : string)
  (m1 m2 : Match) :
  likeHandler nextMidnight now1 id1 db1 a b = (LikeOk (Some m1), db1') ->
  likeHandler nextMidnight now2 id2 db2 b a = (LikeOk (Some m2), db2') ->
  userA m1 = userA m2 /\ userB m1 = userB m2
  /\ String.ltb (userA m1) (userB m1) = true.
Proof.
  intros H1 H2.
  apply likeHandler_match in H1 as (Hne & Hp1 & _).
  apply likeHandler_match in H2 as (_ & Hp2 & _).
  assert (Hpair : (userA m1, userB m1) = (userA m2, userB m2)
                  /\ String.ltb (userA m1) (userB m1) = true).
  { destruct (String.ltb a b) eqn:E.
    - rewrite (ltb_asym _ _ E) in Hp2. injection Hp1 as -> ->.
      rewrite Hp2. now split.
    - pose proof (ltb_other _ _ Hne E) as E'. rewrite E' in Hp2.
      injection Hp1 as -> ->. rewrite Hp2. now split. }
  destruct Hpair as [Hpair Hord]. injection Hpair as Ea Eb.
  split; [exact Ea|]. split; [exact Eb|exact Hord].
Qed.

Lemma match_pair_either_way_witness :
  exists m1 m2,
    userA m1 = "alice"%string /\ userA m2 = "alice"%string
    /\ userB m1 = userB m2.
Proof.
  set (dbA := createLike (freshDatabase twoUsers twoProfiles)
                {| like_fromUser := "bob"; like_toUser := "alice" |}).
  set (dbB := createLike (freshDatabase twoUsers twoProfiles)
                {| like_fromUser := "alice"; like_toUser := "bob" |}).
  set (rA := likeHandler nextMidnightUTC 1705320000000 "m1" dbA "alice" "bob").
  set (rB := likeHandler nextMidnightUTC 1705320000000 "m2" dbB "bob" "alice").
  assert (HA : exists m db',
             rA = (LikeOk (Some m), db') /\ userA m = "alice"%string)
    by (eexists; eexists; split; reflexivity).
  assert (HB : exists m db',
             rB = (LikeOk (Some m), db') /\ userA m = "alice"%string)
    by (eexists; eexists; split; reflexivity).
  destruct HA as (m1 & dbA' & HA & Ha), HB as (m2 & dbB' & HB & Hb).
  exists m1, m2.
  destruct (match_pair_either_way nextMidnightUTC _ _ _ _ dbA dbB _ _ _ _
              m1 m2 HA HB) as (_ & Hu & _).
  repeat split; assumption.
Defined.

(** X21.  Reading a conversation, after any like and message requests on a
    database that started without likes.  When [GET /api/messages/:matchId]
    answers with messages, the reader is one of the two users of that match,
    these two like each other, and every message of the answer belongs to
    the match, was written by one of the two, and holds no link. *)
Theorem conversation_is_private (nextMidnight : Z -> Z) (us : JSRecord User)
  (ps : list Profile) (requests : list Request)
  (currentUserId matchId : string) (conversation : list Message) :
  let db := serve nextMidnight (freshDatabase us ps) requests in
  messagesHandler db currentUserId matchId = MessagesOk conversation ->
  exists m,
    findMatch db matchId = Some m
    /\ (currentUserId = userA m \/ currentUserId = userB m)
    /\ In {| like_fromUser := userA m; like_toUser := userB m |} (likes db)
    /\ In {| like_fromUser := userB m; like_toUser := userA m |} (likes db)
    /\ forall msg, In msg conversation ->
         In msg (messages db)
         /\ message_matchId msg = matchId
         /\ (message_fromUser msg = userA m \/ message_fromUser msg = userB m)
         /\ isSpamMessage (message_body msg) = false.
Proof.
  intros db.
  assert (Hdb : consistent db)
    by apply serve_consistent, consistent_fresh.
  unfold messagesHandler.
  destruct (findMatch db matchId) as [m|] eqn:Em; [|discriminate].
  destruct (negb _ && negb _) eqn:Ep; [discriminate|].
  apply eqb_participant in Ep. intros [= <-].
  exists m. split; [reflexivity|]. split; [intuition congruence|].
  assert (Hin : In m (matches db))
    by (unfold findMatch in Em; now apply find_some in Em).
  destruct (matches_mutual db Hdb m Hin) as (_ & Hab & Hba).
  split; [exact Hab|]. split; [exact Hba|].
  intros msg Hmsg. apply filter_In in Hmsg as [Hmsg Hid].
  apply String.eqb_eq in Hid.
  destruct (messages_clean db Hdb msg Hmsg) as (Hs & m' & Hf & Hp).
  rewrite Hid, Em in Hf. injection Hf as <-.
  repeat split; try assumption. intuition congruence.
Qed.

Lemma conversation_is_private_witness :
  exists m conversation,
    messagesHandler
      (serve nextMidnightUTC (freshDatabase twoUsers twoProfiles)
         [PostLike 1705320000000 "m0" "alice" "bob";
          PostLike 1705320000000 "m1" "bob" "alice";
          PostMessage 1705320000000 "x1" "alice" "m1" "hello";
          PostMessage 1705320000000 "x2" "bob" "m1" "see http://spam.example"])
      "bob" "m1" = MessagesOk conversation
    /\ List.length conversation = 1%nat
    /\ userA m = "alice"%string
    /\ forall msg, In msg conversation ->
         isSpamMessage (message_body msg) = false.
Proof.
  set (requests :=
         [PostLike 1705320000000 "m0" "alice" "bob";
          PostLike 1705320000000 "m1" "bob" "alice";
          PostMessage 1705320000000 "x1" "alice" "m1" "hello";
          PostMessage 1705320000000 "x2" "bob" "m1"
            "see http://spam.example"]).
  set (db := serve nextMidnightUTC (freshDatabase twoUsers twoProfiles)
               requests).
  assert (H : exists conversation,
             messagesHandler db "bob" "m1" = MessagesOk conversation
             /\ List.length conversation = 1%nat)
    by (eexists; split; reflexivity).
  destruct H as (conversation & H & Hlen).
  destruct (conversation_is_private nextMidnightUTC twoUsers twoProfiles
              requests "bob" "m1" conversation H)
    as (m & Hm & _ & _ & _ & Hall).
  exists m, conversation. split; [exact H|]. split; [exact Hlen|].
  split.
  - assert (Hf : exists m', findMatch db "m1" = Some m'
                            /\ userA m' = "alice"%string)
      by (eexists; split; reflexivity).
    destruct Hf as (m' & Hf & Ha). fold db in Hm. congruence.
  - intros msg Hmsg. now apply Hall.
Defined.

Lemma findLike_In (db : Database) (a b : string) :
  In {| like_fromUser := a; like_toUser := b |} (likes db) ->
  exists l, findLike db a b = Some l.
Proof.
  intros Hin. destruct (findLike db a b) as [l|] eqn:E; [now exists l|].
  apply findLike_None in E. contradiction.
Qed.

(** X22.  A like that fails after the rate limit has been passed is still
    counted.  For a user with likes left in the running window who likes an
    account that does not exist, or one they like already, the answer is the
    404 or the 400, no like or match is stored, and the user's count of
    likes for the day has gone up by one. *)
Theorem failed_like_uses_quota (nextMidnight : Z -> Z) (now : Z)
  (newId : string) (db : Database) (fromUserId toUserId : string)
  (user : User) :
  fromUserId <> toUserId ->
  get (users db) fromUserId = Some user ->
  (now <= likesResetAt user)%Z ->
  (likesCount user < LIKES_PER_DAY)%Z ->
  get (users db) toUserId = None
  \/ In {| like_fromUser := fromUserId; like_toUser := toUserId |} (likes db) ->
  let result := likeHandler nextMidnight now newId db fromUserId toUserId in
  (fst result = ErrorResponse 404 "User not found"
   \/ fst result = ErrorResponse 400 "Already liked this user")
  /\ likes (snd result) = likes db
  /\ matches (snd result) = matches db
  /\ get (users (snd result)) fromUserId
     = Some {| likesCount := likesCount user + 1;
               likesResetAt := likesResetAt user;
               messagesCount := messagesCount user;
               messagesResetAt := messagesResetAt user |}.
Proof.
  intros Hne Hu Hopen Hleft Hfail result. subst result.
  unfold likeHandler.
  assert (Eself : String.eqb toUserId fromUserId = false)
    by (apply String.eqb_neq; congruence).
  rewrite Eself. unfold checkLikeRateLimit. rewrite Hu. cbv zeta.
  assert (E1 : (likesResetAt user <? now)%Z = false)
    by (apply Z.ltb_ge; lia).
  assert (E2 : (LIKES_PER_DAY <=? likesCount user)%Z = false)
    by (apply Z.leb_gt; lia).
  rewrite E1, E2. cbn [allowed negb withUsers users].
  rewrite (get_set_other _ _ _ _ Hne).
  destruct (get (users db) toUserId) as [target|] eqn:Et.
  - destruct Hfail as [Hfail|Hfail]; [discriminate|].
    destruct (findLike_In db _ _ Hfail) as (l & Hl).
    unfold findLike in *. cbn [likes withUsers]. rewrite Hl.
    cbn [fst snd likes matches users withUsers]. rewrite get_set_same. tauto.
  - cbn [fst snd likes matches users withUsers]. rewrite get_set_same. tauto.
Qed.

Lemma failed_like_uses_quota_witness :
  let result :=
    likeHandler nextMidnightUTC 1705320000000 "m1"
      (freshDatabase twoUsers twoProfiles) "alice" "nobody" in
  fst result = ErrorResponse 404 "User not found"
  /\ option_map likesCount (get (users (snd result)) "alice") = Some 59%Z.
Proof.
  destruct (failed_like_uses_quota nextMidnightUTC 1705320000000 "m1"
              (freshDatabase twoUsers twoProfiles) "alice" "nobody"
              {| likesCount := 58; likesResetAt := 1705363200000;
                 messagesCount := 0; messagesResetAt := 1705363200000 |})
    as ([H|H] & _ & _ & Hq).
  - discriminate.
  - reflexivity.
  - cbn. lia.
  - unfold LIKES_PER_DAY. cbn. lia.
  - left. reflexivity.
  - split; [exact H|]. rewrite Hq. reflexivity.
  - discriminate H.
Defined.
